(** * Dependency-aware publishing for a Contentful entry

    A shallow embedding of the sidebar logic of contentful-page-status:
    the iterative reference collector [fetchReferencesIteratively], the
    status classifier [buildReferenceInformation] and the publish
    orchestrator [doPublish], with the properties the specification states
    about them. *)

From Stdlib Require Import String.
From stdpp Require Import base option list sets gmap strings relations.

Open Scope string_scope.
Open Scope list_scope.
Open Scope nat_scope.

(** ** JavaScript values *)

(** Truthiness of an optional string property: [undefined] and the empty
    string are falsy. *)
Definition truthy_string (s : option string) : bool :=
  match s with
  | Some v => negb (String.eqb v "")
  | None => false
  end.

(** Truthiness of an optional number property: [undefined] and [0] are
    falsy. *)
Definition truthy_number (n : option nat) : bool :=
  match n with
  | Some v => negb (Nat.eqb v 0)
  | None => false
  end.

(** The relational operator [a > b] on two strings: lexicographic order on
    the code units. *)
Definition string_gt (a b : string) : bool := String.ltb b a.

(** A thrown value, as the text [`${error}`] renders it. *)
Definition JsError := string.

(** A settled promise. *)
Inductive Settled (A : Type) : Type :=
  | Fulfilled (a : A)
  | Rejected (e : JsError).
Arguments Fulfilled {A} a.
Arguments Rejected {A} e.

(** How a function call ends. *)
Inductive Completion (A : Type) : Type :=
  | Returned (a : A)
  | Thrown (e : JsError).
Arguments Returned {A} a.
Arguments Thrown {A} e.

(** ** Data model *)

Inductive EntityType := Entry | Asset.

(** [EntityMetaSysProps] and [EntrySys]: the fields of [sys] that the code
    reads. Timestamps are ISO-8601 strings. *)
Record EntityMetaSysProps := {
  sys_id : string;
  sys_type : EntityType;
  sys_space : string;
  sys_environment : string;
  sys_version : nat;
  sys_publishedVersion : option nat;
  sys_publishedAt : option string
}.

(** A localized value: one text per locale. *)
Definition Localized := list (string * string).

(** What reading a property gives, for a property that holds a localized
    value when it holds one: [undefined] (also for a property that the
    object does not have), [null], or the localized value. *)
Inductive FieldValue :=
  | Undefined
  | Null
  | Locales (value : Localized).

(** [KeyValueMap], that is [Record<string, any>]: the fields of an entry,
    in property order. *)
Definition KeyValueMap := list (string * FieldValue).

Record EntryProps := {
  entry_sys : EntityMetaSysProps;
  entry_contentType : string;
  entry_fields : KeyValueMap
}.

(** An asset with its [sys] and what [fields.title] gives. The type
    declares the title as required, but nothing checks the data of a
    response against it: an asset stored without a title arrives with
    [fields: {}]. *)
Record AssetProps := {
  asset_sys : EntityMetaSysProps;
  asset_title : FieldValue
}.

(** [EntryReferenceError]: the entity the error is about and its messages. *)
Record EntryReferenceError := {
  error_sys_id : string;
  error_sys_type : EntityType;
  error_messages : list string
}.

Definition entry_id (e : EntryProps) : string := sys_id (entry_sys e).
Definition asset_id (a : AssetProps) : string := sys_id (asset_sys a).

(** ** Lifecycle checks of the management library *)

(** Modelled from the spec: [isDraft], [isUpdated] and [isPublished] are
    imported from the contentful-management package, whose code is not part
    of the repository sources. The glossary gives their meaning (draft:
    never published; updated: published previously, with unpublished changes
    since); the package decides them on [sys.publishedVersion] and
    [sys.version], publishing itself adding one to the version. *)
Definition isPublished (sys : EntityMetaSysProps) : bool :=
  truthy_number (sys_publishedVersion sys).

Definition isDraft (sys : EntityMetaSysProps) : bool :=
  negb (truthy_number (sys_publishedVersion sys)).

Definition isUpdated (sys : EntityMetaSysProps) : bool :=
  match sys_publishedVersion sys with
  | Some pv => truthy_number (Some pv) && (pv + 1 <? sys_version sys)%nat
  | None => false
  end.

(** The lifecycle state of the specification's data model. *)
Inductive LifecycleState := Draft | Updated | Published.

Definition lifecycleState (sys : EntityMetaSysProps) : LifecycleState :=
  match sys_publishedVersion sys with
  | None => Draft
  | Some 0 => Draft
  | Some pv => if (pv + 1 <? sys_version sys)%nat then Updated else Published
  end.

(** ** Status classifier *)

Record IAllReferences := {
  entries : list EntryProps;
  assets : list AssetProps;
  errors : list EntryReferenceError;
  processedEntryIds : gset string
}.

Record IReferenceInformation := {
  published : bool;
  info_errors : list EntryReferenceError;
  errorCount : nat;
  entryCount : nat;
  draftEntries : list EntryProps;
  updatedEntries : list EntryProps;
  draftEntryCount : nat;
  updatedEntryCount : nat;
  assetCount : nat;
  draftAssets : list AssetProps;
  updatedAssets : list AssetProps;
  draftAssetCount : nat;
  updatedAssetCount : nat
}.

(** The callback of the two [filter] calls that look for dependencies
    published after the root:
    [publishedDate && x.sys.publishedAt && x.sys.publishedAt > publishedDate]. *)
Definition publishedAfter (publishedDate : option string)
    (sys : EntityMetaSysProps) : bool :=
  truthy_string publishedDate &&
  truthy_string (sys_publishedAt sys) &&
  match sys_publishedAt sys, publishedDate with
  | Some a, Some d => string_gt a d
  | _, _ => false
  end.

(** The out-of-date test of [buildReferenceInformation]: some asset or some
    entry passes the filter. *)
Definition isOutOfDate (publishedDate : option string)
    (allReferences : IAllReferences) : bool :=
  let assetsPublishedAfter :=
    List.filter (fun a => publishedAfter publishedDate (asset_sys a))
      (assets allReferences) in
  let entriesPublishedAfter :=
    List.filter (fun e => publishedAfter publishedDate (entry_sys e))
      (entries allReferences) in
  (0 <? length assetsPublishedAfter)%nat ||
  (0 <? length entriesPublishedAfter)%nat.

Definition buildReferenceInformation (entrySys : EntityMetaSysProps)
    (allReferences : IAllReferences) : IReferenceInformation :=
  let publishedDate := sys_publishedAt entrySys in
  let published := isPublished entrySys && negb (isUpdated entrySys) in
  let errors := errors allReferences in
  let errorCount := length errors in
  let entries := entries allReferences in
  let entryCount := length entries in
  let draftEntries := List.filter (fun e => isDraft (entry_sys e)) entries in
  let updatedEntries := List.filter (fun e => isUpdated (entry_sys e)) entries in
  let assets := assets allReferences in
  let assetCount := length assets in
  let draftAssets := List.filter (fun a => isDraft (asset_sys a)) assets in
  let updatedAssets := List.filter (fun a => isUpdated (asset_sys a)) assets in
  let isOutOfDate := isOutOfDate publishedDate allReferences in
  {| published := published && negb isOutOfDate;
     info_errors := errors;
     errorCount := errorCount;
     entryCount := entryCount;
     draftEntries := draftEntries;
     updatedEntries := updatedEntries;
     draftEntryCount := length draftEntries;
     updatedEntryCount := length updatedEntries;
     assetCount := assetCount;
     draftAssets := draftAssets;
     updatedAssets := updatedAssets;
     draftAssetCount := length draftAssets;
     updatedAssetCount := length updatedAssets |}.

(** The [sys] of every snapshot of a universe, assets and entries alike. *)
Definition universe_sys (u : IAllReferences) : list EntityMetaSysProps :=
  map asset_sys (assets u) ++ map entry_sys (entries u).

(** A dependency was published strictly later than the root: both carry a
    timestamp and the dependency's is the greater one. *)
Definition publishedLaterThan (root dep : EntityMetaSysProps) : Prop :=
  ∃ r d, sys_publishedAt root = Some r ∧ sys_publishedAt dep = Some d ∧
         String.ltb r d = true.

(** ** Reference collector *)

(** Entry types to exclude from recursive reference fetching. *)
Definition EXCLUDED_CONTENT_TYPES : list string :=
  ["article"; "page"; "articleType"; "person"; "tag"; "template";
   "customType"; "navigation"].

Record Includes := {
  includes_Entry : option (list EntryProps);
  includes_Asset : option (list AssetProps)
}.

(** [EntryReferenceProps]: what [sdk.cma.entry.references] resolves to. *)
Record EntryReferenceProps := {
  references_errors : option (list EntryReferenceError);
  references_includes : option Includes
}.

(** [references.includes?.Asset] and [references.includes?.Entry || []]. *)
Definition includedAssets (references : EntryReferenceProps) : list AssetProps :=
  default [] (references_includes references ≫= includes_Asset).

Definition includedEntries (references : EntryReferenceProps) : list EntryProps :=
  default [] (references_includes references ≫= includes_Entry).

(** The content repository behind [sdk.cma.entry.references]: a finite
    store from entry ids to the settled result of the request. A request
    for an id the store does not hold is rejected. *)
Abbreviation ReferenceStore := (gmap string (Settled (option EntryReferenceProps))).

Definition NotFound : JsError := "NotFound".

Definition cma_entry_references (sdk : ReferenceStore) (entryId : string)
    : Settled (option EntryReferenceProps) :=
  default (Rejected NotFound) (sdk !! entryId).

(** What the run lets its environment observe: the requests it sends and
    the progress it reports through [setProgress], in order. *)
Inductive Event :=
  | Fetch (entryId : string)
  | Progress (processed total : nat).

(** The mutable locals of [fetchReferencesIteratively]. *)
Record Collector := {
  allReferences : IAllReferences;
  entriesToProcess : list string;
  entriesQueued : gset string;
  trackedEntryIds : gset string;
  trackedAssetIds : gset string;
  processed : nat;
  total : nat;
  events : list Event
}.

Definition initial (entryId : string) : Collector :=
  {| allReferences :=
       {| entries := []; assets := []; errors := []; processedEntryIds := ∅ |};
     entriesToProcess := [entryId];
     entriesQueued := {[entryId]};
     trackedEntryIds := ∅;
     trackedAssetIds := ∅;
     processed := 0;
     total := 1;
     events := [] |}.

Definition emit (ev : Event) (st : Collector) : Collector :=
  {| allReferences := allReferences st;
     entriesToProcess := entriesToProcess st;
     entriesQueued := entriesQueued st;
     trackedEntryIds := trackedEntryIds st;
     trackedAssetIds := trackedAssetIds st;
     processed := processed st;
     total := total st;
     events := events st ++ [ev] |}.

(** [setProgress({ processed, total })]. *)
Definition setProgress (st : Collector) : Collector :=
  emit (Progress (processed st) (total st)) st.

(** [entriesToProcess.shift()], once the head has been read. *)
Definition shift (rest : list string) (st : Collector) : Collector :=
  {| allReferences := allReferences st;
     entriesToProcess := rest;
     entriesQueued := entriesQueued st;
     trackedEntryIds := trackedEntryIds st;
     trackedAssetIds := trackedAssetIds st;
     processed := processed st;
     total := total st;
     events := events st |}.

(** [allReferences.processedEntryIds.add(currentEntryId)]. *)
Definition markProcessed (currentEntryId : string) (st : Collector) : Collector :=
  {| allReferences :=
       {| entries := entries (allReferences st);
          assets := assets (allReferences st);
          errors := errors (allReferences st);
          processedEntryIds :=
            processedEntryIds (allReferences st) ∪ {[currentEntryId]} |};
     entriesToProcess := entriesToProcess st;
     entriesQueued := entriesQueued st;
     trackedEntryIds := trackedEntryIds st;
     trackedAssetIds := trackedAssetIds st;
     processed := processed st;
     total := total st;
     events := events st |}.

(** [processed++]. *)
Definition countProcessed (st : Collector) : Collector :=
  {| allReferences := allReferences st;
     entriesToProcess := entriesToProcess st;
     entriesQueued := entriesQueued st;
     trackedEntryIds := trackedEntryIds st;
     trackedAssetIds := trackedAssetIds st;
     processed := S (processed st);
     total := total st;
     events := events st |}.

(** [allReferences.errors.push(...errs)]. *)
Definition pushErrors (errs : list EntryReferenceError) (st : Collector)
    : Collector :=
  {| allReferences :=
       {| entries := entries (allReferences st);
          assets := assets (allReferences st);
          errors := errors (allReferences st) ++ errs;
          processedEntryIds := processedEntryIds (allReferences st) |};
     entriesToProcess := entriesToProcess st;
     entriesQueued := entriesQueued st;
     trackedEntryIds := trackedEntryIds st;
     trackedAssetIds := trackedAssetIds st;
     processed := processed st;
     total := total st;
     events := events st |}.

(** [allReferences.assets.push(asset); trackedAssetIds.add(assetId)]. *)
Definition pushAsset (asset : AssetProps) (st : Collector) : Collector :=
  {| allReferences :=
       {| entries := entries (allReferences st);
          assets := assets (allReferences st) ++ [asset];
          errors := errors (allReferences st);
          processedEntryIds := processedEntryIds (allReferences st) |};
     entriesToProcess := entriesToProcess st;
     entriesQueued := entriesQueued st;
     trackedEntryIds := trackedEntryIds st;
     trackedAssetIds := trackedAssetIds st ∪ {[asset_id asset]};
     processed := processed st;
     total := total st;
     events := events st |}.

(** [allReferences.entries.push(entry); trackedEntryIds.add(entryId)]. *)
Definition pushEntry (entry : EntryProps) (st : Collector) : Collector :=
  {| allReferences :=
       {| entries := entries (allReferences st) ++ [entry];
          assets := assets (allReferences st);
          errors := errors (allReferences st);
          processedEntryIds := processedEntryIds (allReferences st) |};
     entriesToProcess := entriesToProcess st;
     entriesQueued := entriesQueued st;
     trackedEntryIds := trackedEntryIds st ∪ {[entry_id entry]};
     trackedAssetIds := trackedAssetIds st;
     processed := processed st;
     total := total st;
     events := events st |}.

(** [entriesToProcess.push(entryId); entriesQueued.add(entryId); total++]. *)
Definition enqueue (entryId : string) (st : Collector) : Collector :=
  {| allReferences := allReferences st;
     entriesToProcess := entriesToProcess st ++ [entryId];
     entriesQueued := entriesQueued st ∪ {[entryId]};
     trackedEntryIds := trackedEntryIds st;
     trackedAssetIds := trackedAssetIds st;
     processed := processed st;
     total := S (total st);
     events := events st |}.

(** The TypeError of reading a property of [undefined], and of [null]. *)
Definition TypeError (property : string) : JsError :=
  String.append "TypeError: Cannot read properties of undefined (reading '"
    (String.append property "')").

Definition TypeErrorNull (property : string) : JsError :=
  String.append "TypeError: Cannot read properties of null (reading '"
    (String.append property "')").

(** [value["en-US"]], for the text of a template literal: reading the
    property throws on [undefined] and on [null]; a localized value gives
    its text, or [undefined] for a missing locale, and either can be
    rendered. *)
Definition readLocale (value : FieldValue) : Completion unit :=
  match value with
  | Undefined => Thrown (TypeError "en-US")
  | Null => Thrown (TypeErrorNull "en-US")
  | Locales _ => Returned tt
  end.

(** The argument of [debug] at the head of the loop over the assets is a
    template literal, evaluated although [debug] ignores it. Its part
    [asset.fields.title["en-US"]] throws a TypeError when the asset has no
    title. *)
Definition describeAsset (asset : AssetProps) : Completion unit :=
  readLocale (asset_title asset).

(** The body of the loop over [references.includes.Asset]. *)
Definition processAsset (asset : AssetProps) (st : Collector)
    : Collector * Completion unit :=
  match describeAsset asset with
  | Thrown e => (st, Thrown e)
  | Returned _ =>
      let st1 :=
        if decide (asset_id asset ∈ trackedAssetIds st) then st
        else pushAsset asset st in
      (st1, Returned tt)
  end.

(** The same at the head of the loop over the entries. The part
    [Object.entries(entry.fields)[0][1]["en-US"]] reads the first field of
    the entry: it throws a TypeError when the entry has no field, and when
    the value of its first field is [null] or [undefined]. *)
Definition describeEntry (entry : EntryProps) : Completion unit :=
  match entry_fields entry with
  | [] => Thrown (TypeError "1")
  | (_, value) :: _ => readLocale value
  end.

Definition excluded (contentType : string) : bool :=
  bool_decide (contentType ∈ EXCLUDED_CONTENT_TYPES).

(** The body of the loop over the entries of a response. *)
Definition processEntry (entry : EntryProps) (st : Collector)
    : Collector * Completion unit :=
  match describeEntry entry with
  | Thrown e => (st, Thrown e)
  | Returned _ =>
      let entryId := entry_id entry in
      let st1 :=
        if decide (entryId ∈ trackedEntryIds st) then st
        else pushEntry entry st in
      let contentType := entry_contentType entry in
      let st2 :=
        if negb (excluded contentType) &&
           negb (bool_decide (entryId ∈ entriesQueued st1))
        then setProgress (enqueue entryId st1)
        else st1 in
      (st2, Returned tt)
  end.

(** A [for ... of] loop whose body may throw: the exception leaves the
    loop, with the mutations made so far in place. *)
Fixpoint forEach {A : Type} (body : A → Collector → Collector * Completion unit)
    (l : list A) (st : Collector) : Collector * Completion unit :=
  match l with
  | [] => (st, Returned tt)
  | a :: l' =>
      match body a st with
      | (st', Returned _) => forEach body l' st'
      | (st', Thrown e) => (st', Thrown e)
      end
  end.

(** What the loop does with a fulfilled, defined response: the errors,
    then the assets, then the entries. An exception in the loop over the
    assets leaves the [try] block before the loop over the entries. *)
Definition absorb (references : EntryReferenceProps) (st : Collector)
    : Collector * Completion unit :=
  let st1 :=
    match references_errors references with
    | Some errs => pushErrors errs st
    | None => st
    end in
  match forEach processAsset (includedAssets references) st1 with
  | (st2, Returned _) => forEach processEntry (includedEntries references) st2
  | (st2, Thrown e) => (st2, Thrown e)
  end.

(** The [try] block of one iteration, for the entry taken off the queue. *)
Definition tryBlock (sdk : ReferenceStore) (currentEntryId : string)
    (st : Collector) : Collector * Completion unit :=
  if decide (currentEntryId ∈ processedEntryIds (allReferences st))
  then (st, Returned tt)
  else
    let st1 := emit (Fetch currentEntryId) (markProcessed currentEntryId st) in
    match cma_entry_references sdk currentEntryId with
    | Rejected e => (st1, Thrown e)
    | Fulfilled references =>
        let st2 := setProgress (countProcessed st1) in
        match references with
        | None => (st2, Returned tt)
        | Some references => absorb references st2
        end
    end.

(** The generic error the [catch] block records for the current entry. *)
Definition fetchError (currentEntryId : string) (error : JsError)
    : EntryReferenceError :=
  {| error_sys_id := currentEntryId;
     error_sys_type := Entry;
     error_messages := [String.append "Error fetching references: " error] |}.

Definition catchBlock (currentEntryId : string) (error : JsError)
    (st : Collector) : Collector :=
  setProgress
    (countProcessed (pushErrors [fetchError currentEntryId error] st)).

(** One iteration of the [while] loop, for a queue [currentEntryId :: rest]. *)
Definition iteration (sdk : ReferenceStore) (currentEntryId : string)
    (rest : list string) (st : Collector) : Collector :=
  match tryBlock sdk currentEntryId (shift rest st) with
  | (st', Returned _) => st'
  | (st', Thrown e) => catchBlock currentEntryId e st'
  end.

(** The [while] loop, cut after [n] iterations. *)
Fixpoint iterations (sdk : ReferenceStore) (n : nat) (st : Collector)
    : Collector :=
  match n with
  | 0 => st
  | S n' =>
      match entriesToProcess st with
      | [] => st
      | currentEntryId :: rest =>
          iterations sdk n' (iteration sdk currentEntryId rest st)
      end
  end.

(** The entry ids a store mentions in its responses. *)
Definition responseIds (r : Settled (option EntryReferenceProps)) : list string :=
  match r with
  | Fulfilled (Some references) => map entry_id (includedEntries references)
  | _ => []
  end.

Definition referencedIds (sdk : ReferenceStore) : gset string :=
  list_to_set (concat (map (λ kv, responseIds kv.2) (map_to_list sdk))).

(** No more iterations than there are ids to queue: the root and the ids
    the store mentions. *)
Definition iterationBound (sdk : ReferenceStore) (entryId : string) : nat :=
  size ({[entryId]} ∪ referencedIds sdk).

(** The state in which the loop ends: [None] if the queue were not empty
    after as many iterations as the bound allows. *)
Definition collect (sdk : ReferenceStore) (entryId : string) : option Collector :=
  let st := iterations sdk (iterationBound sdk entryId) (initial entryId) in
  match entriesToProcess st with
  | [] => Some st
  | _ :: _ => None
  end.

(** [fetchReferencesIteratively]: how the call ends and with which value.
    No statement outside the [try] block can throw, so the function has no
    path to [Thrown]. *)
Definition fetchReferencesIteratively (sdk : ReferenceStore) (entryId : string)
    : option (Completion IAllReferences) :=
  (λ st, Returned (allReferences st)) <$> collect sdk entryId.

(** The requests of a run and its progress reports, in order. *)
Definition fetches (evs : list Event) : list string :=
  omap (λ ev, match ev with Fetch i => Some i | _ => None end) evs.

Definition reports (evs : list Event) : list (nat * nat) :=
  omap (λ ev, match ev with Progress p t => Some (p, t) | _ => None end) evs.

(** ** Publish orchestrator *)

(** [IPublishStatus]: what [setStatus] receives. *)
Record IPublishStatus := {
  status_total : nat;
  status_published : nat;
  status_errors : nat;
  status_errored : list EntityMetaSysProps;
  status_isScheduled : bool;
  status_scheduledTime : option string;
  status_scheduledActionIds : list string
}.

(** The entity handed to a publish request. *)
Inductive Entity :=
  | AssetEntity (asset : AssetProps)
  | EntryEntity (entry : EntryProps).

(** What [sdk.cma.scheduledActions.create] resolves to, as far as the code
    looks into it. *)
Record ScheduledActionSys := { action_id : string }.
Record ScheduledActionProps := { action_sys : option ScheduledActionSys }.

(** A request to the content repository, with the way it settled. *)
Inductive Request :=
  | AssetPublish (assetId : string) (rawData : Entity) (res : Settled unit)
  | EntryPublish (entryId : string) (rawData : Entity) (res : Settled unit)
  | ScheduledActionsCreate (spaceId environmentId : string)
      (linkType : EntityType) (entityId : string) (datetime : string)
      (res : Settled (option ScheduledActionProps))
  | CurrentEntryPublish (res : Settled unit).

(** The part of [SidebarAppSDK] that [doPublish] uses. The repository may
    answer a request in the light of the requests it has seen. *)
Record PublishSDK := {
  cma_asset_publish : list Request → string → Entity → Settled unit;
  cma_entry_publish : list Request → string → Entity → Settled unit;
  cma_scheduledActions_create :
    list Request → string → string → EntityType → string → string →
    Settled (option ScheduledActionProps);
  entry_getSys : EntityMetaSysProps;
  entry_publish : list Request → Settled unit
}.

(** The mutable locals of [doPublish], the requests sent and the statuses
    passed to [setStatus], in order. The locals [published], [errors],
    [errored] and [scheduledActionIds] carry a prefix, their names being
    taken by fields of the records above. The arrays [errored] and
    [scheduledActionIds] are shared with every status object that was
    passed on; a status of [statuses] holds their content at the time of
    the call. *)
Record Publisher := {
  pub_published : nat;
  pub_errors : nat;
  pub_errored : list EntityMetaSysProps;
  pub_scheduledActionIds : list string;
  requests : list Request;
  statuses : list IPublishStatus
}.

Definition send (r : Request) (st : Publisher) : Publisher :=
  {| pub_published := pub_published st;
     pub_errors := pub_errors st;
     pub_errored := pub_errored st;
     pub_scheduledActionIds := pub_scheduledActionIds st;
     requests := requests st ++ [r];
     statuses := statuses st |}.

(** [scheduledActionIds.push(id)]. *)
Definition pushActionId (id : string) (st : Publisher) : Publisher :=
  {| pub_published := pub_published st;
     pub_errors := pub_errors st;
     pub_errored := pub_errored st;
     pub_scheduledActionIds := pub_scheduledActionIds st ++ [id];
     requests := requests st;
     statuses := statuses st |}.

(** [published++]. *)
Definition countPublished (st : Publisher) : Publisher :=
  {| pub_published := S (pub_published st);
     pub_errors := pub_errors st;
     pub_errored := pub_errored st;
     pub_scheduledActionIds := pub_scheduledActionIds st;
     requests := requests st;
     statuses := statuses st |}.

(** [errors++]. *)
Definition countError (st : Publisher) : Publisher :=
  {| pub_published := pub_published st;
     pub_errors := S (pub_errors st);
     pub_errored := pub_errored st;
     pub_scheduledActionIds := pub_scheduledActionIds st;
     requests := requests st;
     statuses := statuses st |}.

(** [errored.push(sys)]. *)
Definition pushErrored (sys : EntityMetaSysProps) (st : Publisher) : Publisher :=
  {| pub_published := pub_published st;
     pub_errors := pub_errors st;
     pub_errored := pub_errored st ++ [sys];
     pub_scheduledActionIds := pub_scheduledActionIds st;
     requests := requests st;
     statuses := statuses st |}.

Definition emitStatus (s : IPublishStatus) (st : Publisher) : Publisher :=
  {| pub_published := pub_published st;
     pub_errors := pub_errors st;
     pub_errored := pub_errored st;
     pub_scheduledActionIds := pub_scheduledActionIds st;
     requests := requests st;
     statuses := statuses st ++ [s] |}.

(** The id of a created action that the code keeps:
    [scheduledAction && scheduledAction.sys && scheduledAction.sys.id]. *)
Definition createdActionId (scheduledAction : option ScheduledActionProps)
    : option string :=
  match scheduledAction with
  | Some action =>
      match action_sys action with
      | Some sys =>
          if truthy_string (Some (action_id sys)) then Some (action_id sys)
          else None
      | None => None
      end
  | None => None
  end.

Section DoPublish.

(** [new Date(scheduledTime).toISOString()], which throws a RangeError
    for a text that is no date. *)
Variable Date_toISOString : string → Completion string.

Variable sdk : PublishSDK.
Variable information : IReferenceInformation.
Variable scheduledTime : option string.

Definition publishTotal : nat :=
  length (draftAssets information) + length (updatedAssets information) +
  length (draftEntries information) + length (updatedEntries information).

Definition isScheduled : bool := truthy_string scheduledTime.

Definition initialPublisher : Publisher :=
  {| pub_published := 0;
     pub_errors := 0;
     pub_errored := [];
     pub_scheduledActionIds := [];
     requests := [];
     statuses :=
       [ {| status_total := publishTotal;
            status_published := 0;
            status_errors := 0;
            status_errored := [];
            status_isScheduled := isScheduled;
            status_scheduledTime := scheduledTime;
            status_scheduledActionIds := [] |} ] |}.

(** [setStatus({ total, published, errors, errored, ... })]. *)
Definition setStatus (st : Publisher) : Publisher :=
  emitStatus
    {| status_total := publishTotal;
       status_published := pub_published st;
       status_errors := pub_errors st;
       status_errored := pub_errored st;
       status_isScheduled := isScheduled;
       status_scheduledTime := scheduledTime;
       status_scheduledActionIds := pub_scheduledActionIds st |} st.

(** Helper function to schedule publish using scheduledActions. *)
Definition schedulePublish (entityType : EntityType)
    (id spaceId environmentId : string) (st : Publisher)
    : Publisher * Completion bool :=
  match scheduledTime with
  | Some time =>
      if truthy_string (Some time) then
        match Date_toISOString time with
        | Thrown e => (st, Thrown e)
        | Returned datetime =>
            let res :=
              cma_scheduledActions_create sdk (requests st) spaceId
                environmentId entityType id datetime in
            let st1 :=
              send (ScheduledActionsCreate spaceId environmentId entityType
                      id datetime res) st in
            match res with
            | Rejected e => (st1, Thrown e)
            | Fulfilled scheduledAction =>
                match createdActionId scheduledAction with
                | Some actionId => (pushActionId actionId st1, Returned true)
                | None => (st1, Returned true)
                end
            end
        end
      else (st, Returned false)
  | None => (st, Returned false)
  end.

(** Helper function to publish immediately. *)
Definition publishImmediately (entityType : EntityType) (id : string)
    (entity : Entity) (st : Publisher) : Publisher * Completion bool :=
  match entityType with
  | Asset =>
      let res := cma_asset_publish sdk (requests st) id entity in
      let st1 := send (AssetPublish id entity res) st in
      match res with
      | Fulfilled _ => (st1, Returned true)
      | Rejected e => (st1, Thrown e)
      end
  | Entry =>
      let res := cma_entry_publish sdk (requests st) id entity in
      let st1 := send (EntryPublish id entity res) st in
      match res with
      | Fulfilled _ => (st1, Returned true)
      | Rejected e => (st1, Thrown e)
      end
  end.

(** The body of the two loops over the dependencies, the same for an
    asset and for an entry but for the kind. *)
Definition publishItem (entityType : EntityType) (sys : EntityMetaSysProps)
    (entity : Entity) (st : Publisher) : Publisher :=
  let attempt :=
    if isScheduled
    then schedulePublish entityType (sys_id sys) (sys_space sys)
           (sys_environment sys) st
    else publishImmediately entityType (sys_id sys) entity st in
  match attempt with
  | (st1, Returned _) => setStatus (countPublished st1)
  | (st1, Thrown _) => setStatus (pushErrored sys (countError st1))
  end.

Definition publishAsset (st : Publisher) (asset : AssetProps) : Publisher :=
  publishItem Asset (asset_sys asset) (AssetEntity asset) st.

Definition publishEntry (st : Publisher) (entry : EntryProps) : Publisher :=
  publishItem Entry (entry_sys entry) (EntryEntity entry) st.

(** Process assets: [for (const asset of [...draftAssets, ...updatedAssets])]. *)
Definition publishAssets (st : Publisher) : Publisher :=
  foldl publishAsset st (draftAssets information ++ updatedAssets information).

(** Process entries: [for (const entry of [...draftEntries, ...updatedEntries])]. *)
Definition publishEntries (st : Publisher) : Publisher :=
  foldl publishEntry st (draftEntries information ++ updatedEntries information).

(** The state once every dependency has been processed. *)
Definition dependenciesDone : Publisher :=
  publishEntries (publishAssets initialPublisher).

(** Publish or schedule the main entry: the [try] block and its [catch]. *)
Definition publishMain (st : Publisher) : Publisher :=
  let entrySys := entry_getSys sdk in
  let attempt :=
    if isScheduled && truthy_string scheduledTime
    then schedulePublish Entry (sys_id entrySys) (sys_space entrySys)
           (sys_environment entrySys) st
    else
      let res := entry_publish sdk (requests st) in
      let st1 := send (CurrentEntryPublish res) st in
      match res with
      | Fulfilled _ => (st1, Returned true)
      | Rejected e => (st1, Thrown e)
      end in
  match attempt with
  | (st1, Returned _) => st1
  | (st1, Thrown _) => countError st1
  end.

(** The state in which [doPublish] ends. *)
Definition doPublish_run : Publisher :=
  let st := dependenciesDone in
  if Nat.eqb (pub_errors st) 0 then publishMain st else st.

(** [doPublish]: [return errors === 0]. *)
Definition doPublish : bool := Nat.eqb (pub_errors doPublish_run) 0.

End DoPublish.


(** ** Vocabulary of the properties: traversals *)

(** The links a traversal follows: from an entry whose request is
    fulfilled to the entries that the response lists under a content type
    that is not excluded. *)
Definition links (sdk : ReferenceStore) (x y : string) : Prop :=
  ∃ references entry,
    sdk !! x = Some (Fulfilled (Some references)) ∧
    entry ∈ includedEntries references ∧
    entry_id entry = y ∧
    excluded (entry_contentType entry) = false.

(** The response to [parent] lists the snapshot. *)
Definition listsEntry (sdk : ReferenceStore) (parent : string)
    (entry : EntryProps) : Prop :=
  ∃ references,
    sdk !! parent = Some (Fulfilled (Some references)) ∧
    entry ∈ includedEntries references.

Definition listsAsset (sdk : ReferenceStore) (parent : string)
    (asset : AssetProps) : Prop :=
  ∃ references,
    sdk !! parent = Some (Fulfilled (Some references)) ∧
    asset ∈ includedAssets references.

(** The text built for [debug] can be evaluated for every asset that a
    response lists: the asset has a title. *)
Definition describableAssets (sdk : ReferenceStore) : Prop :=
  ∀ parent asset,
    listsAsset sdk parent asset → describeAsset asset = Returned tt.

(** The same for every entry that a response lists: the entry has a field,
    and the value of its first field is neither [null] nor [undefined]. *)
Definition describableEntries (sdk : ReferenceStore) : Prop :=
  ∀ parent entry,
    listsEntry sdk parent entry → describeEntry entry = Returned tt.

(** No exception leaves the handling of a response. *)
Definition describable (sdk : ReferenceStore) : Prop :=
  describableAssets sdk ∧ describableEntries sdk.

(** The counters of the reports never go down. *)
Definition nondecreasing (rs : list (nat * nat)) : Prop :=
  ∀ i j a b, i ≤ j → rs !! i = Some a → rs !! j = Some b →
             a.1 ≤ b.1 ∧ a.2 ≤ b.2.

(** Every report but the last one has [processed] strictly below [total]. *)
Definition belowTotalUntilLast (rs : list (nat * nat)) : Prop :=
  ∀ i p t, rs !! i = Some (p, t) → S i < length rs → p < t.

(** What holds of the state of the traversal from [root], at the head of
    the loop and between the steps of an iteration. *)
Record Inv (sdk : ReferenceStore) (root : string) (st : Collector) : Prop := {
  inv_entries_nodup : NoDup (map entry_id (entries (allReferences st)));
  inv_entries_tracked : ∀ i,
    i ∈ trackedEntryIds st ↔ i ∈ map entry_id (entries (allReferences st));
  inv_assets_nodup : NoDup (map asset_id (assets (allReferences st)));
  inv_assets_tracked : ∀ i,
    i ∈ trackedAssetIds st ↔ i ∈ map asset_id (assets (allReferences st));
  inv_fetches_nodup : NoDup (fetches (events st));
  inv_fetches : ∀ i,
    i ∈ processedEntryIds (allReferences st) ↔ i ∈ fetches (events st);
  inv_total : total st = size (entriesQueued st);
  inv_queue_nodup : NoDup (entriesToProcess st);
  inv_queued : ∀ i,
    i ∈ entriesQueued st ↔
    i ∈ processedEntryIds (allReferences st) ∨ i ∈ entriesToProcess st;
  inv_queue_fresh : ∀ i,
    i ∈ entriesToProcess st → i ∉ processedEntryIds (allReferences st);
  inv_reach : ∀ i, i ∈ entriesQueued st → rtc (links sdk) root i;
  inv_parent : ∀ i,
    i ∈ entriesQueued st →
    i = root ∨ ∃ p, p ∈ processedEntryIds (allReferences st) ∧ links sdk p i;
  inv_entries_from : ∀ entry,
    entry ∈ entries (allReferences st) →
    ∃ p, p ∈ processedEntryIds (allReferences st) ∧ listsEntry sdk p entry;
  inv_assets_from : ∀ asset,
    asset ∈ assets (allReferences st) →
    ∃ p, p ∈ processedEntryIds (allReferences st) ∧ listsAsset sdk p asset;
  inv_errors : ∀ i e,
    i ∈ processedEntryIds (allReferences st) →
    cma_entry_references sdk i = Rejected e →
    fetchError i e ∈ errors (allReferences st);
  inv_reports_bound :
    Forall (λ r, r.1 ≤ processed st ∧ r.2 ≤ total st) (reports (events st));
  inv_reports_sorted : nondecreasing (reports (events st));
  inv_last_report :
    last ((0, 1) :: reports (events st)) = Some (processed st, total st);
  inv_root : root ∈ entriesQueued st
}.

(** The counter [processed] counts the entries marked as processed, and no
    report has [processed] above [total]: this holds as long as no
    exception leaves the handling of a response. *)
Record Counted (st : Collector) : Prop := {
  cnt_processed :
    processed st = size (processedEntryIds (allReferences st));
  cnt_reports : Forall (λ r, r.1 ≤ r.2) (reports (events st))
}.

(** At the head of the loop, what the responses of the processed entries
    list has been taken up: this too holds as long as no exception leaves
    the handling of a response. *)
Record Closed (sdk : ReferenceStore) (st : Collector) : Prop := {
  cls_links : ∀ x y,
    x ∈ processedEntryIds (allReferences st) → links sdk x y →
    y ∈ entriesQueued st;
  cls_entries : ∀ p entry,
    p ∈ processedEntryIds (allReferences st) → listsEntry sdk p entry →
    entry_id entry ∈ trackedEntryIds st
}.

(** At the head of the loop, the assets that the responses of the
    processed entries list have been taken up: this holds as long as no
    exception leaves the loop over the assets of a response. *)
Definition assetsGathered (sdk : ReferenceStore) (st : Collector) : Prop :=
  ∀ p asset,
    p ∈ processedEntryIds (allReferences st) → listsAsset sdk p asset →
    asset_id asset ∈ trackedAssetIds st.

(** The handling of a response leaves the processed entries alone and
    only adds to the collections and to the queue. *)
Record steady (st st' : Collector) : Prop := {
  std_processedIds :
    processedEntryIds (allReferences st') =
    processedEntryIds (allReferences st);
  std_processed : processed st' = processed st;
  std_entries : trackedEntryIds st ⊆ trackedEntryIds st';
  std_assets : trackedAssetIds st ⊆ trackedAssetIds st';
  std_queued : entriesQueued st ⊆ entriesQueued st'
}.

(** Every snapshot that lists the id carries an excluded content type. *)
Definition onlyListedExcluded (sdk : ReferenceStore) (x : string) : Prop :=
  ∀ parent entry,
    listsEntry sdk parent entry → entry_id entry = x →
    excluded (entry_contentType entry) = true.

(** The traversal throws exactly when the request for the root fails. *)
Definition throwsExactlyForRoot (sdk : ReferenceStore) (root : string) : Prop :=
  (∃ e, fetchReferencesIteratively sdk root = Some (Thrown e)) ↔
  (∃ e, cma_entry_references sdk root = Rejected e).

(** The entries that the responses of a store list, each with the entry
    whose response lists it; and the two conditions above as checks. *)
Definition listedEntries (sdk : ReferenceStore) : list (string * EntryProps) :=
  concat
    (map (λ kv, match kv.2 with
                | Fulfilled (Some references) =>
                    map (pair kv.1) (includedEntries references)
                | _ => []
                end)
       (map_to_list sdk)).

Definition listedAssets (sdk : ReferenceStore) : list (string * AssetProps) :=
  concat
    (map (λ kv, match kv.2 with
                | Fulfilled (Some references) =>
                    map (pair kv.1) (includedAssets references)
                | _ => []
                end)
       (map_to_list sdk)).

Definition returns (c : Completion unit) : bool :=
  match c with
  | Returned _ => true
  | Thrown _ => false
  end.

Definition describableb (sdk : ReferenceStore) : bool :=
  forallb (λ pa, returns (describeAsset pa.2)) (listedAssets sdk) &&
  forallb (λ pe, returns (describeEntry pe.2)) (listedEntries sdk).

Definition onlyListedExcludedb (sdk : ReferenceStore) (x : string) : bool :=
  forallb (λ pe, if String.eqb (entry_id pe.2) x
                 then excluded (entry_contentType pe.2) else true)
    (listedEntries sdk).

(** ** Vocabulary of the properties: publish runs *)

(** The request was rejected. *)
Definition rejected (r : Request) : bool :=
  match r with
  | AssetPublish _ _ (Rejected _) => true
  | EntryPublish _ _ (Rejected _) => true
  | ScheduledActionsCreate _ _ _ _ _ (Rejected _) => true
  | CurrentEntryPublish (Rejected _) => true
  | _ => false
  end.

(** An immediate publish request, for an asset, an entry or the current
    entry; the alternative is the creation of a scheduled action. *)
Definition isImmediatePublish (r : Request) : bool :=
  match r with
  | ScheduledActionsCreate _ _ _ _ _ _ => false
  | _ => true
  end.

(** The kind of entity a request names, and its id; the request to publish
    the current entry names neither. *)
Definition requestKind (r : Request) : option EntityType :=
  match r with
  | AssetPublish _ _ _ => Some Asset
  | EntryPublish _ _ _ => Some Entry
  | ScheduledActionsCreate _ _ linkType _ _ _ => Some linkType
  | CurrentEntryPublish _ => None
  end.

Definition requestTarget (r : Request) : option string :=
  match r with
  | AssetPublish assetId _ _ => Some assetId
  | EntryPublish entryId _ _ => Some entryId
  | ScheduledActionsCreate _ _ _ entityId _ _ => Some entityId
  | CurrentEntryPublish _ => None
  end.

(** A request for the main entry: the publication of the current entry, or
    a scheduled action for the entry that [getSys] names. *)
Definition isMainRequest (sdk : PublishSDK) (r : Request) : Prop :=
  match r with
  | CurrentEntryPublish _ => True
  | ScheduledActionsCreate _ _ linkType entityId _ _ =>
      linkType = Entry ∧ entityId = sys_id (entry_getSys sdk)
  | _ => False
  end.

(** The id of the scheduled action that a request brought back. *)
Definition returnedActionId (r : Request) : option string :=
  match r with
  | ScheduledActionsCreate _ _ _ _ _ (Fulfilled (Some action)) =>
      action_id <$> action_sys action
  | _ => None
  end.

(** Whether the run gets as far as sending requests: a scheduled run with
    a text that is no date fails every item before any request. *)
Definition sendsRequests (Date_toISOString : string → Completion string)
    (scheduledTime : option string) : bool :=
  match scheduledTime with
  | Some time =>
      if truthy_string (Some time) then
        match Date_toISOString time with
        | Returned _ => true
        | Thrown _ => false
        end
      else true
  | None => true
  end.

(** The id that the code keeps from a request. *)
Definition keptActionId (r : Request) : option string :=
  match r with
  | ScheduledActionsCreate _ _ _ _ _ (Fulfilled scheduledAction) =>
      createdActionId scheduledAction
  | _ => None
  end.

Section PublishVocabulary.

Variable Date_toISOString : string → Completion string.
Variable scheduledTime : option string.

(** The request belongs to the item of that kind and id, in the mode of
    the run. *)
Definition requestFor (kind : EntityType) (id : string) (r : Request) : Prop :=
  requestKind r = Some kind ∧ requestTarget r = Some id ∧
  isImmediatePublish r = negb (isScheduled scheduledTime).

(** The failures among [n] items that sent the requests [rs]. *)
Definition failures (n : nat) (rs : list Request) : nat :=
  if sendsRequests Date_toISOString scheduledTime
  then length (List.filter rejected rs) else n.

(** What the processing of [items] of one kind adds to a state. *)
Record extends (kind : EntityType) (items : list EntityMetaSysProps)
    (st st' : Publisher) (rs : list Request) : Prop := {
  ext_requests : requests st' = requests st ++ rs;
  ext_for :
    Forall2 (λ sys r, requestFor kind (sys_id sys) r)
      (if sendsRequests Date_toISOString scheduledTime then items else [])
      rs;
  ext_errors : pub_errors st' = pub_errors st + failures (length items) rs;
  ext_published :
    pub_published st' + pub_errors st' =
    pub_published st + pub_errors st + length items;
  ext_errored :
    length (pub_errored st') =
    length (pub_errored st) + failures (length items) rs;
  ext_actionIds :
    pub_scheduledActionIds st' =
    pub_scheduledActionIds st ++ omap keptActionId rs
}.

End PublishVocabulary.

(** ** Concrete inputs *)

Definition sysOf (id : string) (type : EntityType) (version : nat)
    (publishedVersion : option nat) (publishedAt : option string)
    : EntityMetaSysProps :=
  {| sys_id := id; sys_type := type; sys_space := "space";
     sys_environment := "master"; sys_version := version;
     sys_publishedVersion := publishedVersion;
     sys_publishedAt := publishedAt |}.

(** A root published at T=100 and unchanged since, with one asset published
    at T=150 in its universe. *)
Definition root100 : EntityMetaSysProps :=
  sysOf "root" Entry 2 (Some 1) (Some "100").

Definition asset150 : AssetProps :=
  {| asset_sys := sysOf "X" Asset 2 (Some 1) (Some "150");
     asset_title := Locales [("en-US", "X")] |}.

Definition universe150 : IAllReferences :=
  {| entries := []; assets := [asset150]; errors := [];
     processedEntryIds := {["root"]} |}.

(** A root whose [sys] carries a published version but no publication
    timestamp. *)
Definition rootUndated : EntityMetaSysProps :=
  sysOf "root" Entry 2 (Some 1) None.

(** Two draft assets and two draft entries that wait for publication. *)
Definition draftAsset (id : string) : AssetProps :=
  {| asset_sys := sysOf id Asset 1 None None;
     asset_title := Locales [("en-US", id)] |}.

Definition draftEntry (id contentType : string) : EntryProps :=
  {| entry_sys := sysOf id Entry 1 None None;
     entry_contentType := contentType;
     entry_fields := [("title", Locales [("en-US", id)])] |}.

Definition pending : IAllReferences :=
  {| entries := [draftEntry "e1" "hero"; draftEntry "e2" "teaser"];
     assets := [draftAsset "a1"; draftAsset "a2"];
     errors := [];
     processedEntryIds := {["root"]} |}.

Definition pendingInformation : IReferenceInformation :=
  buildReferenceInformation rootUndated pending.

(** A date conversion that takes every text but ["soon"] for a date. *)
Definition toISOString (time : string) : Completion string :=
  if String.eqb time "soon" then Thrown "RangeError: Invalid time value"
  else Returned (String.append time ":00.000Z").

(** A content repository that fulfils every request but the publication of
    the entries in [failing], and names the scheduled action for an entity
    after it. *)
Definition repository (failing : list string) : PublishSDK :=
  {| cma_asset_publish := λ _ _ _, Fulfilled ();
     cma_entry_publish := λ _ entryId _,
       if bool_decide (entryId ∈ failing) then Rejected "VersionMismatch"
       else Fulfilled ();
     cma_scheduledActions_create := λ _ _ _ _ entityId _,
       Fulfilled (Some {| action_sys :=
         Some {| action_id := String.append "action-" entityId |} |});
     entry_getSys := rootUndated;
     entry_publish := λ _, Fulfilled () |}.

(** Stores of references. A response that lists the given entries and
    assets, without errors. *)
Definition response (listedEntries : list EntryProps)
    (listedAssets : list AssetProps) : Settled (option EntryReferenceProps) :=
  Fulfilled (Some
    {| references_errors := None;
       references_includes :=
         Some {| includes_Entry := Some listedEntries;
                 includes_Asset := Some listedAssets |} |}).

(** A references B and B references A. *)
Definition cycle : ReferenceStore :=
  <["A" := response [draftEntry "B" "hero"] []]>
    (<["B" := response [draftEntry "A" "landing"] []]> ∅).

(** A references itself. *)
Definition selfReference : ReferenceStore :=
  <["A" := response [draftEntry "A" "hero"] []]> ∅.

(** A references B, which references nothing. *)
Definition chain : ReferenceStore :=
  <["A" := response [draftEntry "B" "hero"] []]>
    (<["B" := response [] []]> ∅).

(** Three entries of the root reference the same asset X. *)
Definition shared : ReferenceStore :=
  <["root" := response [draftEntry "e1" "hero"; draftEntry "e2" "teaser";
                        draftEntry "e3" "quote"] []]>
    (<["e1" := response [] [draftAsset "X"]]>
       (<["e2" := response [] [draftAsset "X"]]>
          (<["e3" := response [] [draftAsset "X"]]> ∅))).

(** The root references a navigation entry, which references a menu. *)
Definition structural : ReferenceStore :=
  <["root" := response [draftEntry "nav" "navigation"] []]>
    (<["nav" := response [draftEntry "menu" "hero"] []]> ∅).

(** A draft entry without fields, and a draft asset without title. *)
Definition emptyEntry (id contentType : string) : EntryProps :=
  {| entry_sys := sysOf id Entry 1 None None;
     entry_contentType := contentType;
     entry_fields := [] |}.

Definition untitledAsset (id : string) : AssetProps :=
  {| asset_sys := sysOf id Asset 1 None None;
     asset_title := Undefined |}.

(** The root references an entry without fields, then a teaser. *)
Definition fieldless : ReferenceStore :=
  <["root" := response [emptyEntry "empty" "hero";
                        draftEntry "teaser" "teaser"] []]> ∅.

(** A references an entry without fields and B; B references A. *)
Definition fieldlessCycle : ReferenceStore :=
  <["A" := response [emptyEntry "empty" "hero"; draftEntry "B" "hero"] []]>
    (<["B" := response [draftEntry "A" "landing"] []]> ∅).

(** Three entries of the root reference the same two assets: one without
    title, then X. *)
Definition sharedUntitled : ReferenceStore :=
  <["root" := response [draftEntry "e1" "hero"; draftEntry "e2" "teaser";
                        draftEntry "e3" "quote"] []]>
    (<["e1" := response [] [untitledAsset "U"; draftAsset "X"]]>
       (<["e2" := response [] [untitledAsset "U"; draftAsset "X"]]>
          (<["e3" := response [] [untitledAsset "U"; draftAsset "X"]]> ∅))).

(** The root references an entry without fields and then three entries,
    each of which references the asset X. *)
Definition sharedBehindFieldless : ReferenceStore :=
  <["root" := response [emptyEntry "empty" "hero"; draftEntry "e1" "hero";
                        draftEntry "e2" "teaser"; draftEntry "e3" "quote"] []]>
    (<["e1" := response [] [draftAsset "X"]]>
       (<["e2" := response [] [draftAsset "X"]]>
          (<["e3" := response [] [draftAsset "X"]]> ∅))).

(** The root references an entry without fields, then a navigation
    entry. *)
Definition fieldlessNavigation : ReferenceStore :=
  <["root" := response [emptyEntry "empty" "hero";
                        draftEntry "nav" "navigation"] []]> ∅.

(** The root references an asset without title. *)
Definition untitled : ReferenceStore :=
  <["root" := response [] [untitledAsset "U"]]> ∅.

(** The root references an entry and three assets, the second of them
    without title. *)
Definition untitledBetween : ReferenceStore :=
  <["root" := response [draftEntry "e1" "hero"]
                [draftAsset "a1"; untitledAsset "U"; draftAsset "a2"]]> ∅.

(** ** Vocabulary of the properties: the items of a publish run *)

(** A dependency of a run: a pending asset or a pending entry. *)
Inductive Item :=
  | AssetItem (asset : AssetProps)
  | EntryItem (entry : EntryProps).

Definition itemKind (i : Item) : EntityType :=
  match i with
  | AssetItem _ => Asset
  | EntryItem _ => Entry
  end.

Definition itemSys (i : Item) : EntityMetaSysProps :=
  match i with
  | AssetItem asset => asset_sys asset
  | EntryItem entry => entry_sys entry
  end.

Definition itemEntity (i : Item) : Entity :=
  match i with
  | AssetItem asset => AssetEntity asset
  | EntryItem entry => EntryEntity entry
  end.

(** The dependencies in the order of the two loops of [doPublish]: draft
    assets, updated assets, draft entries, updated entries. *)
Definition dependencies (information : IReferenceInformation) : list Item :=
  map AssetItem (draftAssets information ++ updatedAssets information) ++
  map EntryItem (draftEntries information ++ updatedEntries information).

(** The request of an immediate run for an item, however it settles: the
    publication of the asset or entry of that id, with the snapshot of the
    item as its payload. *)
Definition immediateRequest (i : Item) (r : Request) : Prop :=
  match i with
  | AssetItem asset =>
      ∃ res, r = AssetPublish (asset_id asset) (AssetEntity asset) res
  | EntryItem entry =>
      ∃ res, r = EntryPublish (entry_id entry) (EntryEntity entry) res
  end.

(** The request of a scheduled run for an entity, however it settles: a
    scheduled action in the space and environment of the entity, for the
    given time. *)
Definition scheduleRequest (datetime : string) (kind : EntityType)
    (sys : EntityMetaSysProps) (r : Request) : Prop :=
  ∃ res, r = ScheduledActionsCreate (sys_space sys) (sys_environment sys)
                kind (sys_id sys) datetime res.

(** The items among [items] whose request, at the same place in [rs], was
    rejected. *)
Definition rejectedItems (items : list Item) (rs : list Request)
    : list EntityMetaSysProps :=
  map (λ p, itemSys p.1) (List.filter (λ p, rejected p.2) (zip items rs)).

(** [scheduledActionIds.push(id)] for the id that the code keeps from a
    request, if it keeps one. *)
Definition keepActionId (r : Request) (st : Publisher) : Publisher :=
  match keptActionId r with
  | Some actionId => pushActionId actionId st
  | None => st
  end.

(** The status that [setStatus] receives in a state of the run. *)
Definition statusOf (information : IReferenceInformation)
    (scheduledTime : option string) (st : Publisher) : IPublishStatus :=
  {| status_total := publishTotal information;
     status_published := pub_published st;
     status_errors := pub_errors st;
     status_errored := pub_errored st;
     status_isScheduled := isScheduled scheduledTime;
     status_scheduledTime := scheduledTime;
     status_scheduledActionIds := pub_scheduledActionIds st |}.

(** The request that a run sends for a dependency, however it settles:
    in a run with a scheduled time, a scheduled action for the time that
    the conversion of the text gives; otherwise an immediate publication. *)
Definition requestShape (Date_toISOString : string → Completion string)
    (scheduledTime : option string) (i : Item) (r : Request) : Prop :=
  if isScheduled scheduledTime
  then ∃ time datetime,
         scheduledTime = Some time ∧
         Date_toISOString time = Returned datetime ∧
         scheduleRequest datetime (itemKind i) (itemSys i) r
  else immediateRequest i r.

(** What holds of the statuses passed to [setStatus] while the
    dependencies are processed: one status for the start and one per item
    handled, each with the counters of its moment, the last one with those
    of the state. *)
Record Reported (information : IReferenceInformation)
    (scheduledTime : option string) (st : Publisher) : Prop := {
  rep_length : length (statuses st) = S (pub_published st + pub_errors st);
  rep_last : last (statuses st) = Some (statusOf information scheduledTime st);
  rep_errored : length (pub_errored st) = pub_errors st;
  rep_each : ∀ k s,
    statuses st !! k = Some s →
    status_total s = publishTotal information ∧
    status_published s + status_errors s = k ∧
    length (status_errored s) = status_errors s ∧
    status_isScheduled s = isScheduled scheduledTime ∧
    status_scheduledTime s = scheduledTime;
  rep_sorted : ∀ j k s1 s2,
    j ≤ k → statuses st !! j = Some s1 → statuses st !! k = Some s2 →
    status_published s1 ≤ status_published s2 ∧
    status_errors s1 ≤ status_errors s2 ∧
    status_errored s1 `prefix_of` status_errored s2 ∧
    status_scheduledActionIds s1 `prefix_of` status_scheduledActionIds s2
}.

Section PublishItems.

Variable Date_toISOString : string → Completion string.
Variable sdk : PublishSDK.
Variable information : IReferenceInformation.
Variable scheduledTime : option string.

(** The body of either loop of [doPublish], for a dependency. *)
Definition publishOne (st : Publisher) (i : Item) : Publisher :=
  publishItem Date_toISOString sdk information scheduledTime
    (itemKind i) (itemSys i) (itemEntity i) st.

End PublishItems.

(** ** Vocabulary of the properties: what the visit of an entry adds *)

(** The items that one of the two loops over a response gets to handle:
    those ahead of the first item for which the text for [debug] cannot
    be evaluated. *)
Fixpoint handled {A : Type} (describe : A → Completion unit) (l : list A)
    : list A :=
  match l with
  | [] => []
  | a :: l' =>
      match describe a with
      | Returned _ => a :: handled describe l'
      | Thrown _ => []
      end
  end.

(** The exception that ends the loop, if one does. *)
Fixpoint firstThrow {A : Type} (describe : A → Completion unit) (l : list A)
    : option JsError :=
  match l with
  | [] => None
  | a :: l' =>
      match describe a with
      | Returned _ => firstThrow describe l'
      | Thrown e => Some e
      end
  end.

(** The exception that the handling of a response ends with, if it ends
    with one: that of the loop over the assets or, when that loop runs to
    its end, that of the loop over the entries. *)
Definition responseThrows (references : EntryReferenceProps) : option JsError :=
  match firstThrow describeAsset (includedAssets references) with
  | Some e => Some e
  | None => firstThrow describeEntry (includedEntries references)
  end.

(** The snapshots of a response that its handling meets: the assets that
    the first loop gets to handle and, when that loop runs to its end, the
    entries that the second loop gets to handle. *)
Definition responseAssets (references : EntryReferenceProps) : list AssetProps :=
  handled describeAsset (includedAssets references).

Definition responseEntries (references : EntryReferenceProps) : list EntryProps :=
  match firstThrow describeAsset (includedAssets references) with
  | Some _ => []
  | None => handled describeEntry (includedEntries references)
  end.

(** The exception that the [try] block ends with when it visits the
    entry, if it ends with one: the rejection of the request, or the
    exception that cuts the handling of the response short. *)
Definition visitThrows (sdk : ReferenceStore) (i : string) : option JsError :=
  match cma_entry_references sdk i with
  | Rejected e => Some e
  | Fulfilled None => None
  | Fulfilled (Some references) => responseThrows references
  end.

(** The errors that the visit adds to the collection: those that the
    response lists, then the generic error if the [try] block throws. *)
Definition visitErrors (sdk : ReferenceStore) (i : string)
    : list EntryReferenceError :=
  match cma_entry_references sdk i with
  | Fulfilled (Some references) => default [] (references_errors references)
  | _ => []
  end ++
  match visitThrows sdk i with
  | Some e => [fetchError i e]
  | None => []
  end.

(** How often the visit counts the entry as processed: once in the
    [catch] block if the request is rejected; once after a fulfilled
    request, and once more in the [catch] block if the handling of the
    response throws. *)
Definition visitCount (sdk : ReferenceStore) (i : string) : nat :=
  match cma_entry_references sdk i with
  | Rejected _ => 1
  | Fulfilled _ =>
      match visitThrows sdk i with
      | Some _ => 2
      | None => 1
      end
  end.

(** The snapshots that the visit meets. *)
Definition visitAssets (sdk : ReferenceStore) (i : string) : list AssetProps :=
  match cma_entry_references sdk i with
  | Fulfilled (Some references) => responseAssets references
  | _ => []
  end.

Definition visitEntries (sdk : ReferenceStore) (i : string) : list EntryProps :=
  match cma_entry_references sdk i with
  | Fulfilled (Some references) => responseEntries references
  | _ => []
  end.

(** The ids among them that the traversal follows: those of the entries
    whose content type is not excluded. *)
Definition visitFollows (sdk : ReferenceStore) (i : string) : list string :=
  map entry_id
    (List.filter (λ entry, negb (excluded (entry_contentType entry)))
       (visitEntries sdk i)).

(** [acc] with the items of [l] added in order, but for those whose key
    an item ahead of them has: of each key the first item is kept. *)
Definition addNew {A : Type} (key : A → string) (acc l : list A) : list A :=
  foldl (λ acc x, if decide (key x ∈ map key acc) then acc else acc ++ [x])
    acc l.

(** The step leaves the errors, the counter of the processed entries and
    the requests as they are, and adds to what the run lets observe. *)
Record quiet (st st' : Collector) : Prop := {
  qt_errors : errors (allReferences st') = errors (allReferences st);
  qt_processed : processed st' = processed st;
  qt_fetches : fetches (events st') = fetches (events st);
  qt_events : events st `prefix_of` events st'
}.

(** What holds at the head of the loop of the collection, of the counter
    and of the queue, in terms of the entries requested so far. *)
Record Ledger (sdk : ReferenceStore) (root : string) (st : Collector)
    : Prop := {
  led_errors :
    errors (allReferences st) =
    concat (map (visitErrors sdk) (fetches (events st)));
  led_processed :
    processed st = sum_list (map (visitCount sdk) (fetches (events st)));
  led_entries :
    entries (allReferences st) =
    addNew entry_id [] (concat (map (visitEntries sdk) (fetches (events st))));
  led_assets :
    assets (allReferences st) =
    addNew asset_id [] (concat (map (visitAssets sdk) (fetches (events st))));
  led_queue :
    fetches (events st) ++ entriesToProcess st =
    addNew id [root] (concat (map (visitFollows sdk) (fetches (events st))))
}.

(** ** Sidebar: the link to a failed item, and the publish actions *)

(** [getEditorEntry]. The template reads [sys.space.sys.id], [sys.type]
    and [sys.id], properties that every [EntityMetaSysProps] has, so the
    [try] block ends without an exception and the [catch] block, which
    would return ["/"], is not entered. *)
Definition getEditorEntry (sys : EntityMetaSysProps) : string :=
  String.append "https://app.contentful.com/spaces/"
    (String.append (sys_space sys)
       (String.append "/"
          (String.append
             (match sys_type sys with
              | Asset => "assets"
              | Entry => "entries"
              end)
             (String.append "/" (sys_id sys))))).

(** The two constants that the component computes from the information
    before it renders: the number of items to publish, and whether the
    publish actions are offered. *)
Definition publishNeedCount (information : IReferenceInformation) : nat :=
  draftEntryCount information + updatedEntryCount information +
  draftAssetCount information + updatedAssetCount information.

Definition publishNeeded (information : IReferenceInformation) : bool :=
  Nat.eqb (errorCount information) 0 &&
  (negb (published information) ||
   (Nat.eqb (errorCount information) 0 &&
    (0 <? publishNeedCount information)%nat)).

(** The text holds no slash. *)
Fixpoint slashFree (s : string) : bool :=
  match s with
  | EmptyString => true
  | String c s' => negb (String.eqb (String c "") "/") && slashFree s'
  end.

(** ** Sidebar: the component *)

Inductive Status := Idle | Reading | Complete | Error | Publishing.

Record IProgressStatus := {
  progress_processed : nat;
  progress_total : nat;
  isComplete : bool
}.

(** The SDK of the sidebar, as far as the component uses it: the part
    that [doPublish] uses, and what a read returns once the content
    repository has served the requests of a publish run, none before a
    run: the references that [sdk.cma.entry.references] answers with, and
    the [sys] that [sdk.entry.getSys] returns. *)
Record SidebarAppSDK := {
  sdk_publish : PublishSDK;
  sdk_references : list Request → ReferenceStore;
  sdk_getSys : list Request → EntityMetaSysProps
}.

(** What the component shows: one constructor for each tree that
    [Sidebar] returns, with the values that the tree shows.
    - [Loading]: the text "Loading references...", and under it, when
      [progress.total > 0], "Processing [processed] of [total] entries"
      with the bar.
    - [PublishingNote]: the heading "Scheduled for" the time of the
      status when the status is scheduled, "Publishing" otherwise; the
      line [published]/[total]; and, when [errors > 0], the number of
      errors with a link for each element of [errored].
    - [ErrorNote]: "Error processing:" and the error.
    - [ScheduleOptions]: the input for the date with its value, and the
      buttons "Schedule Publish", disabled without a date, and "Cancel".
    - [PublishActions]: the number of items that need publishing when it
      is positive, and the buttons "Publish Now", "Schedule..." and
      "Refresh".
    - [AllUpToDate]: the note "All up to date" and the button "Refresh".
    - [SomethingDidNotWork]: the warning and the button "Refresh". *)
Record ErroredLink := {
  link_href : string;
  link_type : EntityType;
  link_id : string
}.

Inductive View :=
  | Loading (processing : option (nat * nat))
  | PublishingNote (scheduledFor : option string) (published total : nat)
      (errors : option (nat * list ErroredLink))
  | ErrorNote (error : string)
  | ScheduleOptions (scheduledDate : string) (isDisabled : bool)
  | PublishActions (needPublishing : option nat)
  | AllUpToDate
  | SomethingDidNotWork.

Inductive Button :=
  | PublishNow
  | ScheduleEllipsis
  | Refresh
  | SchedulePublish (isDisabled : bool)
  | Cancel.

(** The buttons of a view. *)
Definition buttons (v : View) : list Button :=
  match v with
  | Loading _ => []
  | PublishingNote _ _ _ _ => []
  | ErrorNote _ => []
  | ScheduleOptions _ isDisabled => [SchedulePublish isDisabled; Cancel]
  | PublishActions _ => [PublishNow; ScheduleEllipsis; Refresh]
  | AllUpToDate => [Refresh]
  | SomethingDidNotWork => [Refresh]
  end.

Definition erroredLink (s : EntityMetaSysProps) : ErroredLink :=
  {| link_href := getEditorEntry s;
     link_type := sys_type s;
     link_id := sys_id s |}.

Module Sidebar.

(** The state of the component, one field for each [useState]. *)
Record State := {
  status : Status;
  error : option string;
  information : option IReferenceInformation;
  publishStatus : option IPublishStatus;
  progress : IProgressStatus;
  scheduledDate : string;
  showScheduleOptions : bool
}.

Definition initialState : State :=
  {| status := Idle;
     error := None;
     information := None;
     publishStatus := None;
     progress :=
       {| progress_processed := 0; progress_total := 0; isComplete := false |};
     scheduledDate := "";
     showScheduleOptions := false |}.

Definition setStatus (v : Status) (st : State) : State :=
  {| status := v;
     error := error st;
     information := information st;
     publishStatus := publishStatus st;
     progress := progress st;
     scheduledDate := scheduledDate st;
     showScheduleOptions := showScheduleOptions st |}.

Definition setError (v : string) (st : State) : State :=
  {| status := status st;
     error := Some v;
     information := information st;
     publishStatus := publishStatus st;
     progress := progress st;
     scheduledDate := scheduledDate st;
     showScheduleOptions := showScheduleOptions st |}.

Definition setInformation (v : IReferenceInformation) (st : State) : State :=
  {| status := status st;
     error := error st;
     information := Some v;
     publishStatus := publishStatus st;
     progress := progress st;
     scheduledDate := scheduledDate st;
     showScheduleOptions := showScheduleOptions st |}.

Definition setPublishStatus (st : State) (v : IPublishStatus) : State :=
  {| status := status st;
     error := error st;
     information := information st;
     publishStatus := Some v;
     progress := progress st;
     scheduledDate := scheduledDate st;
     showScheduleOptions := showScheduleOptions st |}.

Definition setProgress (v : IProgressStatus) (st : State) : State :=
  {| status := status st;
     error := error st;
     information := information st;
     publishStatus := publishStatus st;
     progress := v;
     scheduledDate := scheduledDate st;
     showScheduleOptions := showScheduleOptions st |}.

Definition setScheduledDate (v : string) (st : State) : State :=
  {| status := status st;
     error := error st;
     information := information st;
     publishStatus := publishStatus st;
     progress := progress st;
     scheduledDate := v;
     showScheduleOptions := showScheduleOptions st |}.

Definition setShowScheduleOptions (v : bool) (st : State) : State :=
  {| status := status st;
     error := error st;
     information := information st;
     publishStatus := publishStatus st;
     progress := progress st;
     scheduledDate := scheduledDate st;
     showScheduleOptions := v |}.

(** [updateProgress]: the callback that the traversal reports to. *)
Definition updateProgress (st : State) (progressData : nat * nat) : State :=
  setProgress
    {| progress_processed := progressData.1;
       progress_total := progressData.2;
       isComplete := Nat.eqb progressData.1 progressData.2 |} st.

Section Handlers.

Variable Date_toISOString : string → Completion string.
Variable sdk : SidebarAppSDK.

(** [retrieveInformation], once its promise has settled, the content
    repository having served the requests [served]. The reports that
    reach [updateProgress] are those of the run that gives the result;
    the function is [None] only if that run were cut short. *)
Definition retrieveInformation (served : list Request) (st : State)
    : option State :=
  let st1 :=
    setProgress
      {| progress_processed := 0; progress_total := 1; isComplete := false |}
      (setStatus Reading st) in
  let entrySys := sdk_getSys sdk served in
  run ← collect (sdk_references sdk served) (sys_id entrySys);
  outcome ←
    fetchReferencesIteratively (sdk_references sdk served) (sys_id entrySys);
  let st2 := foldl updateProgress st1 (reports (events run)) in
  Some match outcome with
       | Returned allReferences =>
           setInformation (buildReferenceInformation entrySys allReferences)
             (setStatus Complete st2)
       | Thrown error =>
           setError (String.append "Error: " error) (setStatus Error st2)
       end.

(** The two effects that run when the component is mounted: the first
    read, and the default for the scheduled date, a text that the clock
    of the browser gives. *)
Definition mount (formattedDate : string) : option State :=
  setScheduledDate formattedDate <$> retrieveInformation [] initialState.

(** [handlePublish] and [handleScheduledPublish], once the promise of
    [doPublish] and what follows it have settled: the state, and the
    requests that the run sent. Each call of [setStatus] within
    [doPublish] sets [publishStatus]; the status that stays is the last
    one, and nothing is added to its list [errored] after it is passed
    on. *)
Definition handlePublish (st : State) : option (State * list Request) :=
  match information st with
  | None => Some (st, [])
  | Some information =>
      let st1 := setStatus Publishing st in
      let run :=
        doPublish_run Date_toISOString (sdk_publish sdk) information None in
      let st2 := foldl setPublishStatus st1 (statuses run) in
      if doPublish Date_toISOString (sdk_publish sdk) information None
      then st3 ← retrieveInformation (requests run) st2;
           Some (st3, requests run)
      else Some (st2, requests run)
  end.

Definition handleScheduledPublish (st : State)
    : option (State * list Request) :=
  match information st with
  | None => Some (st, [])
  | Some information =>
      if negb (truthy_string (Some (scheduledDate st))) then Some (st, [])
      else
        let st1 := setStatus Publishing st in
        let run :=
          doPublish_run Date_toISOString (sdk_publish sdk) information
            (Some (scheduledDate st)) in
        let st2 := foldl setPublishStatus st1 (statuses run) in
        if doPublish Date_toISOString (sdk_publish sdk) information
             (Some (scheduledDate st))
        then st3 ← retrieveInformation (requests run) st2;
             Some (st3, requests run)
        else Some (st2, requests run)
  end.

Definition toggleScheduleOptions (st : State) : State :=
  setShowScheduleOptions (negb (showScheduleOptions st)) st.

Definition handleRefresh (served : list Request) (st : State) : option State :=
  retrieveInformation served st.

End Handlers.

(** The tree that the component returns for a state. *)
Definition render (st : State) : View :=
  match status st with
  | Idle | Reading =>
      Loading
        (if (0 <? progress_total (progress st))%nat
         then Some (progress_processed (progress st),
                    progress_total (progress st))
         else None)
  | _ =>
      match
        match status st with
        | Publishing => publishStatus st
        | _ => None
        end
      with
      | Some publishStatus =>
          PublishingNote
            (if status_isScheduled publishStatus
             then Some (default "" (status_scheduledTime publishStatus))
             else None)
            (status_published publishStatus)
            (status_total publishStatus)
            (if (0 <? status_errors publishStatus)%nat
             then Some (status_errors publishStatus,
                        map erroredLink (status_errored publishStatus))
             else None)
      | None =>
          if truthy_string (error st) then ErrorNote (default "" (error st))
          else
            match information st with
            | Some information =>
                if publishNeeded information then
                  if showScheduleOptions st
                  then ScheduleOptions (scheduledDate st)
                         (negb (truthy_string (Some (scheduledDate st))))
                  else PublishActions
                         (if (0 <? publishNeedCount information)%nat
                          then Some (publishNeedCount information)
                          else None)
                else AllUpToDate
            | None => SomethingDidNotWork
            end
      end
  end.

End Sidebar.

(** ** The earlier revision of the component

    The file [src/locations/Sidebar.tsx] holds an earlier revision: it
    asks for the references of the current entry once, without following
    them, knows no scheduling, and publishes the current entry outside any
    [try] block. *)

Module Earlier.

(** What [sdk.cma.entry.references] resolves to: the collection [items],
    whose first element is the entry asked for, with the errors and the
    includes. *)
Record EntryReferences := {
  items : list EntryProps;
  references : EntryReferenceProps
}.

(** [buildReferenceInformation]. The check [isPublished] reads
    [references.items[0].sys], and so throws a TypeError when [items] is
    empty. The field [errors] of the result is the empty list when the
    response has none; the component reads [errorCount] only. *)
Definition buildReferenceInformation (response : EntryReferences)
    : Completion IReferenceInformation :=
  match items response with
  | [] => Thrown (TypeError "sys")
  | item :: _ =>
      let published := isPublished (entry_sys item) in
      let errors := default [] (references_errors (references response)) in
      let entries := includedEntries (references response) in
      let draftEntries := List.filter (fun e => isDraft (entry_sys e)) entries in
      let updatedEntries :=
        List.filter (fun e => isUpdated (entry_sys e)) entries in
      let assets := includedAssets (references response) in
      let draftAssets := List.filter (fun a => isDraft (asset_sys a)) assets in
      let updatedAssets :=
        List.filter (fun a => isUpdated (asset_sys a)) assets in
      Returned
        {| published := published;
           info_errors := errors;
           errorCount := length errors;
           entryCount := length entries;
           draftEntries := draftEntries;
           updatedEntries := updatedEntries;
           draftEntryCount := length draftEntries;
           updatedEntryCount := length updatedEntries;
           assetCount := length assets;
           draftAssets := draftAssets;
           updatedAssets := updatedAssets;
           draftAssetCount := length draftAssets;
           updatedAssetCount := length updatedAssets |}
  end.

(** [IPublishStatus] of the earlier revision. *)
Record IPublishStatus := {
  status_total : nat;
  status_published : nat;
  status_errors : nat;
  status_errored : list EntityMetaSysProps
}.

(** The mutable locals of [doPublish], the requests sent and the statuses
    passed to [setStatus], in order. *)
Record Publisher := {
  pub_published : nat;
  pub_errors : nat;
  pub_errored : list EntityMetaSysProps;
  requests : list Request;
  statuses : list IPublishStatus
}.

Section DoPublish.

Variable sdk : PublishSDK.
Variable information : IReferenceInformation.

Definition initialPublisher : Publisher :=
  {| pub_published := 0; pub_errors := 0; pub_errored := [];
     requests := []; statuses := [] |}.

(** The body of a [try] block with its [catch] block, for the request
    [r] that settled with [res], and the call of [setStatus] after
    them. *)
Definition settle (sys : EntityMetaSysProps) (r : Request)
    (res : Settled unit) (st : Publisher) : Publisher :=
  let published :=
    match res with
    | Fulfilled _ => S (pub_published st)
    | Rejected _ => pub_published st
    end in
  let errors :=
    match res with
    | Fulfilled _ => pub_errors st
    | Rejected _ => S (pub_errors st)
    end in
  let errored :=
    match res with
    | Fulfilled _ => pub_errored st
    | Rejected _ => pub_errored st ++ [sys]
    end in
  {| pub_published := published;
     pub_errors := errors;
     pub_errored := errored;
     requests := requests st ++ [r];
     statuses :=
       statuses st ++
       [ {| status_total := publishTotal information;
            status_published := published;
            status_errors := errors;
            status_errored := errored |} ] |}.

Definition publishAsset (st : Publisher) (asset : AssetProps) : Publisher :=
  let res :=
    cma_asset_publish sdk (requests st) (asset_id asset) (AssetEntity asset) in
  settle (asset_sys asset)
    (AssetPublish (asset_id asset) (AssetEntity asset) res) res st.

Definition publishEntry (st : Publisher) (entry : EntryProps) : Publisher :=
  let res :=
    cma_entry_publish sdk (requests st) (entry_id entry) (EntryEntity entry) in
  settle (entry_sys entry)
    (EntryPublish (entry_id entry) (EntryEntity entry) res) res st.

Definition dependenciesDone : Publisher :=
  foldl publishEntry
    (foldl publishAsset initialPublisher
       (draftAssets information ++ updatedAssets information))
    (draftEntries information ++ updatedEntries information).

(** [doPublish]: the state in which it ends, and the way it ends. The
    publication of the current entry is awaited outside any [try] block,
    so its rejection is the rejection of [doPublish]. *)
Definition doPublish : Publisher * Completion bool :=
  let st := dependenciesDone in
  if Nat.eqb (pub_errors st) 0 then
    let res := entry_publish sdk (requests st) in
    let st1 :=
      {| pub_published := pub_published st;
         pub_errors := pub_errors st;
         pub_errored := pub_errored st;
         requests := requests st ++ [CurrentEntryPublish res];
         statuses := statuses st |} in
    match res with
    | Fulfilled _ => (st1, Returned (Nat.eqb (pub_errors st1) 0))
    | Rejected e => (st1, Thrown e)
    end
  else (st, Returned (Nat.eqb (pub_errors st) 0)).

End DoPublish.

End Earlier.

(** A status of the earlier revision, as the later one passes it on in a
    run without scheduled time. *)
Definition laterStatus (s : Earlier.IPublishStatus) : IPublishStatus :=
  {| status_total := Earlier.status_total s;
     status_published := Earlier.status_published s;
     status_errors := Earlier.status_errors s;
     status_errored := Earlier.status_errored s;
     status_isScheduled := false;
     status_scheduledTime := None;
     status_scheduledActionIds := [] |}.

(** A state of the earlier [doPublish] and a state of the later one, run
    without scheduled time, that went the same way. *)
Record agrees (information : IReferenceInformation)
    (earlier : Earlier.Publisher) (later : Publisher) : Prop := {
  agr_published : Earlier.pub_published earlier = pub_published later;
  agr_errors : Earlier.pub_errors earlier = pub_errors later;
  agr_errored : Earlier.pub_errored earlier = pub_errored later;
  agr_requests : Earlier.requests earlier = requests later;
  agr_statuses :
    statuses later =
    statusOf information None (initialPublisher information None) ::
    map laterStatus (Earlier.statuses earlier);
  agr_actionIds : pub_scheduledActionIds later = []
}.

(** ** Concrete inputs: publish runs *)

(** A content repository that fulfils every request for a dependency and
    rejects the publication of the current entry. *)
Definition lockedRoot : PublishSDK :=
  {| cma_asset_publish := λ _ _ _, Fulfilled ();
     cma_entry_publish := λ _ _ _, Fulfilled ();
     cma_scheduledActions_create := λ _ _ _ _ entityId _,
       Fulfilled (Some {| action_sys :=
         Some {| action_id := String.append "action-" entityId |} |});
     entry_getSys := rootUndated;
     entry_publish := λ _, Rejected "ValidationFailed" |}.

(** The universe [pending], met in another order. *)
Definition pendingReversed : IAllReferences :=
  {| entries := [draftEntry "e2" "teaser"; draftEntry "e1" "hero"];
     assets := [draftAsset "a2"; draftAsset "a1"];
     errors := [];
     processedEntryIds := {["root"]} |}.

(** ** Concrete inputs: the sidebar *)

(** A draft root in a content repository that answers no request for
    references. *)
Definition draftRoot : EntityMetaSysProps := sysOf "root" Entry 1 None None.

Definition unreachable : SidebarAppSDK :=
  {| sdk_publish := repository [];
     sdk_references := λ _, ∅;
     sdk_getSys := λ _, draftRoot |}.

(** The information of the four pending dependencies, in a repository
    that rejects the publication of the current entry (and, for a second
    case, in one that fulfils every request). *)
Definition locked : SidebarAppSDK :=
  {| sdk_publish := lockedRoot;
     sdk_references := λ _, ∅;
     sdk_getSys := λ _, rootUndated |}.

Definition unlocked : SidebarAppSDK :=
  {| sdk_publish := repository [];
     sdk_references := λ _, ∅;
     sdk_getSys := λ _, rootUndated |}.

Definition informed : Sidebar.State :=
  Sidebar.setInformation pendingInformation
    (Sidebar.setStatus Complete Sidebar.initialState).

(** * Properties *)

(** ** Status classifier *)

Lemma lifecycle_Published_iff (sys : EntityMetaSysProps) :
  isPublished sys && negb (isUpdated sys) = true ↔
  lifecycleState sys = Published.
Proof.
  unfold isPublished, isUpdated, lifecycleState.
  destruct (sys_publishedVersion sys) as [[|pv]|]; simpl.
  - split; intros [=].
  - destruct (S (pv + 1) <? sys_version sys)%nat; simpl;
      split; (done || intros [=]).
  - split; intros [=].
Qed.

Lemma ltb_empty_r (s : string) : String.ltb s "" = false.
Proof. unfold String.ltb. by destruct s. Qed.

Lemma publishedAfter_spec (root dep : EntityMetaSysProps) :
  sys_publishedAt root ≠ Some "" →
  publishedAfter (sys_publishedAt root) dep = true ↔
  publishedLaterThan root dep.
Proof.
  intros Hwf. unfold publishedAfter, publishedLaterThan, string_gt.
  destruct (sys_publishedAt root) as [r|], (sys_publishedAt dep) as [d|];
    simpl.
  - split.
    + intros H. apply andb_true_iff in H as [_ H]. eauto.
    + intros (r' & d' & [= <-] & [= <-] & Hlt).
      rewrite Hlt, !andb_true_r.
      destruct (String.eqb_spec r "") as [->|_]; [done|].
      destruct (String.eqb_spec d "") as [->|_]; [|done].
      by rewrite ltb_empty_r in Hlt.
  - rewrite andb_false_r.
    split; [done | intros (? & ? & _ & [=] & _)].
  - split; [done | intros (? & ? & [=] & _)].
  - split; [done | intros (? & ? & [=] & _)].
Qed.

Lemma filter_nonempty_iff {A : Type} (f : A → bool) (l : list A) :
  (0 <? length (List.filter f l))%nat = true ↔ ∃ x, x ∈ l ∧ f x = true.
Proof.
  rewrite Nat.ltb_lt. split.
  - intros Hlen. destruct (List.filter f l) as [|x l'] eqn:E;
      [simpl in Hlen; lia|].
    assert (In x (List.filter f l)) as Hx by (rewrite E; by left).
    apply filter_In in Hx as [Hx Hf]. exists x.
    by rewrite list_elem_of_In.
  - intros (x & Hx & Hf).
    assert (In x (List.filter f l)) as Hin
      by (apply filter_In; by rewrite <- list_elem_of_In).
    destruct (List.filter f l); [done | simpl; lia].
Qed.

Lemma isOutOfDate_iff (publishedDate : option string) (u : IAllReferences) :
  isOutOfDate publishedDate u = true ↔
  ∃ dep, dep ∈ universe_sys u ∧ publishedAfter publishedDate dep = true.
Proof.
  unfold isOutOfDate, universe_sys.
  rewrite orb_true_iff, !filter_nonempty_iff. split.
  - intros [(a & Ha & Hf) | (e & He & Hf)].
    + exists (asset_sys a). split; [|done].
      apply elem_of_app. left. by apply list_elem_of_fmap_2.
    + exists (entry_sys e). split; [|done].
      apply elem_of_app. right. by apply list_elem_of_fmap_2.
  - intros (dep & Hdep & Hf).
    apply elem_of_app in Hdep as [Hdep | Hdep];
      apply list_elem_of_fmap in Hdep as (x & -> & Hx); eauto.
Qed.

(** C6. The classifier reports the root as published exactly when the
    root's own lifecycle state is Published and no snapshot of the universe,
    asset or entry, carries a publication timestamp strictly later than the
    root's. Timestamps are the repository's ISO-8601 texts, so the root's
    timestamp, when there is one, is not the empty text. *)
Theorem published_iff_Published_and_up_to_date
    (root : EntityMetaSysProps) (u : IAllReferences) :
  sys_publishedAt root ≠ Some "" →
  published (buildReferenceInformation root u) = true ↔
  lifecycleState root = Published ∧
  ∀ dep, dep ∈ universe_sys u → ¬ publishedLaterThan root dep.
Proof.
  intros Hwf. simpl.
  rewrite andb_true_iff, lifecycle_Published_iff, negb_true_iff.
  apply and_iff_compat_l.
  rewrite <- not_true_iff_false, isOutOfDate_iff. split.
  - intros Hno dep Hdep Hlater. apply Hno. exists dep. split; [done|].
    by apply publishedAfter_spec.
  - intros Hno (dep & Hdep & Hafter).
    apply (Hno dep Hdep). by apply publishedAfter_spec.
Qed.

(** The root was published at T=100 and one asset at T=150: the root is
    reported as not published, its own state being Published. *)
Lemma published_iff_Published_and_up_to_date_witness :
  lifecycleState root100 = Published ∧
  published (buildReferenceInformation root100 universe150) = false.
Proof.
  split; [reflexivity|].
  apply not_true_is_false. intros Hpub.
  apply (published_iff_Published_and_up_to_date root100 universe150)
    in Hpub as [_ Hnone]; [|discriminate].
  apply (Hnone (asset_sys asset150)).
  - apply list_elem_of_here.
  - exists "100", "150". repeat split; reflexivity.
Defined.

(** C10. A root without a publication timestamp is never out of date,
    whatever the universe holds: the classifier then reports it as
    published exactly when its own lifecycle state is Published. *)
Theorem unpublished_root_never_out_of_date
    (root : EntityMetaSysProps) (u : IAllReferences) :
  sys_publishedAt root = None →
  isOutOfDate (sys_publishedAt root) u = false ∧
  (published (buildReferenceInformation root u) = true ↔
   lifecycleState root = Published).
Proof.
  intros Hnone.
  assert (isOutOfDate (sys_publishedAt root) u = false) as Hfresh.
  { apply not_true_is_false. rewrite isOutOfDate_iff.
    intros (dep & _ & Hafter). by rewrite Hnone in Hafter. }
  split; [done|]. simpl.
  by rewrite Hfresh, andb_true_r, lifecycle_Published_iff.
Qed.

(** A root without timestamp, with the asset published at T=150 in its
    universe: not out of date, and reported as published. *)
Lemma unpublished_root_never_out_of_date_witness :
  isOutOfDate (sys_publishedAt rootUndated) universe150 = false ∧
  published (buildReferenceInformation rootUndated universe150) = true.
Proof.
  destruct (unpublished_root_never_out_of_date rootUndated universe150)
    as [Hfresh Hpub]; [reflexivity|].
  split; [exact Hfresh|]. apply Hpub. reflexivity.
Defined.

(** ** Publish orchestrator *)

Section DoPublishProperties.

Variable Date_toISOString : string → Completion string.
Variable sdk : PublishSDK.
Variable information : IReferenceInformation.

Abbreviation sends := (sendsRequests Date_toISOString).
Abbreviation item := (publishItem Date_toISOString sdk information).
Abbreviation failed := (failures Date_toISOString).
Abbreviation adds := (extends Date_toISOString).

(** The three ways a run treats its items: immediate publication, the
    creation of scheduled actions, or no request at all because the
    scheduled time is no date. *)
Lemma mode_cases (scheduledTime : option string) :
  (isScheduled scheduledTime = false ∧ sends scheduledTime = true) ∨
  (∃ t datetime, scheduledTime = Some t ∧ truthy_string (Some t) = true ∧
     Date_toISOString t = Returned datetime ∧
     isScheduled scheduledTime = true ∧ sends scheduledTime = true) ∨
  (∃ t e, scheduledTime = Some t ∧ truthy_string (Some t) = true ∧
     Date_toISOString t = Thrown e ∧
     isScheduled scheduledTime = true ∧ sends scheduledTime = false).
Proof.
  unfold sendsRequests, isScheduled.
  destruct scheduledTime as [t|]; [|by left].
  destruct (truthy_string (Some t)) eqn:Htruthy; [|by left].
  destruct (Date_toISOString t) as [datetime|e] eqn:Hdate.
  - right; left. by exists t, datetime.
  - right; right. by exists t, e.
Qed.

Ltac extends_fields Hsends Hmode :=
  split; unfold failures, requestFor; rewrite ?Hsends, ?Hmode; simpl;
  try match goal with H : createdActionId _ = _ |- _ => rewrite ?H end;
  rewrite ?app_nil_r, ?length_app; simpl;
  first [ reflexivity | lia
        | by repeat first [apply Forall2_cons | apply Forall2_nil | split] ].

Lemma publishItem_extends scheduledTime kind sys entity st :
  ∃ rs, adds scheduledTime kind [sys] st
          (item scheduledTime kind sys entity st) rs.
Proof.
  unfold publishItem.
  destruct (mode_cases scheduledTime)
    as [[Hmode Hsends]
       |[(t & datetime & -> & Htruthy & Hdate & Hmode & Hsends)
        |(t & e & -> & Htruthy & Hdate & Hmode & Hsends)]];
    rewrite Hmode.
  - unfold publishImmediately. destruct kind.
    + destruct (cma_entry_publish sdk (requests st) (sys_id sys) entity)
        as [[]|e].
      * exists [EntryPublish (sys_id sys) entity (Fulfilled ())].
        extends_fields Hsends Hmode.
      * exists [EntryPublish (sys_id sys) entity (Rejected e)].
        extends_fields Hsends Hmode.
    + destruct (cma_asset_publish sdk (requests st) (sys_id sys) entity)
        as [[]|e].
      * exists [AssetPublish (sys_id sys) entity (Fulfilled ())].
        extends_fields Hsends Hmode.
      * exists [AssetPublish (sys_id sys) entity (Rejected e)].
        extends_fields Hsends Hmode.
  - unfold schedulePublish. rewrite Htruthy, Hdate.
    destruct (cma_scheduledActions_create sdk (requests st) (sys_space sys)
                (sys_environment sys) kind (sys_id sys) datetime)
      as [action|e].
    + exists [ScheduledActionsCreate (sys_space sys) (sys_environment sys)
                kind (sys_id sys) datetime (Fulfilled action)].
      destruct (createdActionId action) as [actionId|] eqn:Hid;
        extends_fields Hsends Hmode.
    + exists [ScheduledActionsCreate (sys_space sys) (sys_environment sys)
                kind (sys_id sys) datetime (Rejected e)].
      extends_fields Hsends Hmode.
  - unfold schedulePublish. rewrite Htruthy, Hdate.
    exists []. extends_fields Hsends Hmode.
Qed.

Lemma extends_nil scheduledTime kind st :
  adds scheduledTime kind [] st st [].
Proof.
  split; unfold failures; simpl; rewrite ?app_nil_r; try done.
  - destruct (sends scheduledTime); constructor.
  - destruct (sends scheduledTime); simpl; lia.
  - destruct (sends scheduledTime); simpl; lia.
Qed.

Lemma failures_app scheduledTime n1 n2 rs1 rs2 :
  failed scheduledTime (n1 + n2) (rs1 ++ rs2) =
  failed scheduledTime n1 rs1 + failed scheduledTime n2 rs2.
Proof.
  unfold failures. destruct (sends scheduledTime); [|done].
  by rewrite List.filter_app, length_app.
Qed.

Lemma extends_app scheduledTime kind l1 l2 st st1 st2 rs1 rs2 :
  adds scheduledTime kind l1 st st1 rs1 →
  adds scheduledTime kind l2 st1 st2 rs2 →
  adds scheduledTime kind (l1 ++ l2) st st2 (rs1 ++ rs2).
Proof.
  intros [Hr1 Hf1 He1 Hp1 Hl1 Ha1] [Hr2 Hf2 He2 Hp2 Hl2 Ha2].
  split; rewrite ?length_app, ?failures_app.
  - by rewrite Hr2, Hr1, app_assoc.
  - destruct (sends scheduledTime); [by apply Forall2_app|].
    inversion Hf1; inversion Hf2; subst; constructor.
  - lia.
  - lia.
  - lia.
  - by rewrite Ha2, Ha1, omap_app, app_assoc.
Qed.

(** A loop over items of one kind. *)
Lemma publishItems_extends {A : Type} scheduledTime kind
    (sysOf : A → EntityMetaSysProps) (entityOf : A → Entity)
    (items : list A) (st : Publisher) :
  ∃ rs, adds scheduledTime kind (map sysOf items) st
          (foldl (λ st x, item scheduledTime kind (sysOf x)
                            (entityOf x) st) st items) rs.
Proof.
  revert st. induction items as [|x items IH]; intros st; simpl.
  - exists []. apply extends_nil.
  - destruct (publishItem_extends scheduledTime kind (sysOf x) (entityOf x) st)
      as [rs1 H1].
    destruct (IH (item scheduledTime kind (sysOf x) (entityOf x) st))
      as [rs2 H2].
    exists (rs1 ++ rs2).
    change (sysOf x :: map sysOf items) with ([sysOf x] ++ map sysOf items).
    eapply extends_app; eassumption.
Qed.

(** The step for the main entry. *)
Lemma publishMain_extends scheduledTime st :
  let st' := publishMain Date_toISOString sdk scheduledTime st in
  ∃ rm,
    requests st' = requests st ++ rm ∧
    Forall (isMainRequest sdk) rm ∧
    Forall (λ r, isImmediatePublish r = negb (isScheduled scheduledTime)) rm ∧
    length rm = (if sends scheduledTime then 1 else 0) ∧
    pub_errors st' = pub_errors st + failed scheduledTime 1 rm ∧
    pub_scheduledActionIds st' =
      pub_scheduledActionIds st ++ omap keptActionId rm.
Proof.
  unfold publishMain, failures.
  destruct (mode_cases scheduledTime)
    as [[Hmode Hsends]
       |[(t & datetime & -> & Htruthy & Hdate & Hmode & Hsends)
        |(t & e & -> & Htruthy & Hdate & Hmode & Hsends)]];
    rewrite Hmode, Hsends.
  - simpl. destruct (entry_publish sdk (requests st)) as [[]|e]; simpl.
    + exists [CurrentEntryPublish (Fulfilled ())]. simpl.
      rewrite app_nil_r. repeat split; try done; try lia;
        by repeat constructor.
    + exists [CurrentEntryPublish (Rejected e)]. simpl.
      rewrite app_nil_r. repeat split; try done; try lia;
        by repeat constructor.
  - rewrite Htruthy. unfold schedulePublish. rewrite Htruthy, Hdate.
    set (entrySys := entry_getSys sdk).
    destruct (cma_scheduledActions_create sdk (requests st)
                (sys_space entrySys) (sys_environment entrySys) Entry
                (sys_id entrySys) datetime) as [action|e].
    + exists [ScheduledActionsCreate (sys_space entrySys)
                (sys_environment entrySys) Entry (sys_id entrySys) datetime
                (Fulfilled action)].
      destruct (createdActionId action) as [actionId|] eqn:Hid; simpl;
        rewrite ?Hid, ?app_nil_r; repeat split; try done; try lia;
        by repeat constructor.
    + exists [ScheduledActionsCreate (sys_space entrySys)
                (sys_environment entrySys) Entry (sys_id entrySys) datetime
                (Rejected e)].
      simpl. rewrite ?app_nil_r. repeat split; try done; try lia;
        by repeat constructor.
  - rewrite Htruthy. unfold schedulePublish. rewrite Htruthy, Hdate.
    exists []. simpl. rewrite ?app_nil_r. repeat split; try done; lia.
Qed.

(** The state after the dependencies: one request per asset, then one per
    entry, and the counters that go with them. *)
Lemma dependenciesDone_extends scheduledTime :
  let deps := dependenciesDone Date_toISOString sdk information scheduledTime in
  let assets := draftAssets information ++ updatedAssets information in
  let entries := draftEntries information ++ updatedEntries information in
  ∃ ra re,
    requests deps = ra ++ re ∧
    Forall2 (λ sys r, requestFor scheduledTime Asset (sys_id sys) r)
      (if sends scheduledTime then map asset_sys assets else []) ra ∧
    Forall2 (λ sys r, requestFor scheduledTime Entry (sys_id sys) r)
      (if sends scheduledTime then map entry_sys entries else []) re ∧
    pub_errors deps =
      failed scheduledTime (length assets) ra +
      failed scheduledTime (length entries) re ∧
    pub_published deps + pub_errors deps = publishTotal information ∧
    length (pub_errored deps) = pub_errors deps ∧
    pub_scheduledActionIds deps = omap keptActionId (ra ++ re).
Proof.
  intros deps assets entries.
  destruct (publishItems_extends scheduledTime Asset asset_sys AssetEntity
              assets (initialPublisher information scheduledTime))
    as [ra [Hr1 Hf1 He1 Hp1 Hl1 Ha1]].
  destruct (publishItems_extends scheduledTime Entry entry_sys EntryEntity
              entries
              (publishAssets Date_toISOString sdk information scheduledTime
                 (initialPublisher information scheduledTime)))
    as [re [Hr2 Hf2 He2 Hp2 Hl2 Ha2]].
  rewrite !length_map in *.
  change (foldl _ _ assets) with
    (publishAssets Date_toISOString sdk information scheduledTime
       (initialPublisher information scheduledTime)) in *.
  change (foldl _ _ entries) with deps in *.
  exists ra, re. simpl in *.
  split; [by rewrite Hr2, Hr1|].
  split; [done|]. split; [done|].
  split; [lia|].
  split. { unfold publishTotal. subst assets entries.
           rewrite !length_app in *. lia. }
  split; [lia|].
  by rewrite Ha2, Ha1, omap_app.
Qed.

Lemma Forall2_right {A B : Type} (P : A → B → Prop) (Q : B → Prop)
    (l : list A) (k : list B) :
  (∀ x y, P x y → Q y) → Forall2 P l k → Forall Q k.
Proof. intros HPQ. induction 1; constructor; eauto. Qed.



Lemma keptActionId_returned (r : Request) :
  returnedActionId r ≠ Some "" → keptActionId r = returnedActionId r.
Proof.
  destruct r as [| |? ? ? ? ? [[[[[id]|]]|]|]|]; simpl; try done.
  destruct (String.eqb_spec id "") as [->|]; simpl; done.
Qed.

(** C9. A run with a scheduled time sends no immediate publish request,
    for no dependency and not for the main entry: every request creates
    a scheduled action. The ids recorded in [scheduledActionIds] are the
    ids of the actions that the fulfilled requests brought back, in
    order, the content repository never naming an action by the empty
    text. *)
Theorem scheduled_run_only_schedules (time : string) :
  time ≠ "" →
  Forall (λ r, returnedActionId r ≠ Some "")
    (requests (doPublish_run Date_toISOString sdk information (Some time))) →
  Forall (λ r, isImmediatePublish r = false)
    (requests (doPublish_run Date_toISOString sdk information (Some time))) ∧
  pub_scheduledActionIds
    (doPublish_run Date_toISOString sdk information (Some time)) =
  omap returnedActionId
    (requests (doPublish_run Date_toISOString sdk information (Some time))).
Proof.
  intros Htime Hids.
  set (run := doPublish_run Date_toISOString sdk information (Some time)) in *.
  assert (isScheduled (Some time) = true) as Hmode.
  { unfold isScheduled; simpl.
    by destruct (String.eqb_spec time "") as [->|]. }
  destruct (dependenciesDone_extends (Some time))
    as (ra & re & Hreq & Hfa & Hfe & _ & _ & _ & Hkept).
  assert (∀ kind (sys : EntityMetaSysProps) r,
            requestFor (Some time) kind (sys_id sys) r →
            isImmediatePublish r = false) as Hsched.
  { intros kind sys r (_ & _ & Hr). by rewrite Hmode in Hr. }
  assert (Forall (λ r, isImmediatePublish r = false) (ra ++ re)) as Hdeps.
  { apply Forall_app.
    split; (eapply Forall2_right; [|eassumption]);
      intros sys r; apply Hsched. }
  assert (∀ rs, Forall (λ r, returnedActionId r ≠ Some "") rs →
                omap keptActionId rs = omap returnedActionId rs) as Hsame.
  { induction 1 as [|r rs Hr _ IH]; [done|].
    cbn [omap list_omap]. by rewrite (keptActionId_returned r Hr), IH. }
  revert Hids. unfold run, doPublish_run.
  destruct (Nat.eqb _ 0).
  - destruct (publishMain_extends (Some time)
                (dependenciesDone Date_toISOString sdk information
                   (Some time)))
      as (rm & Hmreq & _ & Hmsched & _ & _ & Hmkept).
    simpl in Hmreq, Hmkept. rewrite Hmreq, Hmkept, Hkept, Hreq.
    rewrite Hmode in Hmsched. intros Hids. split.
    + apply Forall_app. by split.
    + by rewrite <- omap_app, (Hsame _ Hids).
  - rewrite Hkept, Hreq. intros Hids. split; [done|]. by apply Hsame.
Qed.

End DoPublishProperties.


(** Two draft assets, two draft entries and no failure: both asset requests
    come before either entry request, and the request for the main entry
    comes last. *)
Example two_assets_two_entries_in_order :
  requests (doPublish_run toISOString (repository []) pendingInformation None) =
  [ AssetPublish "a1" (AssetEntity (draftAsset "a1")) (Fulfilled ());
    AssetPublish "a2" (AssetEntity (draftAsset "a2")) (Fulfilled ());
    EntryPublish "e1" (EntryEntity (draftEntry "e1" "hero")) (Fulfilled ());
    EntryPublish "e2" (EntryEntity (draftEntry "e2" "teaser")) (Fulfilled ());
    CurrentEntryPublish (Fulfilled ()) ] ∧
  doPublish toISOString (repository []) pendingInformation None = true.
Proof. split; reflexivity. Qed.

(** One of the two draft entries fails: no request follows the dependency
    requests. *)
Example failing_entry_run :
  map rejected
    (requests (doPublish_run toISOString (repository ["e2"])
                 pendingInformation None)) =
  [false; false; false; true].
Proof. reflexivity. Qed.

(** A scheduled run whose time is no date: every item fails before any
    request is sent, and the main entry is left alone. *)
Example no_date_run :
  (λ run, (requests run, pub_published run, pub_errors run,
           map sys_id (pub_errored run)))
    (doPublish_run toISOString (repository []) pendingInformation
       (Some "soon")) =
  ([], 0, 4, ["a1"; "a2"; "e1"; "e2"]).
Proof. reflexivity. Qed.

(** A scheduled run without failure: five scheduled actions, no immediate
    publication, and the five action ids recorded in order. *)
Lemma scheduled_run_only_schedules_witness :
  Forall (λ r, isImmediatePublish r = false)
    (requests (doPublish_run toISOString (repository []) pendingInformation
                 (Some "2030-01-01T10:00"))) ∧
  pub_scheduledActionIds
    (doPublish_run toISOString (repository []) pendingInformation
       (Some "2030-01-01T10:00")) =
  ["action-a1"; "action-a2"; "action-e1"; "action-e2"; "action-root"].
Proof.
  apply (scheduled_run_only_schedules toISOString (repository [])
           pendingInformation "2030-01-01T10:00").
  - discriminate.
  - vm_compute. repeat constructor; discriminate.
Defined.

(** ** Reference collector *)

(** *** The event log *)

Lemma fetches_app (evs evs' : list Event) :
  fetches (evs ++ evs') = fetches evs ++ fetches evs'.
Proof. apply omap_app. Qed.

Lemma reports_app (evs evs' : list Event) :
  reports (evs ++ evs') = reports evs ++ reports evs'.
Proof. apply omap_app. Qed.

Lemma nondecreasing_snoc (rs : list (nat * nat)) (r : nat * nat) :
  nondecreasing rs →
  Forall (λ a, a.1 ≤ r.1 ∧ a.2 ≤ r.2) rs →
  nondecreasing (rs ++ [r]).
Proof.
  intros Hrs Hle i j a b Hij Ha Hb.
  destruct (decide (j < length rs)) as [Hj|Hj].
  - rewrite lookup_app_l in Ha, Hb by lia. eauto.
  - assert (b = r) as ->.
    { rewrite lookup_app_r in Hb by lia.
      apply list_lookup_singleton_Some in Hb. by destruct Hb. }
    destruct (decide (i < length rs)) as [Hi|Hi].
    + rewrite lookup_app_l in Ha by lia.
      rewrite Forall_lookup in Hle. eauto.
    + rewrite lookup_app_r in Ha by lia.
      apply list_lookup_singleton_Some in Ha as [_ <-]. done.
Qed.

Lemma last_cons_snoc {A : Type} (x y : A) (l : list A) :
  last (x :: l ++ [y]) = Some y.
Proof. by rewrite app_comm_cons, last_snoc. Qed.

(** *** The steps of an iteration keep the invariant *)

(** Projections of the state after a step. *)
Ltac fields :=
  cbn [allReferences entriesToProcess entriesQueued trackedEntryIds
       trackedAssetIds processed total events entries assets errors
       processedEntryIds initial emit setProgress shift markProcessed
       countProcessed pushErrors pushAsset pushEntry enqueue catchBlock
       fst snd] in *.

(** Split a conjunction into its parts. *)
Ltac splits := repeat match goal with |- _ ∧ _ => split end.

(** The parts of the invariant, under fixed names. *)
Ltac inv_fields H :=
  pose proof (inv_entries_nodup _ _ _ H) as Hen;
  pose proof (inv_entries_tracked _ _ _ H) as Het;
  pose proof (inv_assets_nodup _ _ _ H) as Han;
  pose proof (inv_assets_tracked _ _ _ H) as Hat;
  pose proof (inv_fetches_nodup _ _ _ H) as Hfn;
  pose proof (inv_fetches _ _ _ H) as Hf;
  pose proof (inv_total _ _ _ H) as Ht;
  pose proof (inv_queue_nodup _ _ _ H) as Hqn;
  pose proof (inv_queued _ _ _ H) as Hq;
  pose proof (inv_queue_fresh _ _ _ H) as Hqf;
  pose proof (inv_reach _ _ _ H) as Hrch;
  pose proof (inv_parent _ _ _ H) as Hpar;
  pose proof (inv_entries_from _ _ _ H) as Hef;
  pose proof (inv_assets_from _ _ _ H) as Haf;
  pose proof (inv_errors _ _ _ H) as Herrs;
  pose proof (inv_reports_bound _ _ _ H) as Hrb;
  pose proof (inv_reports_sorted _ _ _ H) as Hrs;
  pose proof (inv_last_report _ _ _ H) as Hlr;
  pose proof (inv_root _ _ _ H) as Hroot;
  clear H.

Section Steps.

Variable sdk : ReferenceStore.
Variable root : string.

Lemma initial_Inv : Inv sdk root (initial root).
Proof.
  split; fields; try done; try apply NoDup_nil_2.
  - intros i. simpl. by rewrite elem_of_empty, elem_of_nil.
  - intros i. simpl. by rewrite elem_of_empty, elem_of_nil.
  - intros i. simpl. by rewrite elem_of_empty, elem_of_nil.
  - by rewrite size_singleton.
  - apply NoDup_singleton.
  - intros i. rewrite elem_of_singleton, list_elem_of_singleton.
    split; [by right | by intros [?%elem_of_empty|]].
  - intros i ->%elem_of_singleton. done.
  - intros i ->%elem_of_singleton. by left.
  - intros ? ?%elem_of_nil. done.
  - intros ? ?%elem_of_nil. done.
  - by apply elem_of_singleton.
Qed.

(** The entry at the head of the queue is marked and requested. *)
Lemma visit_Inv (cur : string) (rest : list string) (st : Collector) :
  Inv sdk root st →
  entriesToProcess st = cur :: rest →
  (∀ e, cma_entry_references sdk cur = Rejected e →
        fetchError cur e ∈ errors (allReferences st)) →
  Inv sdk root (emit (Fetch cur) (markProcessed cur (shift rest st))).
Proof.
  intros HInv Hqueue Herr. inv_fields HInv.
  rewrite Hqueue in *.
  assert (cur ∉ processedEntryIds (allReferences st)) as Hfresh
    by (apply Hqf; left).
  apply NoDup_cons in Hqn as [Hcur Hrest].
  split; fields; rewrite ?fetches_app, ?reports_app, ?app_nil_r;
    try done; simpl.
  - apply NoDup_app. split; [done|]. split; [|apply NoDup_singleton].
    intros i Hi ->%list_elem_of_singleton. by apply Hfresh, Hf.
  - intros i. rewrite elem_of_union, elem_of_app, elem_of_singleton,
      list_elem_of_singleton. by rewrite Hf.
  - intros i. rewrite Hq, elem_of_union, elem_of_singleton,
      elem_of_cons. tauto.
  - intros i Hi. rewrite elem_of_union, elem_of_singleton.
    intros [Hp | ->]; [|done]. eapply Hqf; [|done]. by right.
  - intros i Hi. destruct (Hpar i Hi) as [|(p & Hp & Hl)]; [by left|].
    right. exists p. split; [|done]. apply elem_of_union. by left.
  - intros entry He. destruct (Hef entry He) as (p & Hp & Hl).
    exists p. split; [|done]. apply elem_of_union. by left.
  - intros asset Ha. destruct (Haf asset Ha) as (p & Hp & Hl).
    exists p. split; [|done]. apply elem_of_union. by left.
  - intros i e. rewrite elem_of_union, elem_of_singleton.
    intros [Hp | ->]; [by apply Herrs | apply Herr].
Qed.

(** [processed++; setProgress(...)]. *)
Lemma countProcessed_Inv (st : Collector) :
  Inv sdk root st → Inv sdk root (setProgress (countProcessed st)).
Proof.
  intros HInv. inv_fields HInv.
  split; fields; rewrite ?fetches_app, ?reports_app, ?app_nil_r;
    try done; simpl.
  - apply Forall_app. split; [|by repeat constructor].
    eapply Forall_impl; [done|]. simpl. intros ? [? ?]. split; lia.
  - apply nondecreasing_snoc; [done|].
    eapply Forall_impl; [done|]. simpl. intros ? [? ?]. split; lia.
  - apply last_cons_snoc.
Qed.

(** [allReferences.errors.push(...)]. *)
Lemma pushErrors_Inv (errs : list EntryReferenceError) (st : Collector) :
  Inv sdk root st → Inv sdk root (pushErrors errs st).
Proof.
  intros HInv. inv_fields HInv. split; fields; try done.
  intros i e Hi Hrej. apply elem_of_app. left. by apply Herrs.
Qed.

(** The [catch] block. *)
Lemma catchBlock_Inv (cur : string) (e : JsError) (st : Collector) :
  Inv sdk root st → Inv sdk root (catchBlock cur e st).
Proof. intros H. by apply countProcessed_Inv, pushErrors_Inv. Qed.

(** A new asset is added to the collection. *)
Lemma pushAsset_Inv (asset : AssetProps) (st : Collector) :
  Inv sdk root st →
  asset_id asset ∉ trackedAssetIds st →
  (∃ p, p ∈ processedEntryIds (allReferences st) ∧ listsAsset sdk p asset) →
  Inv sdk root (pushAsset asset st).
Proof.
  intros HInv Hnew Hfrom. inv_fields HInv. split; fields; try done.
  - rewrite map_app. simpl. apply NoDup_app. split; [done|].
    split; [|apply NoDup_singleton].
    intros i Hi ->%list_elem_of_singleton. by apply Hnew, Hat.
  - intros i. rewrite map_app, elem_of_union, elem_of_app. simpl.
    by rewrite Hat, elem_of_singleton, list_elem_of_singleton.
  - intros a [Ha | ->%list_elem_of_singleton]%elem_of_app; eauto.
Qed.

(** A new entry is added to the collection. *)
Lemma pushEntry_Inv (entry : EntryProps) (st : Collector) :
  Inv sdk root st →
  entry_id entry ∉ trackedEntryIds st →
  (∃ p, p ∈ processedEntryIds (allReferences st) ∧ listsEntry sdk p entry) →
  Inv sdk root (pushEntry entry st).
Proof.
  intros HInv Hnew Hfrom. inv_fields HInv. split; fields; try done.
  - rewrite map_app. simpl. apply NoDup_app. split; [done|].
    split; [|apply NoDup_singleton].
    intros i Hi ->%list_elem_of_singleton. by apply Hnew, Het.
  - intros i. rewrite map_app, elem_of_union, elem_of_app. simpl.
    by rewrite Het, elem_of_singleton,
      list_elem_of_singleton.
  - intros a [Ha | ->%list_elem_of_singleton]%elem_of_app; eauto.
Qed.

(** An id is queued for the first time, and the new total reported. *)
Lemma enqueue_Inv (i : string) (st : Collector) :
  Inv sdk root st →
  i ∉ entriesQueued st →
  (∃ p, p ∈ processedEntryIds (allReferences st) ∧ links sdk p i) →
  Inv sdk root (setProgress (enqueue i st)).
Proof.
  intros HInv Hnew (p & Hp & Hlink). inv_fields HInv.
  split; fields; rewrite ?fetches_app, ?reports_app, ?app_nil_r;
    try done; simpl.
  - rewrite size_union, size_singleton by (by apply disjoint_singleton_r).
    lia.
  - apply NoDup_app. split; [done|]. split; [|apply NoDup_singleton].
    intros j Hj ->%list_elem_of_singleton. apply Hnew, Hq. by right.
  - intros j. rewrite elem_of_union, elem_of_app, elem_of_singleton,
      list_elem_of_singleton, Hq. tauto.
  - intros j [Hj | ->%list_elem_of_singleton]%elem_of_app; [eauto|].
    intros Hj. apply Hnew, Hq. by left.
  - intros j [Hj | ->%elem_of_singleton]%elem_of_union; [eauto|].
    eapply rtc_r; [|done]. apply Hrch, Hq. by left.
  - intros j [Hj | ->%elem_of_singleton]%elem_of_union; eauto.
  - apply Forall_app. split; [|by repeat constructor].
    eapply Forall_impl; [done|]. simpl. intros ? [? ?]. split; lia.
  - apply nondecreasing_snoc; [done|].
    eapply Forall_impl; [done|]. simpl. intros ? [? ?]. split; lia.
  - apply last_cons_snoc.
  - apply elem_of_union. by left.
Qed.

Lemma steady_refl (st : Collector) : steady st st.
Proof. by split. Qed.

Lemma steady_trans (st1 st2 st3 : Collector) :
  steady st1 st2 → steady st2 st3 → steady st1 st3.
Proof.
  intros [] []. split; try congruence; by etrans.
Qed.

Lemma Counted_report (st : Collector) :
  Inv sdk root (setProgress st) → Counted st → Counted (setProgress st).
Proof.
  intros HInv [Hcount Hreports]. split; fields; [done|].
  rewrite reports_app. apply Forall_app. split; [done|].
  repeat constructor. simpl. rewrite Hcount.
  pose proof (inv_total _ _ _ HInv) as Htotal.
  pose proof (inv_queued _ _ _ HInv) as Hqueued.
  fields. rewrite Htotal. apply subseteq_size.
  intros i Hi. apply Hqueued. by left.
Qed.

(** The body of the loop over the assets of the response to [cur]. *)
Lemma processAsset_spec (cur : string) (asset : AssetProps) (st : Collector) :
  Inv sdk root st →
  cur ∈ processedEntryIds (allReferences st) →
  listsAsset sdk cur asset →
  let st' := (processAsset asset st).1 in
  Inv sdk root st' ∧ steady st st' ∧ (Counted st → Counted st') ∧
  (describeAsset asset = Returned () →
   (processAsset asset st).2 = Returned () ∧
   asset_id asset ∈ trackedAssetIds st').
Proof.
  intros HInv Hcur Hlists. unfold processAsset.
  destruct (describeAsset asset) as [[]|err] eqn:Hdescribed; simpl.
  2: { splits; try done; try apply steady_refl. }
  destruct (decide (asset_id asset ∈ trackedAssetIds st)) as [Hin|Hnew].
  - splits; try done; try apply steady_refl.
  - split; [apply pushAsset_Inv; eauto|].
    split; [split; fields; try done; set_solver|].
    split; [by intros []|]. intros _. split; [done|]. fields. set_solver.
Qed.

Lemma processAssets_spec (cur : string) (l : list AssetProps) (st : Collector) :
  Inv sdk root st →
  cur ∈ processedEntryIds (allReferences st) →
  (∀ asset, asset ∈ l → listsAsset sdk cur asset) →
  let st' := (forEach processAsset l st).1 in
  Inv sdk root st' ∧ steady st st' ∧ (Counted st → Counted st') ∧
  ((∀ asset, asset ∈ l → describeAsset asset = Returned ()) →
   (forEach processAsset l st).2 = Returned () ∧
   ∀ asset, asset ∈ l → asset_id asset ∈ trackedAssetIds st').
Proof.
  revert st. induction l as [|a l IH]; intros st HInv Hcur Hlists; simpl.
  { splits; try done; try apply steady_refl.
    intros _. split; [done|]. by intros ? ?%elem_of_nil. }
  destruct (processAsset_spec cur a st HInv Hcur) as (H1 & H2 & H3 & H4).
  { apply Hlists. by left. }
  destruct (processAsset a st) as [st1 [[]|err]] eqn:Hstep; simpl in *.
  - destruct (IH st1 H1) as (H1' & H2' & H3' & H4').
    { by rewrite (std_processedIds _ _ H2). }
    { intros ? ?. apply Hlists. by right. }
    split; [done|]. split; [by eapply steady_trans|].
    split; [by auto|].
    intros Htitles.
    destruct H4 as (_ & Htracked); [apply Htitles; by left|].
    destruct H4' as (Hret & Hall); [intros ? ?; apply Htitles; by right|].
    split; [done|].
    intros asset [->|Hin]%elem_of_cons; [|by auto].
    by apply (std_assets _ _ H2').
  - splits; try done. intros Htitles.
    destruct H4 as ([=] & _). apply Htitles. by left.
Qed.

(** The body of the loop over the entries of the response to [cur]. *)
Lemma processEntry_spec (cur : string) (entry : EntryProps) (st : Collector) :
  Inv sdk root st →
  cur ∈ processedEntryIds (allReferences st) →
  listsEntry sdk cur entry →
  let st' := (processEntry entry st).1 in
  Inv sdk root st' ∧ steady st st' ∧ (Counted st → Counted st') ∧
  (describeEntry entry = Returned () →
   (processEntry entry st).2 = Returned () ∧
   entry_id entry ∈ trackedEntryIds st' ∧
   (excluded (entry_contentType entry) = false →
    entry_id entry ∈ entriesQueued st')).
Proof.
  intros HInv Hcur Hlists. unfold processEntry.
  destruct (describeEntry entry) as [[]|err] eqn:Hdescribed; simpl.
  2: { splits; try done; try apply steady_refl. }
  set (st1 := if decide (entry_id entry ∈ trackedEntryIds st) then st
              else pushEntry entry st).
  assert (Inv sdk root st1 ∧ steady st st1 ∧ (Counted st → Counted st1) ∧
          entry_id entry ∈ trackedEntryIds st1) as (H1 & H2 & H3 & H4).
  { unfold st1.
    destruct (decide (entry_id entry ∈ trackedEntryIds st)) as [Hin|Hnew].
    - splits; try done; try apply steady_refl.
    - split; [apply pushEntry_Inv; eauto|].
      split; [split; fields; try done; set_solver|].
      split; [by intros []|]. fields. set_solver. }
  destruct (excluded (entry_contentType entry)) eqn:Hexcl; simpl.
  { splits; try done. }
  destruct (bool_decide (entry_id entry ∈ entriesQueued st1)) eqn:Hq; simpl.
  { apply bool_decide_eq_true in Hq. splits; try done; apply H2. }
  apply bool_decide_eq_false in Hq.
  assert (Inv sdk root (setProgress (enqueue (entry_id entry) st1))) as H5.
  { apply enqueue_Inv; [done..|]. exists cur.
    split; [by rewrite (std_processedIds _ _ H2)|].
    destruct Hlists as (references & Hlookup & Hin).
    exists references, entry. by rewrite Hexcl. }
  split; [done|].
  split.
  { eapply steady_trans; [done|]. split; fields; try done; set_solver. }
  split.
  { intros Hc. apply Counted_report; [done|].
    destruct (H3 Hc). by split. }
  intros _. fields. split; [done|]. split; [done|]. set_solver.
Qed.

Lemma processEntries_spec (cur : string) (l : list EntryProps)
    (st : Collector) :
  Inv sdk root st →
  cur ∈ processedEntryIds (allReferences st) →
  (∀ entry, entry ∈ l → listsEntry sdk cur entry) →
  let st' := (forEach processEntry l st).1 in
  Inv sdk root st' ∧ steady st st' ∧ (Counted st → Counted st') ∧
  ((∀ entry, entry ∈ l → describeEntry entry = Returned ()) →
   (forEach processEntry l st).2 = Returned () ∧
   ∀ entry, entry ∈ l →
     entry_id entry ∈ trackedEntryIds st' ∧
     (excluded (entry_contentType entry) = false →
      entry_id entry ∈ entriesQueued st')).
Proof.
  revert st. induction l as [|e l IH]; intros st HInv Hcur Hlists; simpl.
  { splits; try done; try apply steady_refl.
    intros _. split; [done|]. by intros ? ?%elem_of_nil. }
  destruct (processEntry_spec cur e st HInv Hcur) as (H1 & H2 & H3 & H4).
  { apply Hlists. by left. }
  destruct (processEntry e st) as [st1 [[]|err]] eqn:Hstep; simpl in *.
  - destruct (IH st1 H1) as (H1' & H2' & H3' & H4').
    { by rewrite (std_processedIds _ _ H2). }
    { intros ? ?. apply Hlists. by right. }
    split; [done|]. split; [by eapply steady_trans|].
    split; [by auto|].
    intros Hfields.
    destruct H4 as (_ & Htracked & Hqueued); [apply Hfields; by left|].
    destruct H4' as (Hret & Hall); [intros ? ?; apply Hfields; by right|].
    split; [done|].
    intros entry [->|Hin]%elem_of_cons; [|by auto].
    split; [by apply (std_entries _ _ H2')|].
    intros Hexcl. by apply (std_queued _ _ H2'), Hqueued.
  - splits; try done. intros Hfields.
    destruct H4 as ([=] & _). apply Hfields. by left.
Qed.

(** The handling of the response to [cur]. When the text for [debug] can
    be evaluated for each asset of the response, it takes up every one of
    them; when it can be evaluated for each entry too, it takes up every
    entry as well. *)
Lemma absorb_spec (cur : string) (references : EntryReferenceProps)
    (st : Collector) :
  Inv sdk root st →
  cur ∈ processedEntryIds (allReferences st) →
  sdk !! cur = Some (Fulfilled (Some references)) →
  let st' := (absorb references st).1 in
  Inv sdk root st' ∧ steady st st' ∧ (Counted st → Counted st') ∧
  ((∀ asset, asset ∈ includedAssets references →
      describeAsset asset = Returned ()) →
   (∀ asset, asset ∈ includedAssets references →
      asset_id asset ∈ trackedAssetIds st') ∧
   ((∀ entry, entry ∈ includedEntries references →
       describeEntry entry = Returned ()) →
    (absorb references st).2 = Returned () ∧
    ∀ entry, entry ∈ includedEntries references →
      entry_id entry ∈ trackedEntryIds st' ∧
      (excluded (entry_contentType entry) = false →
       entry_id entry ∈ entriesQueued st'))).
Proof.
  intros HInv Hcur Hlookup. unfold absorb.
  set (st1 := match references_errors references with
              | Some errs => pushErrors errs st
              | None => st
              end).
  assert (Inv sdk root st1 ∧ steady st st1 ∧ (Counted st → Counted st1))
    as (H1 & H2 & H3).
  { unfold st1. destruct (references_errors references) as [errs|].
    - split; [by apply pushErrors_Inv|].
      split; [by split | by intros []].
    - splits; try done; try apply steady_refl. }
  destruct (processAssets_spec cur (includedAssets references) st1 H1)
    as (H1' & H2' & H3' & H4').
  { by rewrite (std_processedIds _ _ H2). }
  { intros asset Hin. by exists references. }
  destruct (forEach processAsset (includedAssets references) st1)
    as [st2 [[]|err]] eqn:Hassets; simpl in H1', H2', H3', H4'.
  - destruct (processEntries_spec cur (includedEntries references) st2 H1')
      as (H1'' & H2'' & H3'' & H4'').
    { by rewrite (std_processedIds _ _ H2'), (std_processedIds _ _ H2). }
    { intros entry Hin. by exists references. }
    split; [done|].
    split; [eapply steady_trans; [done|]; by eapply steady_trans|].
    split; [by auto|].
    intros Htitles. destruct (H4' Htitles) as (_ & Hall).
    split; [intros asset Hin; by apply (std_assets _ _ H2''), Hall|].
    intros Hfields. by destruct (H4'' Hfields) as (Hret & Hall').
  - simpl. split; [done|].
    split; [by eapply steady_trans|].
    split; [by auto|].
    intros Htitles. by destruct (H4' Htitles) as ([=] & _).
Qed.

Lemma references_Fulfilled (cur : string)
    (references : option EntryReferenceProps) :
  cma_entry_references sdk cur = Fulfilled references →
  sdk !! cur = Some (Fulfilled references).
Proof.
  unfold cma_entry_references. intros H.
  destruct (sdk !! cur) as [[]|]; simpl in H; by simplify_eq.
Qed.

Lemma references_Rejected (cur : string) (e : JsError)
    (references : option EntryReferenceProps) :
  cma_entry_references sdk cur = Rejected e →
  sdk !! cur ≠ Some (Fulfilled references).
Proof.
  unfold cma_entry_references. intros H.
  destruct (sdk !! cur) as [[]|]; simpl in H; by simplify_eq.
Qed.

(** The state once the entry at the head of the queue is marked,
    requested and counted. *)
Lemma counted_visit_spec (cur : string) (rest : list string)
    (st : Collector) :
  Inv sdk root st →
  entriesToProcess st = cur :: rest →
  (∀ e, cma_entry_references sdk cur = Rejected e →
        fetchError cur e ∈ errors (allReferences st)) →
  let st' :=
    setProgress
      (countProcessed (emit (Fetch cur) (markProcessed cur (shift rest st)))) in
  Inv sdk root st' ∧ (Counted st → Counted st').
Proof.
  intros HInv Hqueue Herr st'.
  assert (Inv sdk root st') as HInv'
    by by apply countProcessed_Inv, visit_Inv.
  split; [done|]. intros [Hcount Hreports].
  apply Counted_report; [done|]. split; fields; [|by rewrite reports_app, app_nil_r].
  rewrite size_union, size_singleton, Hcount; [lia|].
  apply disjoint_singleton_r.
  apply (inv_queue_fresh _ _ _ HInv). rewrite Hqueue. by left.
Qed.

(** One iteration of the loop. *)
Lemma iteration_spec (cur : string) (rest : list string) (st : Collector) :
  Inv sdk root st →
  entriesToProcess st = cur :: rest →
  let st' := iteration sdk cur rest st in
  Inv sdk root st' ∧
  processedEntryIds (allReferences st') =
    processedEntryIds (allReferences st) ∪ {[cur]} ∧
  (describableAssets sdk → assetsGathered sdk st → assetsGathered sdk st') ∧
  (describable sdk → Counted st → Counted st') ∧
  (describable sdk → Closed sdk st → Closed sdk st').
Proof.
  intros HInv Hqueue. unfold iteration, tryBlock. fields.
  assert (cur ∉ processedEntryIds (allReferences st)) as Hfresh.
  { apply (inv_queue_fresh _ _ _ HInv). rewrite Hqueue. by left. }
  destruct (decide (cur ∈ processedEntryIds (allReferences st))); [done|].
  destruct (cma_entry_references sdk cur) as [[references|]|e] eqn:Hres.
  - (* a response to take up *)
    apply references_Fulfilled in Hres as Hlookup.
    destruct (counted_visit_spec cur rest st HInv Hqueue) as [H2 H2c];
      [by rewrite Hres|].
    set (st2 := setProgress (countProcessed (emit (Fetch cur)
                  (markProcessed cur (shift rest st))))) in *.
    assert (cur ∈ processedEntryIds (allReferences st2)) as Hcur
      by (unfold st2; fields; set_solver).
    destruct (absorb_spec cur references st2 H2 Hcur Hlookup)
      as (H3 & Hsteady & H3c & Hpost).
    assert (describableAssets sdk →
            ∀ asset, asset ∈ includedAssets references →
              describeAsset asset = Returned ()) as Htitles.
    { intros Hdescr asset Hin. apply (Hdescr cur). by exists references. }
    assert (describableEntries sdk →
            ∀ entry, entry ∈ includedEntries references →
              describeEntry entry = Returned ()) as Hfields.
    { intros Hdescr entry Hin. apply (Hdescr cur). by exists references. }
    assert (∀ st3, steady st2 st3 →
              processedEntryIds (allReferences st3) =
              processedEntryIds (allReferences st) ∪ {[cur]}) as HP.
    { intros st3 Hs. by rewrite (std_processedIds _ _ Hs). }
    assert (∀ st3, steady st2 st3 →
              (∀ asset, asset ∈ includedAssets references →
                 asset_id asset ∈ trackedAssetIds st3) →
              processedEntryIds (allReferences st3) =
                processedEntryIds (allReferences st) ∪ {[cur]} →
              trackedAssetIds st2 ⊆ trackedAssetIds st3 →
              assetsGathered sdk st → assetsGathered sdk st3) as HG.
    { intros st3 Hs Hall HP3 Hsub Hg x asset Hx Hl. rewrite HP3 in Hx.
      apply elem_of_union in Hx as [Hx | ->%elem_of_singleton].
      - apply Hsub. unfold st2; fields. eauto.
      - destruct Hl as (r & Hr & Hin).
        rewrite Hlookup in Hr. injection Hr as <-. by apply Hall. }
    destruct (absorb references st2) as [st3 [[]|err]] eqn:Habs;
      simpl in H3, Hsteady, H3c, Hpost.
    + split; [done|]. split; [by apply HP|].
      split.
      { intros Hdescr. destruct (Hpost (Htitles Hdescr)) as (Hpa & _).
        apply HG; auto using std_assets. }
      split; [by auto|].
      intros [Hda Hde] [Hlinks Hentries].
      destruct (Hpost (Htitles Hda)) as (_ & Hpost').
      destruct (Hpost' (Hfields Hde)) as (_ & Hpe).
      split; intros x item Hx Hl; rewrite (HP st3 Hsteady) in Hx;
        apply elem_of_union in Hx as [Hx | ->%elem_of_singleton].
      * apply (std_queued _ _ Hsteady). unfold st2; fields. eauto.
      * destruct Hl as (r & entry & Hr & Hin & <- & Hexcl).
        rewrite Hlookup in Hr. injection Hr as <-. by apply Hpe.
      * apply (std_entries _ _ Hsteady). unfold st2; fields. eauto.
      * destruct Hl as (r & Hr & Hin).
        rewrite Hlookup in Hr. injection Hr as <-. by apply Hpe.
    + split; [by apply catchBlock_Inv|].
      split; [fields; by apply HP|].
      split.
      { intros Hdescr Hg x asset Hx Hl. fields.
        destruct (Hpost (Htitles Hdescr)) as (Hpa & _).
        apply (HG st3 Hsteady Hpa (HP st3 Hsteady)
                 (std_assets _ _ Hsteady) Hg x asset); [|done].
        by fields. }
      assert (describable sdk → False) as Hno.
      { intros [Hda Hde]. destruct (Hpost (Htitles Hda)) as (_ & Hpost').
        by destruct (Hpost' (Hfields Hde)) as ([=] & _). }
      split; intros Hdescr; by destruct (Hno Hdescr).
  - (* a response that is not defined *)
    apply references_Fulfilled in Hres as Hlookup.
    destruct (counted_visit_spec cur rest st HInv Hqueue) as [H2 H2c];
      [by rewrite Hres|].
    split; [done|]. split; [done|].
    split.
    { intros _ Hg x asset [Hx | ->%elem_of_singleton]%elem_of_union Hl;
        fields; [by eauto|].
      destruct Hl as (r & Hr & _). by rewrite Hlookup in Hr. }
    split; [by auto|].
    intros _ [Hlinks Hentries]. split; fields.
    + intros x y [Hx | ->%elem_of_singleton]%elem_of_union Hl; [eauto|].
      destruct Hl as (r & entry & Hr & _). by rewrite Hlookup in Hr.
    + intros x entry [Hx | ->%elem_of_singleton]%elem_of_union Hl; [eauto|].
      destruct Hl as (r & Hr & _). by rewrite Hlookup in Hr.
  - (* a rejected request *)
    change (catchBlock cur e
              (emit (Fetch cur) (markProcessed cur (shift rest st))))
      with (setProgress (countProcessed (emit (Fetch cur)
              (markProcessed cur
                 (shift rest (pushErrors [fetchError cur e] st)))))).
    destruct (counted_visit_spec cur rest
                (pushErrors [fetchError cur e] st)) as [H2 H2c].
    { by apply pushErrors_Inv. }
    { done. }
    { intros e' He'. rewrite Hres in He'. injection He' as <-.
      fields. apply elem_of_app. right. by left. }
    split; [done|]. split; [done|].
    split.
    { intros _ Hg x asset [Hx | ->%elem_of_singleton]%elem_of_union Hl;
        fields; [by eauto|].
      destruct Hl as (r & Hr & _).
      by apply (references_Rejected _ _ (Some r)) in Hres. }
    split. { intros _ [Hc Hr]. apply H2c. by split. }
    intros _ [Hlinks Hentries]. split; fields.
    + intros x y [Hx | ->%elem_of_singleton]%elem_of_union Hl; [eauto|].
      destruct Hl as (r & entry & Hr & _).
      by apply (references_Rejected _ _ (Some r)) in Hres.
    + intros x entry [Hx | ->%elem_of_singleton]%elem_of_union Hl; [eauto|].
      destruct Hl as (r & Hr & _).
      by apply (references_Rejected _ _ (Some r)) in Hres.
Qed.

(** *** The loop *)

Lemma iterations_spec (n : nat) (st : Collector) :
  Inv sdk root st →
  let st' := iterations sdk n st in
  Inv sdk root st' ∧
  (describableAssets sdk → assetsGathered sdk st → assetsGathered sdk st') ∧
  (describable sdk → Counted st → Counted st') ∧
  (describable sdk → Closed sdk st → Closed sdk st').
Proof.
  revert st. induction n as [|n IH]; intros st HInv; simpl; [done|].
  destruct (entriesToProcess st) as [|cur rest] eqn:Hqueue; [done|].
  destruct (iteration_spec cur rest st HInv Hqueue)
    as (H1 & _ & H2 & H3 & H4).
  destruct (IH _ H1) as (H1' & H2' & H3' & H4').
  splits; auto.
Qed.

(** Every id that can be reached is the root or an id that the store
    mentions. *)
Lemma links_referenced (x y : string) :
  links sdk x y → y ∈ referencedIds sdk.
Proof.
  intros (references & entry & Hlookup & Hin & <- & _).
  unfold referencedIds. apply elem_of_list_to_set, list_elem_of_In.
  apply in_concat.
  exists (map entry_id (includedEntries references)). split.
  - apply in_map_iff. exists (x, Fulfilled (Some references)).
    split; [done|]. apply list_elem_of_In. by apply elem_of_map_to_list.
  - apply list_elem_of_In. by apply list_elem_of_fmap_2.
Qed.

Lemma reachable_bounded (i : string) :
  rtc (links sdk) root i → i ∈ ({[root]} ∪ referencedIds sdk : gset string).
Proof.
  intros Hreach. apply elem_of_union.
  destruct (rtc_inv_r _ _ Hreach) as [<- | (p & _ & Hlink)].
  - left. by apply elem_of_singleton.
  - right. by eapply links_referenced.
Qed.

Lemma processed_bounded (st : Collector) :
  Inv sdk root st →
  processedEntryIds (allReferences st) ⊆ {[root]} ∪ referencedIds sdk.
Proof.
  intros HInv i Hi. apply reachable_bounded, (inv_reach _ _ _ HInv).
  apply (inv_queued _ _ _ HInv). by left.
Qed.

(** Each iteration marks one more of the boundedly many ids, so the
    queue is empty once the bound is reached. *)
Lemma iterations_done (n : nat) (st : Collector) :
  Inv sdk root st →
  size ({[root]} ∪ referencedIds sdk : gset string) ≤
    n + size (processedEntryIds (allReferences st)) →
  entriesToProcess (iterations sdk n st) = [].
Proof.
  revert st. induction n as [|n IH]; intros st HInv Hbound; simpl.
  - destruct (entriesToProcess st) as [|cur rest] eqn:Hqueue; [done|].
    exfalso.
    destruct (iteration_spec cur rest st HInv Hqueue) as (H1 & HP & _).
    pose proof (subseteq_size _ _ (processed_bounded _ H1)) as Hle.
    rewrite HP, size_union, size_singleton in Hle; [lia|].
    apply disjoint_singleton_r, (inv_queue_fresh _ _ _ HInv).
    rewrite Hqueue. by left.
  - destruct (entriesToProcess st) as [|cur rest] eqn:Hqueue; [done|].
    destruct (iteration_spec cur rest st HInv Hqueue) as (H1 & HP & _).
    apply IH; [done|].
    assert (processedEntryIds (allReferences st) ## {[cur]}) as Hdisj.
    { apply disjoint_singleton_r, (inv_queue_fresh _ _ _ HInv).
      rewrite Hqueue. by left. }
    rewrite HP, (size_union _ _ Hdisj), size_singleton. lia.
Qed.

Lemma initial_Counted : Counted (initial root).
Proof. split; fields; [by rewrite size_empty | constructor]. Qed.

Lemma initial_Closed : Closed sdk (initial root).
Proof. split; fields; intros ? ? ?%elem_of_empty; done. Qed.

Lemma initial_assetsGathered : assetsGathered sdk (initial root).
Proof. intros ? ? ?%elem_of_empty; done. Qed.

(** The traversal ends: the loop leaves a final state, in which the queue
    is empty and every id that was queued has been processed. *)
Lemma collect_spec :
  ∃ st, collect sdk root = Some st ∧
    st = iterations sdk (iterationBound sdk root) (initial root) ∧
    Inv sdk root st ∧
    entriesToProcess st = [] ∧
    (∀ i, i ∈ entriesQueued st ↔ i ∈ fetches (events st)) ∧
    (describableAssets sdk → assetsGathered sdk st) ∧
    (describable sdk → Counted st ∧ Closed sdk st).
Proof.
  pose proof initial_Inv as H0.
  destruct (iterations_spec (iterationBound sdk root) _ H0)
    as (HInv & Hg & Hc & Hcl).
  assert (entriesToProcess
            (iterations sdk (iterationBound sdk root) (initial root)) = [])
    as Hdone.
  { apply iterations_done; [done|]. unfold iterationBound. lia. }
  eexists. unfold collect. rewrite Hdone.
  split; [done|]. split; [done|]. split; [done|]. split; [done|].
  split; [|split].
  - intros i. rewrite (inv_queued _ _ _ HInv), Hdone,
      (inv_fetches _ _ _ HInv). split; [|by left].
    by intros [?|?%elem_of_nil].
  - intros Hdescr. apply Hg, initial_assetsGathered. done.
  - intros Hdescr.
    split; [apply Hc | apply Hcl];
      auto using initial_Counted, initial_Closed.
Qed.

End Steps.

(** *** The checks on concrete stores *)

Lemma listsEntry_listed (sdk : ReferenceStore) (parent : string)
    (entry : EntryProps) :
  listsEntry sdk parent entry → (parent, entry) ∈ listedEntries sdk.
Proof.
  intros (references & Hlookup & Hin).
  unfold listedEntries. apply list_elem_of_In, in_concat.
  exists (map (pair parent) (includedEntries references)). split.
  - apply in_map_iff. exists (parent, Fulfilled (Some references)).
    split; [done|]. apply list_elem_of_In. by apply elem_of_map_to_list.
  - apply list_elem_of_In. by apply list_elem_of_fmap_2.
Qed.

Lemma listsAsset_listed (sdk : ReferenceStore) (parent : string)
    (asset : AssetProps) :
  listsAsset sdk parent asset → (parent, asset) ∈ listedAssets sdk.
Proof.
  intros (references & Hlookup & Hin).
  unfold listedAssets. apply list_elem_of_In, in_concat.
  exists (map (pair parent) (includedAssets references)). split.
  - apply in_map_iff. exists (parent, Fulfilled (Some references)).
    split; [done|]. apply list_elem_of_In. by apply elem_of_map_to_list.
  - apply list_elem_of_In. by apply list_elem_of_fmap_2.
Qed.

Lemma describableb_sound (sdk : ReferenceStore) :
  describableb sdk = true → describable sdk.
Proof.
  unfold describableb. rewrite andb_true_iff, !forallb_forall.
  intros [Hassets Hentries]. split.
  - intros parent asset Hlists%listsAsset_listed%list_elem_of_In.
    specialize (Hassets _ Hlists). simpl in Hassets.
    by destruct (describeAsset asset) as [[]|].
  - intros parent entry Hlists%listsEntry_listed%list_elem_of_In.
    specialize (Hentries _ Hlists). simpl in Hentries.
    by destruct (describeEntry entry) as [[]|].
Qed.

Lemma onlyListedExcludedb_sound (sdk : ReferenceStore) (x : string) :
  onlyListedExcludedb sdk x = true → onlyListedExcluded sdk x.
Proof.
  unfold onlyListedExcludedb. rewrite forallb_forall.
  intros Hall parent entry Hlists%listsEntry_listed%list_elem_of_In Hid.
  specialize (Hall _ Hlists). simpl in Hall.
  by rewrite Hid, String.eqb_refl in Hall.
Qed.

(** *** Termination and single visits *)

(** X25. The traversal ends on every store of references, cycles and
    self-references included, and requests no entry twice. The entries it
    requests can all be reached from the root through the links it follows,
    from a fulfilled response to the entries it lists under a content type
    that is not excluded. When the text for [debug] can be evaluated for
    every listed asset and entry, so that no exception cuts the handling of
    a response short, it requests every entry that can be reached so, each
    exactly once. *)
Theorem traversal_ends_and_visits_once (sdk : ReferenceStore) (root : string) :
  ∃ st, collect sdk root = Some st ∧
    NoDup (fetches (events st)) ∧
    (∀ i, i ∈ fetches (events st) → rtc (links sdk) root i) ∧
    (describable sdk →
     ∀ i, rtc (links sdk) root i → i ∈ fetches (events st)).
Proof.
  destruct (collect_spec sdk root)
    as (st & Hcollect & _ & HInv & Hdone & Hqueued & _ & Hdescr).
  exists st. split; [done|].
  split; [apply (inv_fetches_nodup _ _ _ HInv)|].
  split.
  - intros i Hi. by apply (inv_reach _ _ _ HInv), Hqueued.
  - intros Hd. destruct (Hdescr Hd) as [_ [Hlinks _]].
    intros i Hreach. apply Hqueued.
    apply (rtc_ind_r (R := links sdk) (λ i, i ∈ entriesQueued st) root);
      [| |done].
    + apply (inv_root _ _ _ HInv).
    + intros x y _ Hlink IH. apply (Hlinks x y); [|done].
      by apply (inv_fetches _ _ _ HInv), Hqueued.
Qed.

(** A references B and B references A: the traversal from A ends, having
    requested A and B, neither of them twice. *)
Lemma traversal_ends_and_visits_once_witness :
  ∃ st, collect cycle "A" = Some st ∧
    NoDup (fetches (events st)) ∧
    "A" ∈ fetches (events st) ∧ "B" ∈ fetches (events st).
Proof.
  destruct (traversal_ends_and_visits_once cycle "A")
    as (st & Hcollect & Hnodup & _ & Hall).
  exists st. split; [exact Hcollect|]. split; [exact Hnodup|].
  assert (describable cycle) as Hd by (apply describableb_sound; reflexivity).
  split; apply (Hall Hd).
  - apply rtc_refl.
  - apply rtc_once.
    exists {| references_errors := None;
              references_includes :=
                Some {| includes_Entry := Some [draftEntry "B" "hero"];
                        includes_Asset := Some [] |} |},
           (draftEntry "B" "hero").
    split; [reflexivity|]. split; [apply list_elem_of_here|].
    split; reflexivity.
Defined.

(** A references B and B references A: the traversal requests A, then B,
    and ends. *)
Example cycle_run :
  events <$> collect cycle "A" =
  Some [Fetch "A"; Progress 1 1; Progress 1 2; Fetch "B"; Progress 2 2].
Proof. reflexivity. Qed.

(** C1, where the code departs from it. A references an entry without
    fields and B, and B references A. B can be reached from A through a
    link that the traversal follows, but the traversal from A ends without
    a request for B: the text for [debug] cannot be evaluated for the entry
    without fields, the exception leaves the loop over the entries of the
    response before B is queued, and the [catch] block records it as an
    error for A. *)
Theorem reachable_entry_behind_fieldless_not_requested :
  rtc (links fieldlessCycle) "A" "B" ∧
  (λ st, (fetches (events st), entriesQueued st, errors (allReferences st)))
    <$> collect fieldlessCycle "A" =
  Some (["A"], {["A"]}, [fetchError "A" (TypeError "1")]).
Proof.
  split; [|reflexivity].
  apply rtc_once.
  exists {| references_errors := None;
            references_includes :=
              Some {| includes_Entry :=
                        Some [emptyEntry "empty" "hero"; draftEntry "B" "hero"];
                      includes_Asset := Some [] |} |},
         (draftEntry "B" "hero").
  split; [reflexivity|]. split; [|split; reflexivity].
  apply list_elem_of_In. right. left. reflexivity.
Qed.

(** A references itself: the traversal requests A once; A, met again in
    its own response, joins the collection and is not queued again. *)
Example self_reference_run :
  (λ st, (events st, map entry_id (entries (allReferences st))))
    <$> collect selfReference "A" =
  Some ([Fetch "A"; Progress 1 1], ["A"]).
Proof. reflexivity. Qed.

(** *** No duplicates *)

Lemma NoDup_fmap_filter_length {A : Type} (f : A → string) (x : string)
    (l : list A) :
  NoDup (map f l) → x ∈ map f l →
  length (filter (λ a, f a = x) l) = 1.
Proof.
  induction l as [|a l IH]; [by intros _ ?%elem_of_nil|].
  change (map f (a :: l)) with (f a :: map f l).
  intros [Ha Hl]%NoDup_cons Hx. rewrite filter_cons.
  destruct (decide (f a = x)) as [<-|Hne].
  - cbn [length]. f_equal. apply length_zero_iff_nil.
    destruct (filter (λ b, f b = f a) l) as [|b k] eqn:Hfilter; [reflexivity|].
    assert (b ∈ filter (λ b, f b = f a) l) as Hb.
    { rewrite Hfilter. apply list_elem_of_here. }
    apply list_elem_of_filter in Hb as [Heq Hb].
    exfalso. apply Ha. rewrite <- Heq. apply list_elem_of_fmap_2. exact Hb.
  - apply IH; [exact Hl|]. apply elem_of_cons in Hx as [Hx|Hx]; [|exact Hx].
    congruence.
Qed.

(** X26. The universe holds no entry id twice and no asset id twice, and
    no entry is requested twice. At the head of every iteration the queue
    holds no id twice and no id that was processed, the processed ids being
    among the queued ones; and an entry whose id was queued before leaves
    the queue, the set of queued ids and the log as they are, and the whole
    state when its id is in the collection too. When the text for [debug]
    can be evaluated for every listed asset, an asset that the response of
    a requested entry lists is in the universe exactly once, however many
    responses list it. *)
Theorem universe_without_duplicates (sdk : ReferenceStore) (root : string) :
  ∃ st, collect sdk root = Some st ∧
    NoDup (map entry_id (entries (allReferences st))) ∧
    NoDup (map asset_id (assets (allReferences st))) ∧
    NoDup (fetches (events st)) ∧
    (∀ n, let s := iterations sdk n (initial root) in
       NoDup (entriesToProcess s) ∧
       (∀ i, i ∈ entriesToProcess s →
             i ∉ processedEntryIds (allReferences s)) ∧
       processedEntryIds (allReferences s) ⊆ entriesQueued s) ∧
    (∀ s entry,
       describeEntry entry = Returned () →
       entry_id entry ∈ entriesQueued s →
       let s' := (processEntry entry s).1 in
       entriesToProcess s' = entriesToProcess s ∧
       entriesQueued s' = entriesQueued s ∧
       total s' = total s ∧
       events s' = events s ∧
       (entry_id entry ∈ trackedEntryIds s → s' = s)) ∧
    (describableAssets sdk →
     ∀ p asset,
       p ∈ fetches (events st) → listsAsset sdk p asset →
       length (filter (λ a, asset_id a = asset_id asset)
                 (assets (allReferences st))) = 1).
Proof.
  destruct (collect_spec sdk root)
    as (st & Hcollect & _ & HInv & Hdone & Hqueued & Hgathered & _).
  exists st. split; [done|].
  split; [apply (inv_entries_nodup _ _ _ HInv)|].
  split; [apply (inv_assets_nodup _ _ _ HInv)|].
  split; [apply (inv_fetches_nodup _ _ _ HInv)|].
  split; [|split].
  - intros n s.
    destruct (iterations_spec sdk root n _ (initial_Inv sdk root))
      as (Hs & _). fold s in Hs.
    split; [apply (inv_queue_nodup _ _ _ Hs)|].
    split; [apply (inv_queue_fresh _ _ _ Hs)|].
    intros i Hi. apply (inv_queued _ _ _ Hs). by left.
  - intros s entry Hdescribed Hin. unfold processEntry.
    rewrite Hdescribed. cbn zeta.
    destruct (decide (entry_id entry ∈ trackedEntryIds s)) as [Ht|Ht].
    + rewrite bool_decide_eq_true_2, andb_false_r by done. by fields.
    + rewrite bool_decide_eq_true_2, andb_false_r by (by fields).
      by fields.
  - intros Hd p asset Hp Hlists.
    apply NoDup_fmap_filter_length; [apply (inv_assets_nodup _ _ _ HInv)|].
    apply (inv_assets_tracked _ _ _ HInv), (Hgathered Hd p); [|done].
    by apply (inv_fetches _ _ _ HInv).
Qed.

(** Three entries reference the asset X: the universe holds X once. *)
Example shared_asset_run :
  (λ st, (map asset_id (assets (allReferences st)),
          map entry_id (entries (allReferences st)),
          fetches (events st))) <$> collect shared "root" =
  Some (["X"], ["e1"; "e2"; "e3"], ["root"; "e1"; "e2"; "e3"]).
Proof. reflexivity. Qed.

(** Three entries reference the asset X: the universe holds X exactly
    once. *)
Lemma universe_without_duplicates_witness :
  ∃ st, collect shared "root" = Some st ∧
    length (filter (λ a, asset_id a = "X") (assets (allReferences st))) = 1.
Proof.
  destruct (universe_without_duplicates shared "root")
    as (st & Hcollect & _ & _ & Hfetches & _ & _ & Hone).
  exists st. split; [exact Hcollect|].
  apply (Hone (proj1 (describableb_sound shared eq_refl))
           "e1" (draftAsset "X")).
  - pose proof shared_asset_run as Hrun. rewrite Hcollect in Hrun.
    injection Hrun as _ _ ->. apply list_elem_of_In. right. left. reflexivity.
  - exists {| references_errors := None;
              references_includes :=
                Some {| includes_Entry := Some [];
                        includes_Asset := Some [draftAsset "X"] |} |}.
    split; [reflexivity | apply list_elem_of_here].
Defined.

(** C4, where the code departs from it. Three entries of the root each
    reference an asset without title and the asset X, in this order. The
    traversal requests the three entries, and each response lists X, but
    the universe holds no copy of X: the text for [debug] cannot be
    evaluated for the asset without title, and the exception leaves the
    loop over the assets of each response before X is looked at. *)
Theorem shared_asset_behind_untitled_not_collected :
  (∀ p, p ∈ ["e1"; "e2"; "e3"] →
        listsAsset sharedUntitled p (draftAsset "X")) ∧
  (λ st, (fetches (events st),
          length (filter (λ a, asset_id a = "X") (assets (allReferences st))),
          assets (allReferences st),
          map error_sys_id (errors (allReferences st))))
    <$> collect sharedUntitled "root" =
  Some (["root"; "e1"; "e2"; "e3"], 0, [], ["e1"; "e2"; "e3"]).
Proof.
  split; [|reflexivity].
  intros p Hp.
  exists {| references_errors := None;
            references_includes :=
              Some {| includes_Entry := Some [];
                      includes_Asset :=
                        Some [untitledAsset "U"; draftAsset "X"] |} |}.
  split; [|apply list_elem_of_In; right; left; reflexivity].
  apply list_elem_of_In in Hp.
  destruct Hp as [<-|[<-|[<-|[]]]]; reflexivity.
Qed.

(** The same with titled assets only: the three entries that reference X
    are listed behind an entry without fields, so none of them is
    requested and X is not collected. *)
Example shared_asset_behind_fieldless_not_collected :
  (λ st, (fetches (events st), assets (allReferences st),
          map error_sys_id (errors (allReferences st))))
    <$> collect sharedBehindFieldless "root" =
  Some (["root"], [], ["root"]).
Proof. reflexivity. Qed.

(** *** Excluded content types *)

(** X27. An entry that responses list only under excluded content types
    is never requested, the root apart, which is requested whatever its
    type. The universe holds nothing but what the responses of requested
    entries list, so what such an entry references is in the universe only
    if the response of a requested entry lists it too. When the text for
    [debug] can be evaluated for every listed asset and entry, each entry
    that the response of a requested entry lists, excluded or not, is in
    the universe exactly once, and so counts for one in the number of
    entries. *)
Theorem excluded_entries_included_not_expanded
    (sdk : ReferenceStore) (root : string) :
  ∃ st, collect sdk root = Some st ∧
    (∀ x, x ≠ root → onlyListedExcluded sdk x → x ∉ fetches (events st)) ∧
    (∀ entry, entry ∈ entries (allReferences st) →
       ∃ p, p ∈ fetches (events st) ∧ listsEntry sdk p entry) ∧
    (∀ asset, asset ∈ assets (allReferences st) →
       ∃ p, p ∈ fetches (events st) ∧ listsAsset sdk p asset) ∧
    (describable sdk →
     ∀ p entry, p ∈ fetches (events st) → listsEntry sdk p entry →
       entry_id entry ∈ map entry_id (entries (allReferences st)) ∧
       length (filter (λ e, entry_id e = entry_id entry)
                 (entries (allReferences st))) = 1).
Proof.
  destruct (collect_spec sdk root)
    as (st & Hcollect & _ & HInv & Hdone & Hqueued & _ & Hdescr).
  exists st. split; [done|]. splits.
  - intros x Hroot Hexcluded Hx.
    destruct (inv_parent _ _ _ HInv x) as [->|(p & Hp & Hlink)].
    { by apply Hqueued. }
    { done. }
    destruct Hlink as (references & entry & Hlookup & Hin & Hid & Hfree).
    rewrite (Hexcluded p entry) in Hfree; [done| |done].
    by exists references.
  - intros entry Hin.
    destruct (inv_entries_from _ _ _ HInv entry Hin) as (p & Hp & Hl).
    exists p. split; [|done]. by apply (inv_fetches _ _ _ HInv).
  - intros asset Hin.
    destruct (inv_assets_from _ _ _ HInv asset Hin) as (p & Hp & Hl).
    exists p. split; [|done]. by apply (inv_fetches _ _ _ HInv).
  - intros Hd p entry Hp Hl. destruct (Hdescr Hd) as [_ [_ Hentries]].
    assert (entry_id entry ∈ map entry_id (entries (allReferences st)))
      as Hin.
    { apply (inv_entries_tracked _ _ _ HInv), (Hentries p); [|done].
      by apply (inv_fetches _ _ _ HInv). }
    split; [done|].
    apply NoDup_fmap_filter_length; [apply (inv_entries_nodup _ _ _ HInv)|].
    done.
Qed.

(** The root references a navigation entry, which references a menu: the
    navigation entry is in the universe, the menu is not. *)
Example structural_run :
  (λ st, (map entry_id (entries (allReferences st)), fetches (events st)))
    <$> collect structural "root" =
  Some (["nav"], ["root"]).
Proof. reflexivity. Qed.

(** The navigation entry that the root references is in the universe and
    is never requested. *)
Lemma excluded_entries_included_not_expanded_witness :
  ∃ st, collect structural "root" = Some st ∧
    ("nav" ∉ fetches (events st)) ∧
    "nav" ∈ map entry_id (entries (allReferences st)).
Proof.
  destruct (excluded_entries_included_not_expanded structural "root")
    as (st & Hcollect & Hnot & _ & _ & Hin).
  exists st. split; [exact Hcollect|]. split.
  - apply Hnot; [discriminate|].
    apply onlyListedExcludedb_sound. reflexivity.
  - apply (Hin (describableb_sound structural eq_refl) "root"
             (draftEntry "nav" "navigation")).
    + pose proof structural_run as Hrun. rewrite Hcollect in Hrun.
      injection Hrun as _ ->. apply list_elem_of_here.
    + exists {| references_errors := None;
                references_includes :=
                  Some {| includes_Entry :=
                            Some [draftEntry "nav" "navigation"];
                          includes_Asset := Some [] |} |}.
      split; [reflexivity | apply list_elem_of_here].
Defined.

(** C5, where the code departs from it. The root references an entry
    without fields and then a navigation entry, whose content type is
    excluded. The traversal requests the root, whose response lists the
    navigation entry, but the universe holds no entry and the number of
    entries is 0: the text for [debug] cannot be evaluated for the entry
    without fields, and the exception leaves the loop over the entries of
    the response before the navigation entry is looked at. *)
Theorem excluded_entry_behind_fieldless_not_included :
  listsEntry fieldlessNavigation "root" (draftEntry "nav" "navigation") ∧
  excluded (entry_contentType (draftEntry "nav" "navigation")) = true ∧
  (λ st, (fetches (events st), entries (allReferences st),
          entryCount (buildReferenceInformation rootUndated (allReferences st)),
          errors (allReferences st)))
    <$> collect fieldlessNavigation "root" =
  Some (["root"], [], 0, [fetchError "root" (TypeError "1")]).
Proof.
  split; [|split; reflexivity].
  exists {| references_errors := None;
            references_includes :=
              Some {| includes_Entry :=
                        Some [emptyEntry "empty" "hero";
                              draftEntry "nav" "navigation"];
                      includes_Asset := Some [] |} |}.
  split; [reflexivity|]. apply list_elem_of_In. right. left. reflexivity.
Qed.

(** *** Progress reports *)

(** C7, as the code has it. The counters of the reports never go down.
    When the text for [debug] can be evaluated for every listed asset and
    entry, so that no exception leaves the handling of a response, no
    report has [processed] above [total], and the traversal ends with
    [processed] equal to [total], which is what the last report says.
    Equality is not reserved to the end. *)
Theorem progress_reports_bounded_and_complete
    (sdk : ReferenceStore) (root : string) :
  ∃ st, collect sdk root = Some st ∧
    nondecreasing (reports (events st)) ∧
    (describable sdk →
     Forall (λ r, r.1 ≤ r.2) (reports (events st)) ∧
     processed st = total st ∧
     last (reports (events st)) = Some (total st, total st)).
Proof.
  destruct (collect_spec sdk root)
    as (st & Hcollect & _ & HInv & Hdone & Hqueued & _ & Hdescr).
  exists st. split; [done|].
  split; [apply (inv_reports_sorted _ _ _ HInv)|].
  intros Hd. destruct (Hdescr Hd) as [[Hcount Hreports] _].
  assert (processed st = total st) as Heq.
  { rewrite Hcount, (inv_total _ _ _ HInv). f_equal.
    apply set_eq. intros i.
    by rewrite Hqueued, (inv_fetches _ _ _ HInv). }
  split; [done|]. split; [done|].
  pose proof (inv_last_report _ _ _ HInv) as Hlast. rewrite Heq in Hlast.
  destruct (reports (events st)) as [|r rs] eqn:Hrs; [|done].
  simpl in Hlast. injection Hlast as H0 H1. lia.
Qed.

(** A references B: no report has [processed] above [total], and the
    traversal ends with the two equal. *)
Lemma progress_reports_bounded_and_complete_witness :
  ∃ st, collect chain "A" = Some st ∧
    Forall (λ r, r.1 ≤ r.2) (reports (events st)) ∧
    processed st = total st.
Proof.
  destruct (progress_reports_bounded_and_complete chain "A")
    as (st & Hcollect & _ & Hdescr).
  destruct (Hdescr (describableb_sound chain eq_refl)) as (Hle & Heq & _).
  exists st. split; [exact Hcollect|]. split; [exact Hle | exact Heq].
Defined.

(** A references B: the first report, made before B is found, already has
    [processed] equal to [total]. *)
Example chain_run :
  (λ st, reports (events st)) <$> collect chain "A" =
  Some [(1, 1); (1, 2); (2, 2)].
Proof. reflexivity. Qed.

(** C7, as stated, fails on a chain of two entries: a report that is not
    the last one has [processed] equal to [total]. *)
Lemma processed_reaches_total_before_the_end :
  ∃ st, collect chain "A" = Some st ∧
    ¬ belowTotalUntilLast (reports (events st)).
Proof.
  destruct (collect_spec chain "A") as (st & Hcollect & _).
  exists st. split; [done|].
  pose proof chain_run as Hrun. rewrite Hcollect in Hrun.
  injection Hrun as ->. intros Hbelow.
  specialize (Hbelow 0 1 1 eq_refl). simpl in Hbelow. lia.
Qed.

(** The root references an entry without fields: the exception that the
    text for [debug] raises is caught after the root was counted, the root
    is counted again, and the last report has [processed] above [total]. *)
Example fieldless_run :
  (λ st, (reports (events st), processed st, total st,
          map error_sys_id (errors (allReferences st)),
          map entry_id (entries (allReferences st))))
    <$> collect fieldless "root" =
  Some ([(1, 1); (2, 1)], 2, 1, ["root"], []).
Proof. reflexivity. Qed.

(** The same for a root that references an asset without title. *)
Example untitled_run :
  (λ st, (events st, processed st, total st,
          errors (allReferences st), assets (allReferences st)))
    <$> collect untitled "root" =
  Some ([Fetch "root"; Progress 1 1; Progress 2 1], 2, 1,
        [fetchError "root" (TypeError "en-US")], []).
Proof. reflexivity. Qed.

(** *** Failures *)

(** C8, as the code has it. The traversal returns on every store and
    never throws. The failure of a request, the one for the root included,
    is recorded as an error for the entry the request was for, and the loop
    goes on with the rest of the queue, leaving the collections as they
    are: every id that was queued is requested in the end. *)
Theorem fetch_failures_recorded_never_thrown
    (sdk : ReferenceStore) (root : string) :
  ∃ st, collect sdk root = Some st ∧
    fetchReferencesIteratively sdk root = Some (Returned (allReferences st)) ∧
    (∀ i e, i ∈ fetches (events st) →
       cma_entry_references sdk i = Rejected e →
       fetchError i e ∈ errors (allReferences st)) ∧
    (∀ i, i ∈ entriesQueued st → i ∈ fetches (events st)) ∧
    (∀ cur rest e s,
       cma_entry_references sdk cur = Rejected e →
       cur ∉ processedEntryIds (allReferences s) →
       let s' := iteration sdk cur rest s in
       entriesToProcess s' = rest ∧
       entries (allReferences s') = entries (allReferences s) ∧
       assets (allReferences s') = assets (allReferences s) ∧
       errors (allReferences s') =
         errors (allReferences s) ++ [fetchError cur e]).
Proof.
  destruct (collect_spec sdk root)
    as (st & Hcollect & _ & HInv & Hdone & Hqueued & _).
  exists st. split; [done|].
  split; [unfold fetchReferencesIteratively; by rewrite Hcollect|].
  split.
  { intros i e Hi. apply (inv_errors _ _ _ HInv).
    by apply (inv_fetches _ _ _ HInv). }
  split; [intros i; apply Hqueued|].
  intros cur rest e s Hres Hfresh. unfold iteration, tryBlock. fields.
  destruct (decide (cur ∈ processedEntryIds (allReferences s))); [done|].
  by rewrite Hres.
Qed.

(** The store holds nothing, so the request for the root fails: the
    traversal returns, with the failure recorded for the root. *)
Example missing_root_run :
  (λ st, (errors (allReferences st), events st)) <$> collect ∅ "root" =
  Some ([fetchError "root" NotFound], [Fetch "root"; Progress 1 1]).
Proof. reflexivity. Qed.

(** C8, as stated, fails on the empty store: the request for the root
    fails and the traversal does not throw. *)
Lemma failed_root_is_not_thrown : ¬ throwsExactlyForRoot ∅ "root".
Proof.
  unfold throwsExactlyForRoot. intros [_ Hthrows].
  destruct Hthrows as [e He].
  { exists NotFound. reflexivity. }
  destruct (collect_spec ∅ "root") as (st & Hcollect & _).
  unfold fetchReferencesIteratively in He. rewrite Hcollect in He.
  discriminate He.
Qed.

(** ** Publish orchestrator: the run item by item *)

Ltac run_fields :=
  cbn [pub_published pub_errors pub_errored pub_scheduledActionIds requests
       statuses send pushActionId countPublished countError pushErrored
       emitStatus setStatus initialPublisher statusOf
       status_total status_published status_errors status_errored
       status_isScheduled status_scheduledTime status_scheduledActionIds] in *.

Lemma foldl_map {A B C : Type} (f : A → B → A) (g : C → B) (a : A)
    (l : list C) :
  foldl f a (map g l) = foldl (λ a x, f a (g x)) a l.
Proof. revert a. induction l as [|x l IH]; intros a; simpl; [done|apply IH]. Qed.

Section DoPublishSteps.

Variable Date_toISOString : string → Completion string.
Variable sdk : PublishSDK.
Variable information : IReferenceInformation.

Abbreviation sends := (sendsRequests Date_toISOString).
Abbreviation item := (publishItem Date_toISOString sdk information).

Abbreviation one := (publishOne Date_toISOString sdk information).

(** The two loops over the dependencies are one loop over [dependencies]. *)
Lemma dependenciesDone_foldl (scheduledTime : option string) :
  dependenciesDone Date_toISOString sdk information scheduledTime =
  foldl (one scheduledTime)
    (initialPublisher information scheduledTime) (dependencies information).
Proof.
  unfold dependenciesDone, publishEntries, publishAssets, dependencies.
  by rewrite (foldl_app (one scheduledTime)), !foldl_map.
Qed.

(** What the loop body does with an item. Without a date to schedule for
    it sends nothing and counts a failure. Otherwise it sends one request
    of the shape that goes with the mode, and counts the item as failed or
    as published by the way the request settles, keeping the id of the
    action if there is one. *)
Lemma publishOne_cases (scheduledTime : option string) (i : Item)
    (st : Publisher) :
  (sends scheduledTime = false ∧
   one scheduledTime st i =
     setStatus information scheduledTime
       (pushErrored (itemSys i) (countError st))) ∨
  (sends scheduledTime = true ∧
   ∃ r, requestShape Date_toISOString scheduledTime i r ∧
        one scheduledTime st i =
          if rejected r
          then setStatus information scheduledTime
                 (pushErrored (itemSys i) (countError (send r st)))
          else setStatus information scheduledTime
                 (countPublished (keepActionId r (send r st)))).
Proof.
  unfold publishOne, publishItem, requestShape.
  destruct (mode_cases Date_toISOString scheduledTime)
    as [[Hmode Hsends]
       |[(t & datetime & -> & Htruthy & Hdate & Hmode & Hsends)
        |(t & e & -> & Htruthy & Hdate & Hmode & Hsends)]];
    rewrite Hmode, Hsends.
  - right. split; [done|]. unfold publishImmediately.
    destruct i as [asset|entry]; simpl.
    + destruct (cma_asset_publish sdk (requests st) (sys_id (asset_sys asset))
                  (AssetEntity asset)) as [[]|e] eqn:Hres.
      * exists (AssetPublish (asset_id asset) (AssetEntity asset)
                  (Fulfilled ())).
        split; [by eexists|done].
      * exists (AssetPublish (asset_id asset) (AssetEntity asset)
                  (Rejected e)).
        split; [by eexists|done].
    + destruct (cma_entry_publish sdk (requests st) (sys_id (entry_sys entry))
                  (EntryEntity entry)) as [[]|e] eqn:Hres.
      * exists (EntryPublish (entry_id entry) (EntryEntity entry)
                  (Fulfilled ())).
        split; [by eexists|done].
      * exists (EntryPublish (entry_id entry) (EntryEntity entry)
                  (Rejected e)).
        split; [by eexists|done].
  - right. split; [done|]. unfold schedulePublish. rewrite Htruthy, Hdate.
    set (sys := itemSys i). set (kind := itemKind i).
    destruct (cma_scheduledActions_create sdk (requests st) (sys_space sys)
                (sys_environment sys) kind (sys_id sys) datetime)
      as [action|e].
    + exists (ScheduledActionsCreate (sys_space sys) (sys_environment sys)
                kind (sys_id sys) datetime (Fulfilled action)).
      split; [exists t, datetime; split; [done|split; [done|by eexists]]|].
      unfold keepActionId. simpl.
      by destruct (createdActionId action).
    + exists (ScheduledActionsCreate (sys_space sys) (sys_environment sys)
                kind (sys_id sys) datetime (Rejected e)).
      split; [exists t, datetime; split; [done|split; [done|by eexists]]|done].
  - left. split; [done|]. unfold schedulePublish. by rewrite Htruthy, Hdate.
Qed.

(** The requests and the failed items of a stretch of the loop. *)
Lemma publishItems_trace (scheduledTime : option string) (items : list Item)
    (st : Publisher) :
  let st' := foldl (one scheduledTime) st items in
  ∃ rs,
    requests st' = requests st ++ rs ∧
    (sends scheduledTime = true →
       Forall2 (requestShape Date_toISOString scheduledTime) items rs ∧
       pub_errored st' = pub_errored st ++ rejectedItems items rs) ∧
    (sends scheduledTime = false →
       rs = [] ∧ pub_errored st' = pub_errored st ++ map itemSys items).
Proof.
  revert st. induction items as [|i items IH]; intros st; simpl.
  - exists []. rewrite !app_nil_r. repeat split; done.
  - destruct (IH (one scheduledTime st i)) as (rs & Hreq & Hsent & Hnone).
    destruct (publishOne_cases scheduledTime i st)
      as [[Hsends Hone]|(Hsends & r & Hshape & Hone)].
    + exists rs. rewrite Hsends in *.
      destruct (Hnone eq_refl) as [-> Herr].
      split; [|split; [done|intros _; split; [done|]]].
      * rewrite Hreq, Hone. by run_fields.
      * rewrite Herr, Hone. run_fields. by rewrite <- app_assoc.
    + exists (r :: rs). rewrite Hsends in *.
      destruct (Hsent eq_refl) as [Hall Herr].
      split; [|split; [intros _; split|done]].
      * rewrite Hreq, Hone. destruct (rejected r); run_fields.
        -- by rewrite <- app_assoc.
        -- unfold keepActionId. destruct (keptActionId r); run_fields;
             by rewrite <- app_assoc.
      * by constructor.
      * rewrite Herr, Hone. unfold rejectedItems. simpl.
        destruct (rejected r) eqn:Hr; run_fields.
        -- by rewrite <- app_assoc.
        -- unfold keepActionId. destruct (keptActionId r); run_fields; done.
Qed.

(** *** The statuses *)

Lemma initial_Reported (scheduledTime : option string) :
  Reported information scheduledTime
    (initialPublisher information scheduledTime).
Proof.
  split; run_fields; try done.
  - intros [|k] s; simpl; [|done]. intros [= <-]. by run_fields.
  - intros [|j] [|k] s1 s2 Hjk; simpl; try done.
    by intros [= <-] [= <-].
Qed.

(** A state that handled one more item than [st] reports itself. *)
Lemma setStatus_Reported (scheduledTime : option string) (st X : Publisher) :
  Reported information scheduledTime st →
  statuses X = statuses st →
  pub_published X + pub_errors X = S (pub_published st + pub_errors st) →
  pub_published st ≤ pub_published X →
  pub_errors st ≤ pub_errors X →
  length (pub_errored X) = pub_errors X →
  pub_errored st `prefix_of` pub_errored X →
  pub_scheduledActionIds st `prefix_of` pub_scheduledActionIds X →
  Reported information scheduledTime (setStatus information scheduledTime X).
Proof.
  intros [Hlen Hlast Herrored Heach Hsorted] Hst Hsum Hp He Hl Hpre Hids.
  assert (∀ j s, statuses st !! j = Some s →
            status_published s ≤ pub_published X ∧
            status_errors s ≤ pub_errors X ∧
            status_errored s `prefix_of` pub_errored X ∧
            status_scheduledActionIds s `prefix_of` pub_scheduledActionIds X)
    as Hbelow.
  { intros j s Hj. rewrite last_lookup in Hlast.
    destruct (Hsorted j (pred (length (statuses st))) s _
                ltac:(apply lookup_lt_Some in Hj; lia) Hj Hlast)
      as (H1 & H2 & H3 & H4).
    run_fields. split; [lia|]. split; [lia|].
    split; etrans; eassumption. }
  split; run_fields; rewrite ?Hst.
  - rewrite length_app. simpl. lia.
  - by rewrite last_snoc.
  - done.
  - intros k s [Hk|[Hk Hs]]%lookup_app_Some; [by apply Heach|].
    destruct (k - length (statuses st)) as [|n] eqn:Hn; [|done].
    injection Hs as <-. run_fields. repeat split; try done. lia.
  - intros j k s1 s2 Hjk [Hj|[Hj Hs1]]%lookup_app_Some
      [Hk|[Hk Hs2]]%lookup_app_Some.
    + by eapply Hsorted.
    + destruct (k - length (statuses st)) as [|n] eqn:Hn; [|done].
      injection Hs2 as <-. run_fields. by eapply Hbelow.
    + apply lookup_lt_Some in Hk. lia.
    + destruct (j - length (statuses st)) as [|n] eqn:Hn; [|done].
      destruct (k - length (statuses st)) as [|m] eqn:Hm; [|done].
      injection Hs1 as <-. injection Hs2 as <-. done.
Qed.

Lemma publishOne_Reported (scheduledTime : option string) (i : Item)
    (st : Publisher) :
  Reported information scheduledTime st →
  Reported information scheduledTime (one scheduledTime st i).
Proof.
  intros Hst. pose proof (rep_errored _ _ _ Hst) as Hl.
  destruct (publishOne_cases scheduledTime i st)
    as [[_ ->]|(_ & r & _ & ->)]; [|destruct (rejected r)];
    apply (setStatus_Reported _ st); try done; run_fields;
    rewrite ?length_app; simpl; try lia;
    try (by apply prefix_app_r);
    unfold keepActionId; destruct (keptActionId r); run_fields;
    try done; try lia; by apply prefix_app_r.
Qed.

Lemma publishItems_Reported (scheduledTime : option string)
    (items : list Item) (st : Publisher) :
  Reported information scheduledTime st →
  Reported information scheduledTime (foldl (one scheduledTime) st items).
Proof.
  revert st. induction items as [|i items IH]; intros st Hst; simpl; [done|].
  by apply IH, publishOne_Reported.
Qed.

Lemma dependenciesDone_Reported (scheduledTime : option string) :
  Reported information scheduledTime
    (dependenciesDone Date_toISOString sdk information scheduledTime).
Proof.
  rewrite dependenciesDone_foldl.
  apply publishItems_Reported, initial_Reported.
Qed.

(** The step for the main entry passes no status on, and leaves the
    counter of the published items and the list of the failed ones as
    they are. *)
Lemma publishMain_frame (scheduledTime : option string) (st : Publisher) :
  let st' := publishMain Date_toISOString sdk scheduledTime st in
  statuses st' = statuses st ∧
  pub_published st' = pub_published st ∧
  pub_errored st' = pub_errored st.
Proof.
  unfold publishMain, schedulePublish.
  destruct (isScheduled scheduledTime && truthy_string scheduledTime).
  - destruct scheduledTime as [time|]; [|done].
    destruct (truthy_string (Some time)); [|done].
    destruct (Date_toISOString time) as [datetime|e]; [|done].
    destruct (cma_scheduledActions_create _ _ _ _ _ _ _) as [action|e];
      [|done].
    by destruct (createdActionId action).
  - by destruct (entry_publish sdk (requests st)) as [[]|e].
Qed.

Lemma doPublish_run_frame (scheduledTime : option string) :
  let deps := dependenciesDone Date_toISOString sdk information scheduledTime in
  let run := doPublish_run Date_toISOString sdk information scheduledTime in
  statuses run = statuses deps ∧
  pub_published run = pub_published deps ∧
  pub_errored run = pub_errored deps.
Proof.
  unfold doPublish_run. simpl. destruct (Nat.eqb _ 0); [|done].
  apply publishMain_frame.
Qed.

(** The request for the main entry, by the mode of the run. *)
Lemma publishMain_immediate (scheduledTime : option string) (st : Publisher) :
  isScheduled scheduledTime = false →
  ∃ res, requests (publishMain Date_toISOString sdk scheduledTime st) =
         requests st ++ [CurrentEntryPublish res].
Proof.
  intros Hmode. unfold publishMain. rewrite Hmode. simpl.
  destruct (entry_publish sdk (requests st)) as [[]|e];
    by eexists.
Qed.

Lemma publishMain_scheduled (time datetime : string) (st : Publisher) :
  time ≠ "" →
  Date_toISOString time = Returned datetime →
  ∃ r, scheduleRequest datetime Entry (entry_getSys sdk) r ∧
       requests (publishMain Date_toISOString sdk (Some time) st) =
       requests st ++ [r].
Proof.
  intros Htime Hdate.
  assert (truthy_string (Some time) = true) as Htruthy.
  { simpl. by destruct (String.eqb_spec time "") as [->|]. }
  unfold publishMain, schedulePublish, isScheduled.
  rewrite Htruthy, Hdate. simpl.
  destruct (cma_scheduledActions_create _ _ _ _ _ _ _) as [action|e].
  - eexists. split; [by eexists|]. by destruct (createdActionId action).
  - eexists. split; [by eexists|done].
Qed.

Lemma dependenciesDone_trace (scheduledTime : option string) :
  let deps := dependenciesDone Date_toISOString sdk information scheduledTime in
  (sends scheduledTime = true →
     Forall2 (requestShape Date_toISOString scheduledTime)
       (dependencies information) (requests deps) ∧
     pub_errored deps =
       rejectedItems (dependencies information) (requests deps)) ∧
  (sends scheduledTime = false →
     requests deps = [] ∧
     pub_errored deps = map itemSys (dependencies information)).
Proof.
  intros deps. unfold deps. rewrite dependenciesDone_foldl.
  destruct (publishItems_trace scheduledTime (dependencies information)
              (initialPublisher information scheduledTime))
    as (rs & Hreq & Hsent & Hnone).
  simpl in Hreq, Hsent, Hnone. rewrite Hreq. split.
  - intros Hsends. by destruct (Hsent Hsends).
  - intros Hsends. by destruct (Hnone Hsends) as [-> ?].
Qed.

(** Every request of a run is of the kind that goes with its mode. *)
Lemma doPublish_run_mode (scheduledTime : option string) :
  Forall (λ r, isImmediatePublish r = negb (isScheduled scheduledTime))
    (requests (doPublish_run Date_toISOString sdk information scheduledTime)).
Proof.
  destruct (dependenciesDone_extends Date_toISOString sdk information
              scheduledTime) as (ra & re & Hreq & Hfa & Hfe & _).
  simpl in Hreq.
  assert (Forall (λ r, isImmediatePublish r = negb (isScheduled scheduledTime))
            (ra ++ re)) as Hdeps.
  { apply Forall_app.
    split; (eapply Forall2_right; [|eassumption]);
      by intros sys r (_ & _ & Hr). }
  unfold doPublish_run. destruct (Nat.eqb _ 0); [|by rewrite Hreq].
  destruct (publishMain_extends Date_toISOString sdk scheduledTime
              (dependenciesDone Date_toISOString sdk information
                 scheduledTime)) as (rm & Hmreq & _ & Hmode & _).
  simpl in Hmreq. rewrite Hmreq, Hreq. apply Forall_app. by split.
Qed.

(** X1. The list [errored] of a run names the dependencies whose request
    was rejected, in the order in which they were processed; the main
    entry is never added to it. A run with a scheduled time that is no
    date sends no request and lists every dependency. *)
Theorem errored_lists_rejected_dependencies (scheduledTime : option string) :
  let deps := dependenciesDone Date_toISOString sdk information scheduledTime in
  let run := doPublish_run Date_toISOString sdk information scheduledTime in
  length (requests deps) =
    (if sends scheduledTime then length (dependencies information) else 0) ∧
  pub_errored run =
    (if sends scheduledTime
     then rejectedItems (dependencies information) (requests deps)
     else map itemSys (dependencies information)).
Proof.
  intros deps run.
  destruct (doPublish_run_frame scheduledTime) as (_ & _ & Heq).
  fold run deps in Heq. rewrite Heq.
  destruct (dependenciesDone_trace scheduledTime) as [Hsent Hnone].
  fold deps in Hsent, Hnone.
  destruct (sends scheduledTime).
  - destruct (Hsent eq_refl) as [Hall ->].
    by rewrite (Forall2_length _ _ _ Hall).
  - by destruct (Hnone eq_refl) as [-> ->].
Qed.

(** X2. A run passes one status on at its start and one after each
    dependency, and none for the main entry. The status at place [k],
    as it is when it is passed on, has the total of the run and
    [published + errors = k], lists as many failed items as it counts
    errors, and carries the mode and the time of the run; from one status
    to the next no counter goes down, and the lists of failed items and
    of action ids only grow. *)
Theorem one_status_per_dependency (scheduledTime : option string) :
  let run := doPublish_run Date_toISOString sdk information scheduledTime in
  length (statuses run) = S (publishTotal information) ∧
  (∀ k s,
     statuses run !! k = Some s →
     status_total s = publishTotal information ∧
     status_published s + status_errors s = k ∧
     length (status_errored s) = status_errors s ∧
     status_isScheduled s = isScheduled scheduledTime ∧
     status_scheduledTime s = scheduledTime) ∧
  (∀ j k s1 s2,
     j ≤ k → statuses run !! j = Some s1 → statuses run !! k = Some s2 →
     status_published s1 ≤ status_published s2 ∧
     status_errors s1 ≤ status_errors s2 ∧
     status_errored s1 `prefix_of` status_errored s2 ∧
     status_scheduledActionIds s1 `prefix_of` status_scheduledActionIds s2).
Proof.
  intros run.
  destruct (doPublish_run_frame scheduledTime) as (Hst & _ & _).
  fold run in Hst. rewrite Hst.
  destruct (dependenciesDone_Reported scheduledTime)
    as [Hlen _ _ Heach Hsorted].
  destruct (dependenciesDone_extends Date_toISOString sdk information
              scheduledTime) as (_ & _ & _ & _ & _ & _ & Htotal & _).
  simpl in Htotal. split; [|done]. by rewrite Hlen, Htotal.
Qed.

(** X3. The last status that a run passes on is the one after the last
    dependency: a failure of the main entry is counted by the run, and
    makes [doPublish] return false, but is not reported through
    [setStatus]. After dependencies without failure and a failed request
    for the main entry, the last status shows every item published and
    no error. *)
Theorem main_entry_failure_is_not_reported (scheduledTime : option string) :
  ∃ s,
    last (statuses
            (doPublish_run Date_toISOString sdk information scheduledTime)) =
      Some s ∧
    s = statusOf information scheduledTime
          (dependenciesDone Date_toISOString sdk information scheduledTime) ∧
    (pub_errors
       (dependenciesDone Date_toISOString sdk information scheduledTime) = 0 →
     doPublish Date_toISOString sdk information scheduledTime = false →
     pub_errors
       (doPublish_run Date_toISOString sdk information scheduledTime) = 1 ∧
     status_errors s = 0 ∧
     status_errored s = [] ∧
     status_published s = publishTotal information).
Proof.
  set (deps := dependenciesDone Date_toISOString sdk information scheduledTime).
  set (run := doPublish_run Date_toISOString sdk information scheduledTime).
  destruct (doPublish_run_frame scheduledTime) as (Hst & _ & _).
  fold run deps in Hst.
  destruct (dependenciesDone_Reported scheduledTime)
    as [_ Hlast Herrored _ _].
  fold deps in Hlast, Herrored.
  destruct (dependenciesDone_extends Date_toISOString sdk information
              scheduledTime) as (_ & _ & _ & _ & _ & _ & Htotal & _).
  simpl in Htotal. fold deps in Htotal.
  eexists. split; [by rewrite Hst|]. split; [done|].
  intros Hzero Hfalse. run_fields.
  split; [|split; [done|split]].
  - destruct (publishMain_extends Date_toISOString sdk scheduledTime deps)
      as (rm & _ & _ & _ & Hlen & Herr & _).
    simpl in Herr. unfold doPublish in Hfalse. fold run in Hfalse.
    apply Nat.eqb_neq in Hfalse.
    assert (run = publishMain Date_toISOString sdk scheduledTime deps)
      as Hrun.
    { unfold run, doPublish_run. fold deps. by rewrite Hzero. }
    rewrite Hrun in *. rewrite Herr, Hzero in *. unfold failures in *.
    destruct (sends scheduledTime); [|done].
    destruct rm as [|r [|]]; try discriminate Hlen. simpl in *.
    destruct (rejected r); simpl in *; [done|lia].
  - rewrite Hzero in Herrored. by destruct (pub_errored deps).
  - lia.
Qed.

(** X4. A run with a scheduled time that is no date sends no request at
    all: every dependency is counted and listed as failed, the attempt for
    the main entry of a run without dependencies fails in the same way,
    and [doPublish] returns false. *)
Theorem unreadable_schedule_time_sends_nothing (time : string) (e : JsError) :
  time ≠ "" →
  Date_toISOString time = Thrown e →
  requests (doPublish_run Date_toISOString sdk information (Some time)) = [] ∧
  pub_scheduledActionIds
    (doPublish_run Date_toISOString sdk information (Some time)) = [] ∧
  pub_published
    (doPublish_run Date_toISOString sdk information (Some time)) = 0 ∧
  pub_errored (doPublish_run Date_toISOString sdk information (Some time)) =
    map itemSys (dependencies information) ∧
  pub_errors (doPublish_run Date_toISOString sdk information (Some time)) =
    Nat.max 1 (publishTotal information) ∧
  doPublish Date_toISOString sdk information (Some time) = false.
Proof.
  intros Htime Hdate.
  assert (truthy_string (Some time) = true) as Htruthy.
  { simpl. by destruct (String.eqb_spec time "") as [->|]. }
  assert (sends (Some time) = false) as Hsends.
  { unfold sendsRequests. by rewrite Htruthy, Hdate. }
  set (deps := dependenciesDone Date_toISOString sdk information (Some time)).
  set (run := doPublish_run Date_toISOString sdk information (Some time)).
  destruct (dependenciesDone_extends Date_toISOString sdk information
              (Some time))
    as (ra & re & Hreq & Hfa & Hfe & Herr & Htotal & _ & Hids).
  rewrite Hsends in Hfa, Hfe.
  simpl in Hreq, Herr, Htotal, Hids.
  fold deps in Hreq, Herr, Htotal, Hids.
  inversion Hfa; inversion Hfe; subst ra re.
  unfold failures in Herr. rewrite Hsends in Herr.
  assert (pub_errors deps = publishTotal information) as Hall.
  { rewrite Herr. unfold publishTotal. rewrite !length_app. lia. }
  destruct (dependenciesDone_trace (Some time)) as [_ Hnone].
  destruct (Hnone Hsends) as [_ Herrored]. fold deps in Herrored.
  destruct (doPublish_run_frame (Some time)) as (_ & Hpub & Hsame).
  fold run deps in Hpub, Hsame. rewrite <- Hsame in Herrored.
  assert (requests run = [] ∧ pub_scheduledActionIds run = [] ∧
          pub_errors run = Nat.max 1 (publishTotal information)) as (? & ? & ?).
  { unfold run, doPublish_run. fold deps.
    destruct (Nat.eqb_spec (pub_errors deps) 0) as [Hzero|Hpos].
    - destruct (publishMain_extends Date_toISOString sdk (Some time) deps)
        as (rm & Hmreq & _ & _ & Hlen & Hmerr & Hmids).
      simpl in Hmreq, Hmerr, Hmids. rewrite Hsends in Hlen.
      destruct rm; [|done]. unfold failures in Hmerr.
      rewrite Hsends in Hmerr.
      rewrite Hmreq, Hmids, Hmerr, Hreq, Hids, Hzero, <- Hall, Hzero. done.
    - rewrite Hreq, Hids, <- Hall. repeat split; try done. lia. }
  repeat split; try done.
  - lia.
  - unfold doPublish. fold run. apply Nat.eqb_neq. lia.
Qed.

(** X5. In a run with a scheduled time every request creates a scheduled
    action for the time that the conversion of the text gives, in the
    space and the environment of the entity it names: one per dependency
    in the order of [dependencies], and after them, if no dependency
    failed, one for the entry that [getSys] describes. *)
Theorem scheduled_actions_carry_time_and_place (time datetime : string) :
  time ≠ "" →
  Date_toISOString time = Returned datetime →
  ∃ rd rm,
    requests (doPublish_run Date_toISOString sdk information (Some time)) =
      rd ++ rm ∧
    requests (dependenciesDone Date_toISOString sdk information (Some time)) =
      rd ∧
    Forall2 (λ i r, scheduleRequest datetime (itemKind i) (itemSys i) r)
      (dependencies information) rd ∧
    if Nat.eqb
         (pub_errors
            (dependenciesDone Date_toISOString sdk information (Some time))) 0
    then ∃ r, rm = [r] ∧ scheduleRequest datetime Entry (entry_getSys sdk) r
    else rm = [].
Proof.
  intros Htime Hdate.
  assert (truthy_string (Some time) = true) as Htruthy.
  { simpl. by destruct (String.eqb_spec time "") as [->|]. }
  assert (sends (Some time) = true) as Hsends.
  { unfold sendsRequests. by rewrite Htruthy, Hdate. }
  destruct (publishItems_trace (Some time) (dependencies information)
              (initialPublisher information (Some time)))
    as (rd & Hreq & Hsent & _).
  rewrite <- dependenciesDone_foldl in Hreq. simpl in Hreq.
  destruct (Hsent Hsends) as [Hall _].
  assert (Forall2 (λ i r, scheduleRequest datetime (itemKind i) (itemSys i) r)
            (dependencies information) rd) as Hshape.
  { eapply Forall2_impl; [exact Hall|].
    intros i r. unfold requestShape, isScheduled. rewrite Htruthy.
    intros (t & d & [= <-] & Hd & Hr). congruence. }
  unfold doPublish_run.
  destruct (Nat.eqb _ 0).
  - destruct (publishMain_scheduled time datetime
                (dependenciesDone Date_toISOString sdk information (Some time))
                Htime Hdate) as (r & Hr & Hmain).
    exists rd, [r]. rewrite Hmain, Hreq. repeat split; try done.
    by exists r.
  - exists rd, []. by rewrite app_nil_r.
Qed.

(** X6. In a run without a scheduled time, the empty text counting as
    none, every request for a dependency is an immediate publication of
    the asset or entry of that id with the collected snapshot of the item
    as its payload, in the order of [dependencies]; after them, if no
    dependency failed, the current entry is published through the entry
    interface of the editor, and nothing else is sent. *)
Theorem immediate_requests_carry_snapshots (scheduledTime : option string) :
  isScheduled scheduledTime = false →
  ∃ rd rm,
    requests (doPublish_run Date_toISOString sdk information scheduledTime) =
      rd ++ rm ∧
    requests (dependenciesDone Date_toISOString sdk information scheduledTime) =
      rd ∧
    Forall2 immediateRequest (dependencies information) rd ∧
    if Nat.eqb
         (pub_errors
            (dependenciesDone Date_toISOString sdk information scheduledTime)) 0
    then ∃ res, rm = [CurrentEntryPublish res]
    else rm = [].
Proof.
  intros Hmode.
  assert (sends scheduledTime = true) as Hsends.
  { destruct (mode_cases Date_toISOString scheduledTime)
      as [[_ ?]|[(? & ? & _ & _ & _ & ? & _)|(? & ? & _ & _ & _ & ? & _)]];
      congruence. }
  destruct (publishItems_trace scheduledTime (dependencies information)
              (initialPublisher information scheduledTime))
    as (rd & Hreq & Hsent & _).
  rewrite <- dependenciesDone_foldl in Hreq. simpl in Hreq.
  destruct (Hsent Hsends) as [Hall _].
  assert (Forall2 immediateRequest (dependencies information) rd) as Hshape.
  { eapply Forall2_impl; [exact Hall|].
    intros i r. unfold requestShape. by rewrite Hmode. }
  unfold doPublish_run.
  destruct (Nat.eqb _ 0).
  - destruct (publishMain_immediate scheduledTime
                (dependenciesDone Date_toISOString sdk information
                   scheduledTime) Hmode) as (res & Hmain).
    exists rd, [CurrentEntryPublish res]. rewrite Hmain, Hreq.
    repeat split; try done. by exists res.
  - exists rd, []. by rewrite app_nil_r.
Qed.

End DoPublishSteps.

(** The publication of the current entry is rejected after four
    dependencies without failure: the last status shows four of four
    published and no error, and [doPublish] returns false. *)
Lemma main_entry_failure_is_not_reported_witness :
  doPublish toISOString lockedRoot pendingInformation None = false ∧
  ∃ s,
    last (statuses (doPublish_run toISOString lockedRoot pendingInformation
                      None)) = Some s ∧
    status_errors s = 0 ∧ status_published s = 4.
Proof.
  destruct (main_entry_failure_is_not_reported toISOString lockedRoot
              pendingInformation None) as (s & Hlast & _ & Hquiet).
  split; [reflexivity|]. exists s. split; [exact Hlast|].
  destruct Hquiet as (_ & Herrors & _ & Hpublished);
    [reflexivity|reflexivity|].
  split; [exact Herrors|exact Hpublished].
Defined.

(** The text ["soon"] is no date: nothing is sent, and the four
    dependencies are counted as failed. *)
Lemma unreadable_schedule_time_sends_nothing_witness :
  requests (doPublish_run toISOString (repository []) pendingInformation
              (Some "soon")) = [] ∧
  pub_scheduledActionIds
    (doPublish_run toISOString (repository []) pendingInformation
       (Some "soon")) = [] ∧
  pub_published
    (doPublish_run toISOString (repository []) pendingInformation
       (Some "soon")) = 0 ∧
  pub_errored
    (doPublish_run toISOString (repository []) pendingInformation
       (Some "soon")) = map itemSys (dependencies pendingInformation) ∧
  pub_errors
    (doPublish_run toISOString (repository []) pendingInformation
       (Some "soon")) = Nat.max 1 (publishTotal pendingInformation) ∧
  doPublish toISOString (repository []) pendingInformation (Some "soon") =
    false.
Proof.
  apply (unreadable_schedule_time_sends_nothing toISOString (repository [])
           pendingInformation "soon" "RangeError: Invalid time value").
  - discriminate.
  - reflexivity.
Defined.

(** Four dependencies and the main entry, scheduled for ten o'clock. *)
Lemma scheduled_actions_carry_time_and_place_witness :
  ∃ rd rm,
    requests (doPublish_run toISOString (repository []) pendingInformation
                (Some "2030-01-01T10:00")) = rd ++ rm ∧
    requests (dependenciesDone toISOString (repository []) pendingInformation
                (Some "2030-01-01T10:00")) = rd ∧
    Forall2
      (λ i r, scheduleRequest "2030-01-01T10:00:00.000Z" (itemKind i)
                (itemSys i) r)
      (dependencies pendingInformation) rd ∧
    if Nat.eqb
         (pub_errors
            (dependenciesDone toISOString (repository []) pendingInformation
               (Some "2030-01-01T10:00"))) 0
    then ∃ r, rm = [r] ∧
              scheduleRequest "2030-01-01T10:00:00.000Z" Entry
                (entry_getSys (repository [])) r
    else rm = [].
Proof.
  apply (scheduled_actions_carry_time_and_place toISOString (repository [])
           pendingInformation "2030-01-01T10:00" "2030-01-01T10:00:00.000Z").
  - discriminate.
  - reflexivity.
Defined.

(** A run whose scheduled time is the empty text publishes at once. *)
Lemma immediate_requests_carry_snapshots_witness :
  ∃ rd rm,
    requests (doPublish_run toISOString (repository []) pendingInformation
                (Some "")) = rd ++ rm ∧
    requests (dependenciesDone toISOString (repository []) pendingInformation
                (Some "")) = rd ∧
    Forall2 immediateRequest (dependencies pendingInformation) rd ∧
    if Nat.eqb
         (pub_errors
            (dependenciesDone toISOString (repository []) pendingInformation
               (Some ""))) 0
    then ∃ res, rm = [CurrentEntryPublish res]
    else rm = [].
Proof.
  apply (immediate_requests_carry_snapshots toISOString (repository [])
           pendingInformation (Some "")).
  reflexivity.
Defined.

(** ** Status classifier: the pending lists and the publish actions *)

Lemma isDraft_iff (sys : EntityMetaSysProps) :
  isDraft sys = true ↔ lifecycleState sys = Draft.
Proof.
  unfold isDraft, lifecycleState.
  destruct (sys_publishedVersion sys) as [[|pv]|]; simpl; try done.
  destruct (S (pv + 1) <? sys_version sys)%nat; split; done.
Qed.

Lemma isUpdated_iff (sys : EntityMetaSysProps) :
  isUpdated sys = true ↔ lifecycleState sys = Updated.
Proof.
  unfold isUpdated, lifecycleState.
  destruct (sys_publishedVersion sys) as [[|pv]|]; simpl; try done.
  destruct (S (pv + 1) <? sys_version sys)%nat; split; done.
Qed.

Lemma pending_iff (sys : EntityMetaSysProps) :
  isDraft sys || isUpdated sys = true ↔ lifecycleState sys ≠ Published.
Proof.
  rewrite orb_true_iff, isDraft_iff, isUpdated_iff.
  destruct (lifecycleState sys); split; intros H; try done; auto.
  by destruct H.
Qed.

Lemma filter_disjoint_length {A : Type} (f g : A → bool) (l : list A) :
  (∀ x, f x = true → g x = true → False) →
  length (List.filter f l) + length (List.filter g l) +
  length (List.filter (λ x, negb (f x) && negb (g x)) l) = length l.
Proof.
  intros Hfg. induction l as [|x l IH]; simpl; [done|].
  destruct (f x) eqn:Hf, (g x) eqn:Hg; simpl; try lia.
  destruct (Hfg x Hf Hg).
Qed.

Lemma elem_of_filter_iff {A : Type} (f : A → bool) (l : list A) (x : A) :
  x ∈ List.filter f l ↔ x ∈ l ∧ f x = true.
Proof. by rewrite !list_elem_of_In, filter_In. Qed.

Lemma sublist_List_filter {A : Type} (f : A → bool) (l : list A) :
  List.filter f l `sublist_of` l.
Proof.
  induction l as [|x l IH]; simpl; [done|].
  destruct (f x); [by apply sublist_skip | by apply sublist_cons].
Qed.

(** X7. The classifier sorts the snapshots of a universe by their
    lifecycle state: the draft list holds the drafts of the universe and
    the updated list the updated ones, in the order of the universe; no
    snapshot is in both, and one that is published and unchanged is in
    neither, so the two counts and the number of published snapshots add
    up to the count of the universe. The errors are counted as they
    are. *)
Theorem pending_lists_sort_the_universe
    (root : EntityMetaSysProps) (u : IAllReferences) :
  let information := buildReferenceInformation root u in
  (∀ e, e ∈ draftEntries information ↔
        e ∈ entries u ∧ lifecycleState (entry_sys e) = Draft) ∧
  (∀ e, e ∈ updatedEntries information ↔
        e ∈ entries u ∧ lifecycleState (entry_sys e) = Updated) ∧
  (∀ a, a ∈ draftAssets information ↔
        a ∈ assets u ∧ lifecycleState (asset_sys a) = Draft) ∧
  (∀ a, a ∈ updatedAssets information ↔
        a ∈ assets u ∧ lifecycleState (asset_sys a) = Updated) ∧
  draftEntries information `sublist_of` entries u ∧
  updatedEntries information `sublist_of` entries u ∧
  draftAssets information `sublist_of` assets u ∧
  updatedAssets information `sublist_of` assets u ∧
  draftEntryCount information + updatedEntryCount information +
    length (List.filter
              (λ e, isPublished (entry_sys e) && negb (isUpdated (entry_sys e)))
              (entries u)) = entryCount information ∧
  draftAssetCount information + updatedAssetCount information +
    length (List.filter
              (λ a, isPublished (asset_sys a) && negb (isUpdated (asset_sys a)))
              (assets u)) = assetCount information ∧
  errorCount information = length (errors u) ∧
  publishNeedCount information = publishTotal information.
Proof.
  assert (∀ {A : Type} (sysOf : A → EntityMetaSysProps) (l : list A),
            length (List.filter (λ x, isDraft (sysOf x)) l) +
            length (List.filter (λ x, isUpdated (sysOf x)) l) +
            length (List.filter
                      (λ x, isPublished (sysOf x) && negb (isUpdated (sysOf x)))
                      l) = length l) as Hcount.
  { intros A sysOf l.
    rewrite <- (filter_disjoint_length (λ x, isDraft (sysOf x))
                  (λ x, isUpdated (sysOf x)) l).
    - f_equal. f_equal. apply filter_ext. intros x.
      unfold isDraft, isPublished. by rewrite negb_involutive.
    - intros x Hd%isDraft_iff Hu%isUpdated_iff. congruence. }
  assert (∀ {A : Type} (sysOf : A → EntityMetaSysProps) (l : list A) x,
            x ∈ List.filter (λ x, isDraft (sysOf x)) l ↔
            x ∈ l ∧ lifecycleState (sysOf x) = Draft) as Hdraft.
  { intros A sysOf l x. by rewrite elem_of_filter_iff, isDraft_iff. }
  assert (∀ {A : Type} (sysOf : A → EntityMetaSysProps) (l : list A) x,
            x ∈ List.filter (λ x, isUpdated (sysOf x)) l ↔
            x ∈ l ∧ lifecycleState (sysOf x) = Updated) as Hupdated.
  { intros A sysOf l x. by rewrite elem_of_filter_iff, isUpdated_iff. }
  intros information. subst information. simpl.
  split; [intros e; apply (Hdraft _ entry_sys)|].
  split; [intros e; apply (Hupdated _ entry_sys)|].
  split; [intros a; apply (Hdraft _ asset_sys)|].
  split; [intros a; apply (Hupdated _ asset_sys)|].
  split; [apply sublist_List_filter|].
  split; [apply sublist_List_filter|].
  split; [apply sublist_List_filter|].
  split; [apply sublist_List_filter|].
  split; [apply (Hcount _ entry_sys)|].
  split; [apply (Hcount _ asset_sys)|].
  split; [done|].
  unfold publishNeedCount, publishTotal. simpl. lia.
Qed.

Lemma pending_count_iff (root : EntityMetaSysProps) (u : IAllReferences) :
  (0 <? publishNeedCount (buildReferenceInformation root u))%nat = true ↔
  ∃ dep, dep ∈ universe_sys u ∧ lifecycleState dep ≠ Published.
Proof.
  unfold publishNeedCount, universe_sys. simpl.
  assert (∀ a b c d : nat,
            (0 <? a + b + c + d)%nat = true ↔
            ((0 <? c)%nat = true ∨ (0 <? d)%nat = true) ∨
            ((0 <? a)%nat = true ∨ (0 <? b)%nat = true)) as ->.
  { intros a b c d. rewrite !Nat.ltb_lt. lia. }
  rewrite !filter_nonempty_iff. split.
  - intros [[(a & Ha & Hf)|(a & Ha & Hf)]|[(e & He & Hf)|(e & He & Hf)]].
    + exists (asset_sys a). split.
      * apply elem_of_app. left. by apply list_elem_of_fmap_2.
      * apply pending_iff. by rewrite Hf.
    + exists (asset_sys a). split.
      * apply elem_of_app. left. by apply list_elem_of_fmap_2.
      * apply pending_iff. by rewrite Hf, orb_true_r.
    + exists (entry_sys e). split.
      * apply elem_of_app. right. by apply list_elem_of_fmap_2.
      * apply pending_iff. by rewrite Hf.
    + exists (entry_sys e). split.
      * apply elem_of_app. right. by apply list_elem_of_fmap_2.
      * apply pending_iff. by rewrite Hf, orb_true_r.
  - intros (dep & Hdep & Hpending%pending_iff).
    apply orb_true_iff in Hpending.
    apply elem_of_app in Hdep as [Hdep|Hdep];
      apply list_elem_of_fmap in Hdep as (x & -> & Hx);
      destruct Hpending; eauto 6.
Qed.

(** X8. The sidebar offers the publish actions exactly when the
    collection recorded no error and there is something to publish: the
    root is not in the state Published, or a snapshot of the universe was
    published later than the root, or a snapshot of the universe is draft
    or updated. The root's timestamp, when there is one, is not the empty
    text. *)
Theorem publish_offered_iff (root : EntityMetaSysProps) (u : IAllReferences) :
  sys_publishedAt root ≠ Some "" →
  publishNeeded (buildReferenceInformation root u) = true ↔
  errors u = [] ∧
  (lifecycleState root ≠ Published ∨
   (∃ dep, dep ∈ universe_sys u ∧ publishedLaterThan root dep) ∨
   (∃ dep, dep ∈ universe_sys u ∧ lifecycleState dep ≠ Published)).
Proof.
  intros Hwf. unfold publishNeeded.
  rewrite andb_true_iff, orb_true_iff, andb_true_iff, pending_count_iff.
  change (errorCount (buildReferenceInformation root u))
    with (length (errors u)).
  change (published (buildReferenceInformation root u))
    with (isPublished root && negb (isUpdated root) &&
          negb (isOutOfDate (sys_publishedAt root) u)).
  rewrite Nat.eqb_eq, length_zero_iff_nil.
  rewrite negb_true_iff, andb_false_iff, negb_false_iff, isOutOfDate_iff.
  rewrite <- not_true_iff_false, lifecycle_Published_iff.
  assert ((∃ dep, dep ∈ universe_sys u ∧
             publishedAfter (sys_publishedAt root) dep = true) ↔
          (∃ dep, dep ∈ universe_sys u ∧ publishedLaterThan root dep)) as ->.
  { split; intros (dep & Hdep & H); exists dep; (split; [done|]);
      by apply publishedAfter_spec. }
  tauto.
Qed.

(** The root published at T=100 with the asset published at T=150: no
    snapshot is draft or updated, and the publish actions are offered. *)
Lemma publish_offered_iff_witness :
  publishNeedCount (buildReferenceInformation root100 universe150) = 0 ∧
  publishNeeded (buildReferenceInformation root100 universe150) = true.
Proof.
  split; [reflexivity|].
  apply (publish_offered_iff root100 universe150); [discriminate|].
  split; [reflexivity|]. right. left.
  exists (asset_sys asset150). split.
  - apply list_elem_of_here.
  - exists "100", "150". repeat split; reflexivity.
Defined.

(** ** The link to a failed item *)

Lemma append_nil_l (x : string) : String.append "" x = x.
Proof. reflexivity. Qed.

Lemma append_cons (c : Ascii.ascii) (a x : string) :
  String.append (String c a) x = String c (String.append a x).
Proof. reflexivity. Qed.

Lemma append_inj_l (p a b : string) :
  String.append p a = String.append p b → a = b.
Proof.
  induction p as [|c p IH]; rewrite ?append_cons, ?append_nil_l; [done|].
  intros [= H]. by apply IH.
Qed.

(** A text without slash, followed by a slash, ends where the slash is. *)
Lemma append_slash_inj (a b x y : string) :
  slashFree a = true → slashFree b = true →
  String.append a (String.append "/" x) =
  String.append b (String.append "/" y) →
  a = b ∧ x = y.
Proof.
  revert b. induction a as [|c a IH]; intros [|d b] Ha Hb; simpl in *;
    rewrite ?append_cons, ?append_nil_l.
  - by intros [= ->].
  - intros [= <- _]. by vm_compute in Hb.
  - intros [= -> _]. by vm_compute in Ha.
  - apply andb_true_iff in Ha as [_ Ha]. apply andb_true_iff in Hb as [_ Hb].
    intros [= <- Heq]. destruct (IH b Ha Hb Heq) as [-> ->]. done.
Qed.

(** X9. The link to an item in the web application names the space, the
    kind and the id of the item: two items with the same link lie in the
    same space and have the same kind and the same id, the ids of spaces
    holding no slash. An asset is linked under [assets], an entry under
    [entries]. *)
Theorem editor_links_tell_items_apart (s1 s2 : EntityMetaSysProps) :
  slashFree (sys_space s1) = true →
  slashFree (sys_space s2) = true →
  getEditorEntry s1 = getEditorEntry s2 →
  sys_space s1 = sys_space s2 ∧
  sys_type s1 = sys_type s2 ∧
  sys_id s1 = sys_id s2.
Proof.
  intros H1 H2 Heq. unfold getEditorEntry in Heq.
  apply append_inj_l in Heq.
  apply append_slash_inj in Heq as [Hspace Hrest]; [|done..].
  split; [done|].
  destruct (sys_type s1), (sys_type s2);
    rewrite ?append_cons, ?append_nil_l in Hrest;
    try discriminate Hrest; injection Hrest as ->; done.
Qed.

(** An asset and an entry of the same id in the same space have
    different links. *)
Lemma editor_links_tell_items_apart_witness :
  getEditorEntry (sysOf "x" Asset 1 None None) ≠
  getEditorEntry (sysOf "x" Entry 1 None None).
Proof.
  intros Heq.
  apply (editor_links_tell_items_apart (sysOf "x" Asset 1 None None)
           (sysOf "x" Entry 1 None None)) in Heq as (_ & Htype & _);
    [discriminate Htype|reflexivity|reflexivity].
Defined.

(** ** The classification and the order of the universe *)

Lemma List_filter_Permutation {A : Type} (f : A → bool) (l l' : list A) :
  l ≡ₚ l' → List.filter f l ≡ₚ List.filter f l'.
Proof.
  induction 1 as [|x l l' _ IH|x y l|l1 l2 l3 _ IH1 _ IH2]; simpl.
  - done.
  - destruct (f x); [by constructor|done].
  - destruct (f x), (f y); try done. apply perm_swap.
  - by etrans.
Qed.

(** X10. The classification does not depend on the order in which the
    traversal met the snapshots: two universes with the same entries and
    the same assets, in any order, and the same errors give the same
    verdict on the root, the same counts, the same pending items up to
    order, and the same answer to whether publishing is offered. *)
Theorem classification_ignores_order
    (root : EntityMetaSysProps) (u u' : IAllReferences) :
  entries u ≡ₚ entries u' →
  assets u ≡ₚ assets u' →
  errors u = errors u' →
  published (buildReferenceInformation root u) =
    published (buildReferenceInformation root u') ∧
  errorCount (buildReferenceInformation root u) =
    errorCount (buildReferenceInformation root u') ∧
  entryCount (buildReferenceInformation root u) =
    entryCount (buildReferenceInformation root u') ∧
  assetCount (buildReferenceInformation root u) =
    assetCount (buildReferenceInformation root u') ∧
  draftEntries (buildReferenceInformation root u) ≡ₚ
    draftEntries (buildReferenceInformation root u') ∧
  updatedEntries (buildReferenceInformation root u) ≡ₚ
    updatedEntries (buildReferenceInformation root u') ∧
  draftAssets (buildReferenceInformation root u) ≡ₚ
    draftAssets (buildReferenceInformation root u') ∧
  updatedAssets (buildReferenceInformation root u) ≡ₚ
    updatedAssets (buildReferenceInformation root u') ∧
  publishNeedCount (buildReferenceInformation root u) =
    publishNeedCount (buildReferenceInformation root u') ∧
  publishNeeded (buildReferenceInformation root u) =
    publishNeeded (buildReferenceInformation root u').
Proof.
  intros Hentries Hassets Herrors.
  assert (∀ f, length (List.filter f (entries u)) =
               length (List.filter f (entries u'))) as He.
  { intros f. by apply Permutation_length, List_filter_Permutation. }
  assert (∀ f, length (List.filter f (assets u)) =
               length (List.filter f (assets u'))) as Ha.
  { intros f. by apply Permutation_length, List_filter_Permutation. }
  assert (published (buildReferenceInformation root u) =
          published (buildReferenceInformation root u')) as Hpublished.
  { cbn [published buildReferenceInformation]. unfold isOutOfDate.
    by rewrite He, Ha. }
  assert (publishNeedCount (buildReferenceInformation root u) =
          publishNeedCount (buildReferenceInformation root u')) as Hcount.
  { unfold publishNeedCount.
    cbn [draftEntryCount updatedEntryCount draftAssetCount updatedAssetCount
         buildReferenceInformation].
    by rewrite !He, !Ha. }
  split; [done|].
  split; [cbn [errorCount buildReferenceInformation]; by rewrite Herrors|].
  split; [by apply Permutation_length|].
  split; [by apply Permutation_length|].
  split; [by apply List_filter_Permutation|].
  split; [by apply List_filter_Permutation|].
  split; [by apply List_filter_Permutation|].
  split; [by apply List_filter_Permutation|].
  split; [done|].
  unfold publishNeeded. rewrite Hpublished, Hcount.
  cbn [errorCount buildReferenceInformation]. by rewrite Herrors.
Qed.

(** The four pending dependencies, met in the opposite order. *)
Lemma classification_ignores_order_witness :
  publishNeedCount (buildReferenceInformation rootUndated pending) =
    publishNeedCount (buildReferenceInformation rootUndated pendingReversed) ∧
  publishNeeded (buildReferenceInformation rootUndated pending) =
    publishNeeded (buildReferenceInformation rootUndated pendingReversed).
Proof.
  destruct (classification_ignores_order rootUndated pending pendingReversed)
    as (_ & _ & _ & _ & _ & _ & _ & _ & Hcount & Hneeded).
  - apply perm_swap.
  - apply perm_swap.
  - reflexivity.
  - split; [exact Hcount|exact Hneeded].
Defined.

(** ** Reference collector: the result in terms of the requests *)

Lemma sum_list_app (l k : list nat) :
  sum_list (l ++ k) = sum_list l + sum_list k.
Proof. induction l as [|x l IH]; simpl; lia. Qed.

Lemma addNew_app {A : Type} (key : A → string) (acc l k : list A) :
  addNew key acc (l ++ k) = addNew key (addNew key acc l) k.
Proof. apply foldl_app. Qed.

Lemma addNew_cons {A : Type} (key : A → string) (acc l : list A) (x : A) :
  addNew key acc (x :: l) = addNew key (addNew key acc [x]) l.
Proof. reflexivity. Qed.

Lemma addNew_old {A : Type} (key : A → string) (acc : list A) (x : A) :
  key x ∈ map key acc → addNew key acc [x] = acc.
Proof. intros Hin. unfold addNew. simpl. by rewrite decide_True. Qed.

Lemma addNew_new {A : Type} (key : A → string) (acc : list A) (x : A) :
  key x ∉ map key acc → addNew key acc [x] = acc ++ [x].
Proof. intros Hin. unfold addNew. simpl. by rewrite decide_False. Qed.

Lemma quiet_refl (st : Collector) : quiet st st.
Proof. by split. Qed.

Lemma quiet_trans (st1 st2 st3 : Collector) :
  quiet st1 st2 → quiet st2 st3 → quiet st1 st3.
Proof. intros [] []. split; try congruence. by etrans. Qed.

Section Ledgers.

Variable sdk : ReferenceStore.
Variable root : string.

(** The ids queued are those requested and those in the queue. *)
Lemma Inv_queued_list (st : Collector) (i : string) :
  Inv sdk root st →
  i ∈ entriesQueued st ↔ i ∈ fetches (events st) ++ entriesToProcess st.
Proof.
  intros HInv.
  by rewrite (inv_queued _ _ _ HInv), (inv_fetches _ _ _ HInv), elem_of_app.
Qed.

(** The body of the loop over the assets, for an asset that it gets to
    handle. *)
Lemma processAsset_ledger (asset : AssetProps) (st : Collector) :
  Inv sdk root st →
  describeAsset asset = Returned () →
  let st' := (processAsset asset st).1 in
  quiet st st' ∧
  assets (allReferences st') =
    addNew asset_id (assets (allReferences st)) [asset] ∧
  entries (allReferences st') = entries (allReferences st) ∧
  entriesToProcess st' = entriesToProcess st ∧
  events st' = events st.
Proof.
  intros HInv Hdescribed. unfold processAsset. rewrite Hdescribed.
  cbn [fst].
  destruct (decide (asset_id asset ∈ trackedAssetIds st)) as [Hin|Hnew].
  - split; [apply quiet_refl|]. split; [|done].
    symmetry. apply addNew_old. by apply (inv_assets_tracked _ _ _ HInv).
  - split; [by split|]. split; [|done]. fields.
    symmetry. apply addNew_new.
    by rewrite <- (inv_assets_tracked _ _ _ HInv).
Qed.

(** The loop over the assets of the response to [cur]. *)
Lemma processAssets_ledger (cur : string) (l : list AssetProps)
    (st : Collector) :
  Inv sdk root st →
  cur ∈ processedEntryIds (allReferences st) →
  (∀ asset, asset ∈ l → listsAsset sdk cur asset) →
  let r := forEach processAsset l st in
  quiet st r.1 ∧
  assets (allReferences r.1) =
    addNew asset_id (assets (allReferences st)) (handled describeAsset l) ∧
  entries (allReferences r.1) = entries (allReferences st) ∧
  entriesToProcess r.1 = entriesToProcess st ∧
  events r.1 = events st ∧
  r.2 = match firstThrow describeAsset l with
        | Some e => Thrown e
        | None => Returned ()
        end.
Proof.
  revert st. induction l as [|a l IH]; intros st HInv Hcur Hlists.
  { simpl. split; [apply quiet_refl|done]. }
  cbn [forEach handled firstThrow].
  destruct (processAsset_spec sdk root cur a st HInv Hcur)
    as (H1 & H2 & _ & H4).
  { apply Hlists. by left. }
  destruct (describeAsset a) as [[]|err] eqn:Hdescribed.
  - destruct (processAsset_ledger a st HInv Hdescribed)
      as (Hq1 & Ha1 & He1 & Hqueue1 & Hev1).
    destruct H4 as (Hret & _); [done|].
    destruct (processAsset a st) as [st1 c] eqn:Hstep.
    cbn [fst snd] in *. subst c.
    destruct (IH st1 H1) as (Hq & Ha & He & Hqueue & Hev & Hc).
    { by rewrite (std_processedIds _ _ H2). }
    { intros ? ?. apply Hlists. by right. }
    split; [by eapply quiet_trans|].
    split; [by rewrite Ha, Ha1, <- addNew_cons|].
    split; [congruence|]. split; [congruence|]. split; [congruence|done].
  - unfold processAsset. rewrite Hdescribed. cbn [fst snd].
    split; [apply quiet_refl|done].
Qed.

(** The body of the loop over the entries, for an entry that it gets to
    handle. *)
Lemma processEntry_ledger (cur : string) (entry : EntryProps)
    (st : Collector) :
  Inv sdk root st →
  describeEntry entry = Returned () →
  let st' := (processEntry entry st).1 in
  quiet st st' ∧
  assets (allReferences st') = assets (allReferences st) ∧
  entries (allReferences st') =
    addNew entry_id (entries (allReferences st)) [entry] ∧
  fetches (events st') ++ entriesToProcess st' =
    addNew id (fetches (events st) ++ entriesToProcess st)
      (map entry_id
         (List.filter (λ entry, negb (excluded (entry_contentType entry)))
            [entry])).
Proof.
  intros HInv Hdescribed. unfold processEntry. rewrite Hdescribed.
  set (st1 := if decide (entry_id entry ∈ trackedEntryIds st) then st
              else pushEntry entry st).
  assert (quiet st st1 ∧
          assets (allReferences st1) = assets (allReferences st) ∧
          entries (allReferences st1) =
            addNew entry_id (entries (allReferences st)) [entry] ∧
          entriesToProcess st1 = entriesToProcess st ∧
          events st1 = events st ∧
          entriesQueued st1 = entriesQueued st)
    as (Hq1 & Ha1 & He1 & Hqueue1 & Hev1 & Hqd1).
  { unfold st1.
    destruct (decide (entry_id entry ∈ trackedEntryIds st)) as [Hin|Hnew].
    - split; [apply quiet_refl|]. split; [done|]. split; [|done].
      symmetry. apply addNew_old. by apply (inv_entries_tracked _ _ _ HInv).
    - split; [by split|]. split; [done|]. split; [|done]. fields.
      symmetry. apply addNew_new.
      by rewrite <- (inv_entries_tracked _ _ _ HInv). }
  cbn [List.filter].
  destruct (excluded (entry_contentType entry)); cbn [negb andb fst map].
  { rewrite Hev1, Hqueue1. by splits. }
  destruct (bool_decide (entry_id entry ∈ entriesQueued st1)) eqn:Hq;
    cbn [negb fst].
  - apply bool_decide_eq_true in Hq. rewrite Hqd1 in Hq.
    rewrite Hev1, Hqueue1. splits; try done. symmetry.
    apply addNew_old. rewrite map_id. by apply Inv_queued_list.
  - apply bool_decide_eq_false in Hq. rewrite Hqd1 in Hq.
    split; [|split; [done|split; [done|]]].
    + eapply quiet_trans; [done|]. split; fields; try done.
      * by rewrite fetches_app, app_nil_r.
      * by apply prefix_app_r.
    + fields. rewrite fetches_app, app_nil_r, Hev1, Hqueue1, app_assoc.
      symmetry. apply addNew_new. rewrite map_id.
      by rewrite <- Inv_queued_list.
Qed.

(** The loop over the entries of the response to [cur]. *)
Lemma processEntries_ledger (cur : string) (l : list EntryProps)
    (st : Collector) :
  Inv sdk root st →
  cur ∈ processedEntryIds (allReferences st) →
  (∀ entry, entry ∈ l → listsEntry sdk cur entry) →
  let r := forEach processEntry l st in
  quiet st r.1 ∧
  assets (allReferences r.1) = assets (allReferences st) ∧
  entries (allReferences r.1) =
    addNew entry_id (entries (allReferences st)) (handled describeEntry l) ∧
  fetches (events r.1) ++ entriesToProcess r.1 =
    addNew id (fetches (events st) ++ entriesToProcess st)
      (map entry_id
         (List.filter (λ entry, negb (excluded (entry_contentType entry)))
            (handled describeEntry l))) ∧
  r.2 = match firstThrow describeEntry l with
        | Some e => Thrown e
        | None => Returned ()
        end.
Proof.
  revert st. induction l as [|e l IH]; intros st HInv Hcur Hlists.
  { simpl. split; [apply quiet_refl|done]. }
  cbn [forEach handled firstThrow].
  destruct (processEntry_spec sdk root cur e st HInv Hcur)
    as (H1 & H2 & _ & H4).
  { apply Hlists. by left. }
  destruct (describeEntry e) as [[]|err] eqn:Hdescribed.
  - destruct (processEntry_ledger cur e st HInv Hdescribed)
      as (Hq1 & Ha1 & He1 & Hqueue1).
    destruct H4 as (Hret & _); [done|].
    destruct (processEntry e st) as [st1 c] eqn:Hstep.
    cbn [fst snd] in *. subst c.
    destruct (IH st1 H1) as (Hq & Ha & He & Hqueue & Hc).
    { by rewrite (std_processedIds _ _ H2). }
    { intros ? ?. apply Hlists. by right. }
    split; [by eapply quiet_trans|].
    split; [congruence|].
    split; [by rewrite He, He1, <- addNew_cons|].
    split; [|done].
    rewrite Hqueue, Hqueue1.
    change (e :: handled describeEntry l)
      with ([e] ++ handled describeEntry l).
    by rewrite List.filter_app, map_app, addNew_app.
  - unfold processEntry. rewrite Hdescribed. cbn [fst snd].
    split; [apply quiet_refl|done].
Qed.

(** The handling of the response to [cur]. *)
Lemma absorb_ledger (cur : string) (references : EntryReferenceProps)
    (st : Collector) :
  Inv sdk root st →
  cur ∈ processedEntryIds (allReferences st) →
  sdk !! cur = Some (Fulfilled (Some references)) →
  let r := absorb references st in
  errors (allReferences r.1) =
    errors (allReferences st) ++ default [] (references_errors references) ∧
  processed r.1 = processed st ∧
  fetches (events r.1) = fetches (events st) ∧
  events st `prefix_of` events r.1 ∧
  assets (allReferences r.1) =
    addNew asset_id (assets (allReferences st)) (responseAssets references) ∧
  entries (allReferences r.1) =
    addNew entry_id (entries (allReferences st))
      (responseEntries references) ∧
  fetches (events r.1) ++ entriesToProcess r.1 =
    addNew id (fetches (events st) ++ entriesToProcess st)
      (map entry_id
         (List.filter (λ entry, negb (excluded (entry_contentType entry)))
            (responseEntries references))) ∧
  r.2 = match responseThrows references with
        | Some e => Thrown e
        | None => Returned ()
        end.
Proof.
  intros HInv Hcur Hlookup.
  unfold absorb, responseAssets, responseEntries, responseThrows.
  set (st1 := match references_errors references with
              | Some errs => pushErrors errs st
              | None => st
              end).
  assert (Inv sdk root st1 ∧
          errors (allReferences st1) =
            errors (allReferences st) ++
            default [] (references_errors references) ∧
          processed st1 = processed st ∧ events st1 = events st ∧
          assets (allReferences st1) = assets (allReferences st) ∧
          entries (allReferences st1) = entries (allReferences st) ∧
          entriesToProcess st1 = entriesToProcess st ∧
          processedEntryIds (allReferences st1) =
            processedEntryIds (allReferences st))
    as (H1 & He1 & Hp1 & Hev1 & Ha1 & Hen1 & Hq1 & Hpr1).
  { unfold st1. destruct (references_errors references) as [errs|].
    - split; [by apply pushErrors_Inv|done].
    - split; [done|]. simpl. by rewrite app_nil_r. }
  destruct (processAssets_spec sdk root cur (includedAssets references) st1 H1)
    as (H2 & Hsteady & _).
  { by rewrite Hpr1. }
  { intros asset Hin. by exists references. }
  destruct (processAssets_ledger cur (includedAssets references) st1 H1)
    as ([Hqe Hqp Hqf Hqv] & Ha2 & Hen2 & Hq2 & Hev2 & Hc2).
  { by rewrite Hpr1. }
  { intros asset Hin. by exists references. }
  destruct (forEach processAsset (includedAssets references) st1)
    as [st2 c2] eqn:Hassets.
  cbn [fst snd] in *. subst c2.
  destruct (firstThrow describeAsset (includedAssets references)) as [err|].
  { cbn [fst snd map List.filter]. unfold addNew at 2 3. cbn [foldl].
    split; [congruence|]. split; [congruence|]. split; [congruence|].
    split; [by rewrite Hev2, Hev1|].
    split; [congruence|]. split; [congruence|]. split; [|done].
    by rewrite Hev2, Hq2, Hev1, Hq1. }
  destruct (processEntries_ledger cur (includedEntries references) st2 H2)
    as ([Hqe' Hqp' Hqf' Hqv'] & Ha3 & Hen3 & Hq3 & Hc).
  { by rewrite (std_processedIds _ _ Hsteady), Hpr1. }
  { intros entry Hin. by exists references. }
  split; [congruence|]. split; [congruence|]. split; [congruence|].
  split; [rewrite <- Hev1, <- Hev2; done|].
  split; [congruence|]. split; [congruence|]. split; [|done].
  by rewrite Hq3, Hev2, Hq2, Hev1, Hq1.
Qed.

(** One iteration of the loop, in terms of the entry that it visits. *)
Lemma iteration_ledger (cur : string) (rest : list string) (st : Collector) :
  Inv sdk root st →
  entriesToProcess st = cur :: rest →
  let st' := iteration sdk cur rest st in
  fetches (events st') = fetches (events st) ++ [cur] ∧
  errors (allReferences st') =
    errors (allReferences st) ++ visitErrors sdk cur ∧
  processed st' = processed st + visitCount sdk cur ∧
  entries (allReferences st') =
    addNew entry_id (entries (allReferences st)) (visitEntries sdk cur) ∧
  assets (allReferences st') =
    addNew asset_id (assets (allReferences st)) (visitAssets sdk cur) ∧
  fetches (events st') ++ entriesToProcess st' =
    addNew id (fetches (events st) ++ entriesToProcess st)
      (visitFollows sdk cur) ∧
  events st ++ [Fetch cur; Progress (S (processed st)) (total st)]
    `prefix_of` events st'.
Proof.
  intros HInv Hqueue.
  unfold iteration, tryBlock, visitErrors, visitCount, visitEntries,
    visitAssets, visitFollows, visitEntries, visitThrows. fields.
  assert (cur ∉ processedEntryIds (allReferences st)) as Hfresh.
  { apply (inv_queue_fresh _ _ _ HInv). rewrite Hqueue. by left. }
  destruct (decide (cur ∈ processedEntryIds (allReferences st))); [done|].
  rewrite Hqueue.
  destruct (cma_entry_references sdk cur) as [[references|]|e] eqn:Hres.
  - apply references_Fulfilled in Hres as Hlookup.
    destruct (counted_visit_spec sdk root cur rest st HInv Hqueue)
      as [H2 _]; [by rewrite Hres|].
    set (st2 := setProgress (countProcessed (emit (Fetch cur)
                  (markProcessed cur (shift rest st))))) in *.
    assert (cur ∈ processedEntryIds (allReferences st2)) as Hcur
      by (unfold st2; fields; set_solver).
    destruct (absorb_ledger cur references st2 H2 Hcur Hlookup)
      as (He & Hp & Hf & Hev & Ha & Hen & Hq & Hc).
    assert (fetches (events st2) = fetches (events st) ++ [cur]) as Hf2.
    { unfold st2. fields. by rewrite !fetches_app, app_nil_r. }
    assert (events st2 =
            events st ++ [Fetch cur; Progress (S (processed st)) (total st)])
      as Hev2.
    { unfold st2. fields. by rewrite <- app_assoc. }
    rewrite Hev2 in Hev.
    destruct (absorb references st2) as [st3 c] eqn:Habs.
    cbn [fst snd] in *. subst c.
    assert (errors (allReferences st2) = errors (allReferences st) ∧
            processed st2 = S (processed st) ∧
            assets (allReferences st2) = assets (allReferences st) ∧
            entries (allReferences st2) = entries (allReferences st) ∧
            entriesToProcess st2 = rest) as (He2 & Hp2 & Ha2 & Hen2 & Hq2)
      by done.
    rewrite He2 in He. rewrite Hp2 in Hp. rewrite Ha2 in Ha.
    rewrite Hen2 in Hen. rewrite Hf2, Hq2, <- app_assoc in Hq.
    rewrite Hf2 in Hf. clearbody st2.
    destruct (responseThrows references) as [err|].
    + fields. rewrite fetches_app, app_nil_r.
      splits; try done.
      * rewrite He. by rewrite <- app_assoc.
      * rewrite Hp. lia.
      * etrans; [done|]. by apply prefix_app_r.
    + splits; try done.
      * rewrite He. by rewrite app_nil_r.
      * rewrite Hp. lia.
  - fields. rewrite !fetches_app, !app_nil_r. simpl.
    splits; try done.
    + lia.
    + by rewrite <- app_assoc.
    + by rewrite <- app_assoc.
  - fields. rewrite !fetches_app, !app_nil_r. simpl.
    splits; try done.
    + lia.
    + by rewrite <- app_assoc.
    + by rewrite <- !app_assoc.
Qed.

Lemma initial_Ledger : Ledger sdk root (initial root).
Proof. by split. Qed.

Lemma iteration_Ledger (cur : string) (rest : list string) (st : Collector) :
  Inv sdk root st →
  entriesToProcess st = cur :: rest →
  Ledger sdk root st →
  Ledger sdk root (iteration sdk cur rest st).
Proof.
  intros HInv Hqueue [He Hp Hen Ha Hq].
  destruct (iteration_ledger cur rest st HInv Hqueue)
    as (Hf' & He' & Hp' & Hen' & Ha' & Hq' & _).
  split; rewrite Hf', map_app, ?concat_app, ?sum_list_app, ?addNew_app;
    simpl; rewrite ?app_nil_r.
  - by rewrite He', He.
  - rewrite Hp', Hp. lia.
  - by rewrite Hen', Hen.
  - by rewrite Ha', Ha.
  - by rewrite <- Hf', Hq', Hq.
Qed.

Lemma iterations_Ledger (n : nat) (st : Collector) :
  Inv sdk root st →
  Ledger sdk root st →
  Ledger sdk root (iterations sdk n st) ∧
  events st `prefix_of` events (iterations sdk n st).
Proof.
  revert st. induction n as [|n IH]; intros st HInv Hled; simpl; [done|].
  destruct (entriesToProcess st) as [|cur rest] eqn:Hqueue; [done|].
  destruct (iteration_spec sdk root cur rest st HInv Hqueue) as (H1 & _).
  destruct (IH _ H1 (iteration_Ledger cur rest st HInv Hqueue Hled))
    as (Hled' & Hpre).
  split; [done|]. etrans; [|done].
  destruct (iteration_ledger cur rest st HInv Hqueue)
    as (_ & _ & _ & _ & _ & _ & Hev).
  etrans; [|done]. by apply prefix_app_r.
Qed.

(** The traversal ends in a state that the ledger describes, the root
    requested first. *)
Lemma collect_Ledger :
  ∃ st evs,
    collect sdk root = Some st ∧
    Inv sdk root st ∧
    Ledger sdk root st ∧
    entriesToProcess st = [] ∧
    events st = Fetch root :: Progress 1 1 :: evs.
Proof.
  destruct (collect_spec sdk root)
    as (st & Hcollect & Hst & HInv & Hdone & _).
  assert (∃ n, iterationBound sdk root = S n) as [n Hn].
  { unfold iterationBound.
    destruct (size ({[root]} ∪ referencedIds sdk)) as [|n] eqn:Hsize;
      [|by exists n].
    apply size_empty_inv in Hsize. exfalso.
    apply (not_elem_of_empty (C := gset string) root), Hsize.
    apply elem_of_union. left. by apply elem_of_singleton. }
  rewrite Hn in Hst. cbn [iterations] in Hst.
  change (entriesToProcess (initial root)) with [root] in Hst.
  pose proof (initial_Inv sdk root) as H0.
  destruct (iteration_spec sdk root root [] (initial root) H0 eq_refl)
    as (H1 & _).
  destruct (iteration_ledger root [] (initial root) H0 eq_refl)
    as (_ & _ & _ & _ & _ & _ & Hev).
  destruct (iterations_Ledger n _ H1
              (iteration_Ledger root [] (initial root) H0 eq_refl
                 initial_Ledger)) as (Hled & Hpre).
  rewrite <- Hst in Hled, Hpre.
  assert ([Fetch root; Progress 1 1] `prefix_of` events st) as [evs Hevs].
  { etrans; [|done]. exact Hev. }
  exists st, evs. by rewrite Hevs.
Qed.

End Ledgers.

Lemma visitCount_bounds (sdk : ReferenceStore) (l : list string) :
  length l ≤ sum_list (map (visitCount sdk) l) ∧
  sum_list (map (visitCount sdk) l) ≤ 2 * length l.
Proof.
  induction l as [|i l [IH1 IH2]]; simpl; [lia|].
  assert (1 ≤ visitCount sdk i ≤ 2) as [? ?].
  { unfold visitCount. destruct (cma_entry_references sdk i); [|lia].
    destruct (visitThrows sdk i); lia. }
  lia.
Qed.

Lemma concat_nil_iff {A : Type} (ls : list (list A)) :
  concat ls = [] ↔ ∀ l, l ∈ ls → l = [].
Proof.
  induction ls as [|l ls IH]; simpl.
  - split; [by intros _ ? ?%elem_of_nil|done].
  - split.
    + intros [-> Hrest]%app_eq_nil l' [->|Hin]%elem_of_cons; [done|].
      by apply IH.
    + intros Hall. rewrite (Hall l) by (by left). simpl.
      apply IH. intros l' Hin. apply Hall. by right.
Qed.

(** X11. The errors of a collection are, for each entry requested and in
    the order of the requests, the errors that the response to it lists,
    followed by one generic error for the entry if its request was
    rejected or the handling of its response threw, in the loop over its
    assets or in the loop over its entries; the error carries the text of
    the rejection or of the exception. So the collection is free of errors
    exactly when this gives nothing for any entry requested. *)
Theorem collected_errors_follow_the_requests
    (sdk : ReferenceStore) (root : string) :
  ∃ st,
    collect sdk root = Some st ∧
    errors (allReferences st) =
      concat (map (visitErrors sdk) (fetches (events st))) ∧
    (errors (allReferences st) = [] ↔
     ∀ i, i ∈ fetches (events st) → visitErrors sdk i = []).
Proof.
  destruct (collect_Ledger sdk root)
    as (st & evs & Hcollect & _ & [He _ _ _ _] & _).
  exists st. split; [done|]. split; [done|].
  rewrite He, concat_nil_iff. split.
  - intros Hall i Hi. apply Hall. by apply list_elem_of_fmap_2.
  - intros Hall l (i & -> & Hi)%list_elem_of_fmap. by apply Hall.
Qed.

(** X12. When a traversal ends, [total] is the number of requests that it
    sent, and [processed] counts each entry requested once, and once more
    if the handling of its response threw, in the loop over its assets or
    in the loop over its entries: [processed] is never below [total] and
    at most twice [total]. *)
Theorem counters_count_the_requests (sdk : ReferenceStore) (root : string) :
  ∃ st,
    collect sdk root = Some st ∧
    total st = length (fetches (events st)) ∧
    processed st = sum_list (map (visitCount sdk) (fetches (events st))) ∧
    total st ≤ processed st ∧
    processed st ≤ 2 * total st.
Proof.
  destruct (collect_Ledger sdk root)
    as (st & evs & Hcollect & HInv & [_ Hp _ _ _] & Hdone & _).
  assert (total st = length (fetches (events st))) as Htotal.
  { rewrite (inv_total _ _ _ HInv).
    assert (entriesQueued st = list_to_set (fetches (events st))) as ->.
    { apply set_eq. intros i.
      rewrite elem_of_list_to_set, (Inv_queued_list sdk root st i HInv),
        Hdone, app_nil_r. done. }
    apply size_list_to_set, (inv_fetches_nodup _ _ _ HInv). }
  destruct (visitCount_bounds sdk (fetches (events st))) as [Hlow Hhigh].
  exists st. rewrite Hp, Htotal. done.
Qed.

(** X13. Of the snapshots that carry the same id, a collection keeps the
    first that the traversal meets. Its assets are the assets that the
    responses list, in the order of the requests and as far as the loop
    over the assets of each response gets, without those whose id an asset
    ahead of them has. Its entries are the same for the entries of the
    responses whose loop over the assets ran to its end, as far as the
    loop over the entries gets. *)
Theorem universe_keeps_first_snapshots (sdk : ReferenceStore) (root : string) :
  ∃ st,
    collect sdk root = Some st ∧
    entries (allReferences st) =
      addNew entry_id []
        (concat (map (visitEntries sdk) (fetches (events st)))) ∧
    assets (allReferences st) =
      addNew asset_id []
        (concat (map (visitAssets sdk) (fetches (events st)))).
Proof.
  destruct (collect_Ledger sdk root)
    as (st & evs & Hcollect & _ & [_ _ Hen Ha _] & _).
  by exists st.
Qed.

(** X14. The entries are requested in the order in which they are
    found: the requests of a traversal are the root, followed by the ids
    of the entries that the handling of the responses meets under a
    content type that is not excluded, in the order of the requests,
    without those that were found before. A response whose loop over the
    assets threw adds none. *)
Theorem requests_in_order_of_discovery (sdk : ReferenceStore) (root : string) :
  ∃ st,
    collect sdk root = Some st ∧
    fetches (events st) =
      addNew id []
        (root :: concat (map (visitFollows sdk) (fetches (events st)))).
Proof.
  destruct (collect_Ledger sdk root)
    as (st & evs & Hcollect & _ & [_ _ _ _ Hq] & Hdone & _).
  exists st. split; [done|].
  rewrite Hdone, app_nil_r in Hq. rewrite addNew_cons.
  rewrite (addNew_new id [] root) by (by intros ?%elem_of_nil). done.
Qed.

(** X15. Every traversal begins with the request for the root, followed
    by the report of one processed entry out of a total of one, whether
    the request is fulfilled or rejected. *)
Theorem traversal_starts_with_the_root (sdk : ReferenceStore) (root : string) :
  ∃ st evs,
    collect sdk root = Some st ∧
    events st = Fetch root :: Progress 1 1 :: evs ∧
    head (fetches (events st)) = Some root ∧
    head (reports (events st)) = Some (1, 1).
Proof.
  destruct (collect_Ledger sdk root)
    as (st & evs & Hcollect & _ & _ & _ & Hev).
  exists st, evs. by rewrite Hev.
Qed.

(** The root lists an entry without fields ahead of a teaser: the
    handling of the response throws at the first entry, so the visit
    counts the root twice, records one generic error and meets no
    entry. *)
Example fieldless_visit :
  visitCount fieldless "root" = 2 ∧
  map error_sys_id (visitErrors fieldless "root") = ["root"] ∧
  visitEntries fieldless "root" = [].
Proof. repeat split; reflexivity. Qed.

(** The root lists an asset without title: the handling of the response
    throws at the asset, so the visit counts the root twice, records one
    generic error and meets neither asset nor entry. *)
Example untitled_visit :
  visitCount untitled "root" = 2 ∧
  visitErrors untitled "root" = [fetchError "root" (TypeError "en-US")] ∧
  visitAssets untitled "root" = [] ∧
  visitEntries untitled "root" = [] ∧
  visitFollows untitled "root" = [].
Proof. repeat split; reflexivity. Qed.

(** The root lists an entry and three assets, the second of them without
    title: the collection keeps the asset ahead of it and nothing else of
    the response, as the visit says. *)
Example untitledBetween_run :
  (λ st, (map asset_id (assets (allReferences st)),
          entries (allReferences st), fetches (events st),
          processed st, total st))
    <$> collect untitledBetween "root" =
  Some (map asset_id (visitAssets untitledBetween "root"),
        visitEntries untitledBetween "root", ["root"],
        visitCount untitledBetween "root", 1) ∧
  map asset_id (visitAssets untitledBetween "root") = ["a1"] ∧
  visitEntries untitledBetween "root" = [] ∧
  visitCount untitledBetween "root" = 2.
Proof. repeat split; reflexivity. Qed.

(** The texts of the generic error: for an entry without fields, for an
    entry whose first field is [undefined], and for one whose first field
    is [null]. *)
Example generic_error_texts :
  map (λ fields,
         error_messages
           (fetchError "root"
              (default ""
                 (firstThrow describeEntry
                    [ {| entry_sys := sysOf "e" Entry 1 None None;
                         entry_contentType := "hero";
                         entry_fields := fields |} ]))))
    [ []; [("title", Undefined)]; [("title", Null)] ] =
  [ ["Error fetching references: TypeError: Cannot read properties of undefined (reading '1')"];
    ["Error fetching references: TypeError: Cannot read properties of undefined (reading 'en-US')"];
    ["Error fetching references: TypeError: Cannot read properties of null (reading 'en-US')"] ].
Proof. reflexivity. Qed.

(** A references B and B references A: the requests go to A, then to B,
    and the universe of A holds B and A itself. *)
Example cycle_universe :
  (λ st, (fetches (events st), map entry_id (entries (allReferences st))))
    <$> collect cycle "A" =
  Some (["A"; "B"], ["B"; "A"]).
Proof. reflexivity. Qed.

(** ** Sidebar component *)

Ltac sidebar_fields :=
  cbn [Sidebar.status Sidebar.error Sidebar.information Sidebar.publishStatus
       Sidebar.progress Sidebar.scheduledDate Sidebar.showScheduleOptions
       Sidebar.setStatus Sidebar.setError Sidebar.setInformation
       Sidebar.setPublishStatus Sidebar.setProgress Sidebar.setScheduledDate
       Sidebar.setShowScheduleOptions Sidebar.updateProgress
       Sidebar.initialState] in *.

(** The reports of a traversal leave the last one in [progress], and the
    rest of the state as it is. *)
Lemma foldl_updateProgress (rs : list (nat * nat)) (st : Sidebar.State) :
  let st' := foldl Sidebar.updateProgress st rs in
  Sidebar.status st' = Sidebar.status st ∧
  Sidebar.error st' = Sidebar.error st ∧
  Sidebar.information st' = Sidebar.information st ∧
  Sidebar.publishStatus st' = Sidebar.publishStatus st ∧
  Sidebar.scheduledDate st' = Sidebar.scheduledDate st ∧
  Sidebar.showScheduleOptions st' = Sidebar.showScheduleOptions st ∧
  Sidebar.progress st' =
    match last rs with
    | Some r => {| progress_processed := r.1; progress_total := r.2;
                   isComplete := Nat.eqb r.1 r.2 |}
    | None => Sidebar.progress st
    end.
Proof.
  revert st. induction rs as [|r rs IH]; intros st; [done|].
  cbn [foldl]. destruct (IH (Sidebar.updateProgress st r))
    as (H1 & H2 & H3 & H4 & H5 & H6 & H7).
  rewrite H1, H2, H3, H4, H5, H6, H7. clear. sidebar_fields.
  splits; try done. destruct rs as [|r' rs]; [reflexivity|].
  rewrite (last_cons_cons r).
  destruct (last (r' :: rs)) eqn:E; [done|]. by apply last_None in E.
Qed.

(** The statuses of a run leave the last one in [publishStatus]. *)
Lemma foldl_setPublishStatus (ss : list IPublishStatus) (st : Sidebar.State) :
  let st' := foldl Sidebar.setPublishStatus st ss in
  Sidebar.status st' = Sidebar.status st ∧
  Sidebar.error st' = Sidebar.error st ∧
  Sidebar.information st' = Sidebar.information st ∧
  Sidebar.progress st' = Sidebar.progress st ∧
  Sidebar.scheduledDate st' = Sidebar.scheduledDate st ∧
  Sidebar.showScheduleOptions st' = Sidebar.showScheduleOptions st ∧
  Sidebar.publishStatus st' =
    match last ss with
    | Some s => Some s
    | None => Sidebar.publishStatus st
    end.
Proof.
  revert st. induction ss as [|s ss IH]; intros st; [done|].
  cbn [foldl]. destruct (IH (Sidebar.setPublishStatus st s))
    as (H1 & H2 & H3 & H4 & H5 & H6 & H7).
  rewrite H1, H2, H3, H4, H5, H6, H7. clear. sidebar_fields.
  splits; try done. destruct ss as [|s' ss]; [reflexivity|].
  rewrite (last_cons_cons s).
  destruct (last (s' :: ss)) eqn:E; [done|]. by apply last_None in E.
Qed.

(** A read ends, with the status Complete and the information of the
    collection; it leaves the error and the publish status alone. *)
Lemma retrieveInformation_spec (sdk : SidebarAppSDK) (served : list Request)
    (st : Sidebar.State) :
  ∃ c st',
    collect (sdk_references sdk served) (sys_id (sdk_getSys sdk served)) =
      Some c ∧
    Sidebar.retrieveInformation sdk served st = Some st' ∧
    Sidebar.status st' = Complete ∧
    Sidebar.information st' =
      Some (buildReferenceInformation (sdk_getSys sdk served)
              (allReferences c)) ∧
    Sidebar.error st' = Sidebar.error st ∧
    Sidebar.publishStatus st' = Sidebar.publishStatus st ∧
    Sidebar.scheduledDate st' = Sidebar.scheduledDate st ∧
    Sidebar.showScheduleOptions st' = Sidebar.showScheduleOptions st ∧
    Sidebar.progress st' =
      {| progress_processed := processed c; progress_total := total c;
         isComplete := Nat.eqb (processed c) (total c) |}.
Proof.
  destruct (collect_Ledger (sdk_references sdk served)
              (sys_id (sdk_getSys sdk served)))
    as (c & evs & Hcollect & HInv & _ & _ & Hev).
  exists c. unfold Sidebar.retrieveInformation, fetchReferencesIteratively.
  rewrite Hcollect. cbn [mbind option_bind fmap option_fmap option_map].
  eexists. split; [done|]. split; [done|].
  destruct (foldl_updateProgress (reports (events c))
              (Sidebar.setProgress
                 {| progress_processed := 0; progress_total := 1;
                    isComplete := false |}
                 (Sidebar.setStatus Reading st)))
    as (H1 & H2 & H3 & H4 & H5 & H6 & H7).
  sidebar_fields. rewrite H2, H4, H5, H6, H7.
  repeat split; try done.
  pose proof (inv_last_report _ _ _ HInv) as Hlast.
  rewrite Hev in *. cbn [reports omap list_omap] in *.
  rewrite last_cons_cons in Hlast. by rewrite Hlast.
Qed.

(** The view of a state in which a read has ended and no error is set. *)
Lemma render_Complete (st : Sidebar.State) (information : IReferenceInformation) :
  Sidebar.status st = Complete →
  truthy_string (Sidebar.error st) = false →
  Sidebar.information st = Some information →
  Sidebar.showScheduleOptions st = false →
  Sidebar.render st =
    if publishNeeded information
    then PublishActions
           (if (0 <? publishNeedCount information)%nat
            then Some (publishNeedCount information)
            else None)
    else AllUpToDate.
Proof.
  intros Hstatus Herror Hinfo Hshow. unfold Sidebar.render.
  by rewrite Hstatus, Herror, Hinfo, Hshow.
Qed.

(** X16. Once the first read of the mounted component has settled, the
    status is Complete, no error is set, the progress holds the counters
    of the last report, and the component shows the publish actions or
    the note "All up to date", by the information of the collection: it
    does not stay on the loading text, and shows neither the error note
    nor the warning that something did not work. *)
Theorem first_read_shows_actions_or_up_to_date
    (sdk : SidebarAppSDK) (formattedDate : string) :
  ∃ c st,
    collect (sdk_references sdk []) (sys_id (sdk_getSys sdk [])) = Some c ∧
    Sidebar.mount sdk formattedDate = Some st ∧
    Sidebar.status st = Complete ∧
    Sidebar.error st = None ∧
    Sidebar.publishStatus st = None ∧
    Sidebar.scheduledDate st = formattedDate ∧
    Sidebar.progress st =
      {| progress_processed := processed c; progress_total := total c;
         isComplete := Nat.eqb (processed c) (total c) |} ∧
    Sidebar.information st =
      Some (buildReferenceInformation (sdk_getSys sdk []) (allReferences c)) ∧
    Sidebar.render st =
      if publishNeeded
           (buildReferenceInformation (sdk_getSys sdk []) (allReferences c))
      then PublishActions
             (if (0 <? publishNeedCount
                         (buildReferenceInformation (sdk_getSys sdk [])
                            (allReferences c)))%nat
              then Some (publishNeedCount
                           (buildReferenceInformation (sdk_getSys sdk [])
                              (allReferences c)))
              else None)
      else AllUpToDate.
Proof.
  destruct (retrieveInformation_spec sdk [] Sidebar.initialState)
    as (c & st & Hcollect & Hread & Hstatus & Hinfo & Herror & Hpub & Hdate
        & Hshow & Hprogress).
  exists c, (Sidebar.setScheduledDate formattedDate st).
  unfold Sidebar.mount. rewrite Hread.
  cbn [fmap option_fmap option_map]. sidebar_fields.
  splits; try done.
  apply render_Complete; sidebar_fields; try done. by rewrite Herror.
Qed.

(** X17. A collection that recorded an error hides the publish
    actions: after a read that ended with an error in the collection, as
    it does when the request for the root is rejected, the component
    shows the note "All up to date", whatever the state of the root and
    of its dependencies. *)
Theorem collection_errors_hide_the_publish_actions
    (sdk : SidebarAppSDK) (served : list Request) (st : Sidebar.State) :
  truthy_string (Sidebar.error st) = false →
  ∃ c st',
    collect (sdk_references sdk served) (sys_id (sdk_getSys sdk served)) =
      Some c ∧
    Sidebar.retrieveInformation sdk served st = Some st' ∧
    (errors (allReferences c) ≠ [] → Sidebar.render st' = AllUpToDate) ∧
    (∀ e,
       cma_entry_references (sdk_references sdk served)
         (sys_id (sdk_getSys sdk served)) = Rejected e →
       errors (allReferences c) ≠ []).
Proof.
  intros Herror.
  destruct (retrieveInformation_spec sdk served st)
    as (c & st' & Hcollect & Hread & Hstatus & Hinfo & Herror' & _).
  exists c, st'. split; [done|]. split; [done|]. split.
  - intros Herrors. unfold Sidebar.render.
    rewrite Hstatus, Herror', Herror, Hinfo.
    unfold publishNeeded.
    change (errorCount _) with (length (errors (allReferences c))).
    destruct (errors (allReferences c)); done.
  - intros e Hrejected.
    destruct (collect_Ledger (sdk_references sdk served)
                (sys_id (sdk_getSys sdk served)))
      as (c' & evs & Hcollect' & HInv & _ & _ & Hev).
    rewrite Hcollect in Hcollect'. injection Hcollect' as <-.
    assert (fetchError (sys_id (sdk_getSys sdk served)) e
              ∈ errors (allReferences c)) as Hin.
    { apply (inv_errors _ _ _ HInv); [|done].
      apply (inv_fetches _ _ _ HInv). rewrite Hev. by left. }
    intros Hnil. rewrite Hnil in Hin. by apply elem_of_nil in Hin.
Qed.

(** The root is a draft and the request for its references is rejected:
    the component shows "All up to date". *)
Lemma collection_errors_hide_the_publish_actions_witness :
  lifecycleState (sdk_getSys unreachable []) = Draft ∧
  ∃ st, Sidebar.retrieveInformation unreachable [] Sidebar.initialState =
          Some st ∧
        Sidebar.render st = AllUpToDate.
Proof.
  split; [reflexivity|].
  destruct (collection_errors_hide_the_publish_actions unreachable []
              Sidebar.initialState eq_refl)
    as (c & st & _ & Hread & Hshown & Hrejected).
  exists st. split; [exact Hread|].
  apply Hshown, (Hrejected NotFound). reflexivity.
Defined.

(** The status that a run leaves in the state is the one after the last
    dependency. *)
Lemma last_status (Date_toISOString : string → Completion string)
    (sdk : PublishSDK) (information : IReferenceInformation)
    (scheduledTime : option string) :
  last (statuses
          (doPublish_run Date_toISOString sdk information scheduledTime)) =
  Some (statusOf information scheduledTime
          (dependenciesDone Date_toISOString sdk information scheduledTime)).
Proof.
  destruct (doPublish_run_frame Date_toISOString sdk information scheduledTime)
    as (-> & _ & _).
  apply (rep_last _ _ _
           (dependenciesDone_Reported Date_toISOString sdk information
              scheduledTime)).
Qed.

(** X18. After a run of "Publish Now" that ended with a failure the
    component stays on the publishing note, which has no button: the
    information is not read again, and the note shows the counters and the
    failed items of the state after the last dependency. *)
Theorem failed_run_stays_on_the_publishing_note
    (Date_toISOString : string → Completion string) (sdk : SidebarAppSDK)
    (st : Sidebar.State) (information : IReferenceInformation) :
  Sidebar.information st = Some information →
  doPublish Date_toISOString (sdk_publish sdk) information None = false →
  ∃ st',
    Sidebar.handlePublish Date_toISOString sdk st =
      Some (st', requests (doPublish_run Date_toISOString (sdk_publish sdk)
                             information None)) ∧
    Sidebar.status st' = Publishing ∧
    Sidebar.information st' = Some information ∧
    Sidebar.render st' =
      PublishingNote None
        (pub_published
           (dependenciesDone Date_toISOString (sdk_publish sdk) information
              None))
        (publishTotal information)
        (if (0 <? pub_errors
                    (dependenciesDone Date_toISOString (sdk_publish sdk)
                       information None))%nat
         then Some (pub_errors
                      (dependenciesDone Date_toISOString (sdk_publish sdk)
                         information None),
                    map erroredLink
                      (pub_errored
                         (dependenciesDone Date_toISOString (sdk_publish sdk)
                            information None)))
         else None) ∧
    buttons (Sidebar.render st') = [].
Proof.
  intros Hinfo Hfalse. unfold Sidebar.handlePublish.
  rewrite Hinfo, Hfalse. eexists. split; [done|].
  destruct (foldl_setPublishStatus
              (statuses (doPublish_run Date_toISOString (sdk_publish sdk)
                           information None))
              (Sidebar.setStatus Publishing st))
    as (H1 & H2 & H3 & H4 & H5 & H6 & H7).
  rewrite last_status in H7. sidebar_fields.
  assert (∀ st', Sidebar.status st' = Publishing →
            Sidebar.publishStatus st' =
              Some (statusOf information None
                      (dependenciesDone Date_toISOString (sdk_publish sdk)
                         information None)) →
            Sidebar.render st' =
              PublishingNote None
                (pub_published
                   (dependenciesDone Date_toISOString (sdk_publish sdk)
                      information None))
                (publishTotal information)
                (if (0 <? pub_errors
                            (dependenciesDone Date_toISOString (sdk_publish sdk)
                               information None))%nat
                 then Some (pub_errors
                              (dependenciesDone Date_toISOString
                                 (sdk_publish sdk) information None),
                            map erroredLink
                              (pub_errored
                                 (dependenciesDone Date_toISOString
                                    (sdk_publish sdk) information None)))
                 else None)) as Hrender.
  { intros st' Hs Hp. unfold Sidebar.render. by rewrite Hs, Hp. }
  split; [done|]. split; [by rewrite H3|].
  split; [by apply Hrender|]. by rewrite (Hrender _ H1 H7).
Qed.

(** The publication of the current entry is rejected after four
    dependencies: the note shows four of four published and no error, and
    the component stays on it. *)
Lemma failed_run_stays_on_the_publishing_note_witness :
  ∃ st,
    Sidebar.handlePublish toISOString locked informed =
      Some (st, requests (doPublish_run toISOString lockedRoot
                            pendingInformation None)) ∧
    Sidebar.render st = PublishingNote None 4 4 None ∧
    buttons (Sidebar.render st) = [].
Proof.
  destruct (failed_run_stays_on_the_publishing_note toISOString locked
              informed pendingInformation eq_refl eq_refl)
    as (st & Hrun & _ & _ & Hrender & Hbuttons).
  exists st. split; [exact Hrun|]. split; [exact Hrender|exact Hbuttons].
Defined.

(** X19. After a run of "Publish Now" without failure the component
    reads the references again, from the content repository as the run
    left it: the status is Complete, the information is that of the new
    collection, and the status of the run, which shows every item
    published, stays in the state without being shown. *)
Theorem successful_run_reads_again
    (Date_toISOString : string → Completion string) (sdk : SidebarAppSDK)
    (st : Sidebar.State) (information : IReferenceInformation) :
  Sidebar.information st = Some information →
  doPublish Date_toISOString (sdk_publish sdk) information None = true →
  ∃ c st',
    collect
      (sdk_references sdk
         (requests (doPublish_run Date_toISOString (sdk_publish sdk)
                      information None)))
      (sys_id
         (sdk_getSys sdk
            (requests (doPublish_run Date_toISOString (sdk_publish sdk)
                         information None)))) = Some c ∧
    Sidebar.handlePublish Date_toISOString sdk st =
      Some (st', requests (doPublish_run Date_toISOString (sdk_publish sdk)
                             information None)) ∧
    Sidebar.status st' = Complete ∧
    Sidebar.information st' =
      Some (buildReferenceInformation
              (sdk_getSys sdk
                 (requests (doPublish_run Date_toISOString (sdk_publish sdk)
                              information None)))
              (allReferences c)) ∧
    (∃ s, Sidebar.publishStatus st' = Some s ∧
          status_published s = publishTotal information ∧
          status_errors s = 0) ∧
    ∀ scheduledFor published total errors,
      Sidebar.render st' ≠ PublishingNote scheduledFor published total errors.
Proof.
  intros Hinfo Htrue. unfold Sidebar.handlePublish. rewrite Hinfo, Htrue.
  set (run := doPublish_run Date_toISOString (sdk_publish sdk) information
                None).
  set (deps := dependenciesDone Date_toISOString (sdk_publish sdk) information
                 None).
  destruct (retrieveInformation_spec sdk (requests run)
              (foldl Sidebar.setPublishStatus
                 (Sidebar.setStatus Publishing st) (statuses run)))
    as (c & st' & Hcollect & Hread & Hstatus & Hinfo' & _ & Hpub & _).
  exists c, st'. rewrite Hread. cbn [mbind option_bind].
  split; [done|]. split; [done|]. split; [done|]. split; [done|].
  destruct (foldl_setPublishStatus (statuses run)
              (Sidebar.setStatus Publishing st))
    as (_ & _ & _ & _ & _ & _ & H7).
  unfold run in H7 at 2. rewrite last_status in H7. fold deps in H7.
  split.
  - eexists. split; [by rewrite Hpub, H7|].
    destruct (dependenciesDone_extends Date_toISOString (sdk_publish sdk)
                information None) as (_ & _ & _ & _ & _ & _ & Htotal & _).
    simpl in Htotal. fold deps in Htotal.
    assert (pub_errors deps = 0) as Hzero.
    { unfold doPublish in Htrue. fold run in Htrue.
      apply Nat.eqb_eq in Htrue. unfold run, doPublish_run in Htrue.
      fold deps in Htrue.
      destruct (Nat.eqb_spec (pub_errors deps) 0); [done|lia]. }
    cbn [statusOf status_published status_errors]. lia.
  - intros ? ? ? ?. unfold Sidebar.render. rewrite Hstatus.
    destruct (truthy_string (Sidebar.error st')); [done|].
    rewrite Hinfo'. destruct (publishNeeded _); [|done].
    by destruct (Sidebar.showScheduleOptions st').
Qed.

(** Four dependencies and the current entry are published: the component
    reads again and leaves the publishing note. *)
Lemma successful_run_reads_again_witness :
  ∃ st,
    Sidebar.handlePublish toISOString unlocked informed =
      Some (st, requests (doPublish_run toISOString (repository [])
                            pendingInformation None)) ∧
    Sidebar.status st = Complete.
Proof.
  destruct (successful_run_reads_again toISOString unlocked informed
              pendingInformation eq_refl eq_refl)
    as (c & st & _ & Hrun & Hstatus & _).
  exists st. split; [exact Hrun|exact Hstatus].
Defined.

(** X20. Each of the two publish buttons sends requests of its own kind
    only. "Publish Now" sends immediate publications and creates no
    scheduled action. "Schedule Publish" creates scheduled actions and
    publishes nothing at once; without a date it does nothing at all, and
    neither button does anything before the information is there. *)
Theorem buttons_send_requests_of_their_kind
    (Date_toISOString : string → Completion string) (sdk : SidebarAppSDK)
    (st : Sidebar.State) :
  (∃ st' rs,
     Sidebar.handlePublish Date_toISOString sdk st = Some (st', rs) ∧
     Forall (λ r, isImmediatePublish r = true) rs ∧
     (Sidebar.information st = None → st' = st ∧ rs = [])) ∧
  (∃ st' rs,
     Sidebar.handleScheduledPublish Date_toISOString sdk st = Some (st', rs) ∧
     Forall (λ r, isImmediatePublish r = false) rs ∧
     (Sidebar.information st = None ∨ Sidebar.scheduledDate st = "" →
      st' = st ∧ rs = [])).
Proof.
  assert (∀ information scheduledTime st1,
            ∃ st', (if doPublish Date_toISOString (sdk_publish sdk)
                         information scheduledTime
                    then st3 ← Sidebar.retrieveInformation sdk
                                 (requests (doPublish_run Date_toISOString
                                              (sdk_publish sdk) information
                                              scheduledTime)) st1;
                         Some (st3, requests (doPublish_run Date_toISOString
                                                (sdk_publish sdk) information
                                                scheduledTime))
                    else Some (st1, requests (doPublish_run Date_toISOString
                                                (sdk_publish sdk) information
                                                scheduledTime))) =
                   Some (st', requests (doPublish_run Date_toISOString
                                          (sdk_publish sdk) information
                                          scheduledTime))) as Hends.
  { intros information scheduledTime st1. destruct (doPublish _ _ _ _).
    - destruct (retrieveInformation_spec sdk
                  (requests (doPublish_run Date_toISOString (sdk_publish sdk)
                               information scheduledTime)) st1)
        as (c & st' & _ & -> & _).
      by exists st'.
    - by exists st1. }
  split.
  - unfold Sidebar.handlePublish.
    destruct (Sidebar.information st) as [information|].
    + destruct (Hends information None
                  (foldl Sidebar.setPublishStatus
                     (Sidebar.setStatus Publishing st)
                     (statuses (doPublish_run Date_toISOString
                                  (sdk_publish sdk) information None))))
        as (st' & ->).
      eexists _, _. split; [done|]. split; [|done].
      apply (doPublish_run_mode Date_toISOString (sdk_publish sdk)
               information None).
    + exists st, []. by repeat split.
  - unfold Sidebar.handleScheduledPublish.
    destruct (Sidebar.information st) as [information|].
    + destruct (String.eqb_spec (Sidebar.scheduledDate st) "") as [Hd|Hd].
      * rewrite Hd. exists st, []. by repeat split.
      * assert (truthy_string (Some (Sidebar.scheduledDate st)) = true)
          as Htruthy.
        { simpl. by apply negb_true_iff, String.eqb_neq. }
        rewrite Htruthy. cbn [negb].
        destruct (Hends information (Some (Sidebar.scheduledDate st))
                    (foldl Sidebar.setPublishStatus
                       (Sidebar.setStatus Publishing st)
                       (statuses (doPublish_run Date_toISOString
                                    (sdk_publish sdk) information
                                    (Some (Sidebar.scheduledDate st))))))
          as (st' & ->).
        eexists _, _. split; [done|]. split; [|by intros [|]].
        pose proof (doPublish_run_mode Date_toISOString (sdk_publish sdk)
                      information (Some (Sidebar.scheduledDate st))) as Hmode.
        unfold isScheduled in Hmode. by rewrite Htruthy in Hmode.
    + exists st, []. by repeat split.
Qed.

(** Before the information is there, neither button does anything. *)
Lemma buttons_send_requests_of_their_kind_witness :
  Sidebar.handlePublish toISOString unlocked Sidebar.initialState =
    Some (Sidebar.initialState, []) ∧
  Sidebar.handleScheduledPublish toISOString unlocked Sidebar.initialState =
    Some (Sidebar.initialState, []).
Proof.
  destruct (buttons_send_requests_of_their_kind toISOString unlocked
              Sidebar.initialState)
    as [(st1 & rs1 & Hnow & _ & Hidle1) (st2 & rs2 & Hlater & _ & Hidle2)].
  destruct Hidle1 as [-> ->]; [reflexivity|].
  destruct Hidle2 as [-> ->]; [left; reflexivity|].
  split; [exact Hnow|exact Hlater].
Defined.

(** X21. From the publish actions, "Schedule..." opens the schedule
    options with the scheduled date of the state, the button "Schedule
    Publish" being disabled exactly when that date is empty, and "Cancel"
    brings the publish actions back: the two clicks leave the state as it
    was. *)
Theorem schedule_options_open_and_close
    (st : Sidebar.State) (needPublishing : option nat) :
  Sidebar.render st = PublishActions needPublishing →
  Sidebar.render (Sidebar.toggleScheduleOptions st) =
    ScheduleOptions (Sidebar.scheduledDate st)
      (String.eqb (Sidebar.scheduledDate st) "") ∧
  buttons (Sidebar.render (Sidebar.toggleScheduleOptions st)) =
    [SchedulePublish (String.eqb (Sidebar.scheduledDate st) ""); Cancel] ∧
  Sidebar.toggleScheduleOptions (Sidebar.toggleScheduleOptions st) = st ∧
  Sidebar.render
    (Sidebar.toggleScheduleOptions (Sidebar.toggleScheduleOptions st)) =
    PublishActions needPublishing.
Proof.
  intros Hrender.
  assert (Sidebar.toggleScheduleOptions (Sidebar.toggleScheduleOptions st) = st)
    as Hback.
  { destruct st. unfold Sidebar.toggleScheduleOptions. sidebar_fields.
    by rewrite negb_involutive. }
  assert (Sidebar.render (Sidebar.toggleScheduleOptions st) =
          ScheduleOptions (Sidebar.scheduledDate st)
            (String.eqb (Sidebar.scheduledDate st) "")) as Hopen.
  { clear Hback. unfold Sidebar.render, Sidebar.toggleScheduleOptions in *.
    sidebar_fields.
    destruct (Sidebar.status st); try discriminate Hrender;
      destruct (Sidebar.publishStatus st); try discriminate Hrender;
      destruct (truthy_string (Sidebar.error st)); try discriminate Hrender;
      destruct (Sidebar.information st) as [information|];
      try discriminate Hrender;
      destruct (publishNeeded information); try discriminate Hrender;
      destruct (Sidebar.showScheduleOptions st); try discriminate Hrender;
      simpl; by rewrite negb_involutive. }
  split; [done|]. split; [by rewrite Hopen|]. split; [done|].
  by rewrite Hback.
Qed.

(** With the information of the four pending dependencies and no date
    yet, the schedule options open with "Schedule Publish" disabled. *)
Lemma schedule_options_open_and_close_witness :
  Sidebar.render (Sidebar.toggleScheduleOptions informed) =
    ScheduleOptions "" true ∧
  Sidebar.toggleScheduleOptions (Sidebar.toggleScheduleOptions informed) =
    informed.
Proof.
  destruct (schedule_options_open_and_close informed (Some 4) eq_refl)
    as (Hopen & _ & Hback & _).
  split; [exact Hopen|exact Hback].
Defined.

(** ** From the collection to the publish run *)

Lemma NoDup_map_inj_on {A : Type} (key : A → string) (l : list A) (x y : A) :
  NoDup (map key l) → x ∈ l → y ∈ l → key x = key y → x = y.
Proof.
  induction l as [|a l IH]; simpl; [by intros _ ?%elem_of_nil|].
  intros [Ha Hl]%NoDup_cons [->|Hx]%elem_of_cons [->|Hy]%elem_of_cons Hkey;
    try done.
  - exfalso. apply Ha. rewrite Hkey. by apply list_elem_of_fmap_2.
  - exfalso. apply Ha. rewrite <- Hkey. by apply list_elem_of_fmap_2.
  - by apply IH.
Qed.

Lemma NoDup_map_List_filter {A : Type} (key : A → string) (f : A → bool)
    (l : list A) :
  NoDup (map key l) → NoDup (map key (List.filter f l)).
Proof.
  induction l as [|a l IH]; simpl; [done|].
  intros [Ha Hl]%NoDup_cons. destruct (f a); simpl; [|by apply IH].
  apply NoDup_cons. split; [|by apply IH].
  intros (x & Hkey & [Hx _]%elem_of_filter_iff)%list_elem_of_fmap.
  apply Ha. rewrite Hkey. by apply list_elem_of_fmap_2.
Qed.

(** The drafts and the updated ones of a list without duplicate ids. *)
Lemma NoDup_pending {A : Type} (key : A → string) (sysOf : A → EntityMetaSysProps)
    (l : list A) :
  NoDup (map key l) →
  NoDup (map key (List.filter (λ x, isDraft (sysOf x)) l ++
                  List.filter (λ x, isUpdated (sysOf x)) l)).
Proof.
  intros Hl. rewrite map_app. apply NoDup_app.
  split; [by apply NoDup_map_List_filter|].
  split; [|by apply NoDup_map_List_filter].
  intros i (x & -> & [Hx Hdraft]%elem_of_filter_iff)%list_elem_of_fmap
           (y & Hkey & [Hy Hupdated]%elem_of_filter_iff)%list_elem_of_fmap.
  assert (x = y) as -> by by eapply NoDup_map_inj_on.
  apply isDraft_iff in Hdraft. apply isUpdated_iff in Hupdated. congruence.
Qed.

(** X22. A publish run over the information of a collection sends at
    most one request for each asset and for each entry of the universe:
    the pending dependencies are pairwise different in kind or id, and so
    are the targets of the requests for them. The request for the main
    entry, which follows them, is not counted here. *)
Theorem no_dependency_requested_twice
    (references : ReferenceStore) (root : string) (entrySys : EntityMetaSysProps)
    (Date_toISOString : string → Completion string) (sdk : PublishSDK)
    (scheduledTime : option string) :
  ∃ c,
    collect references root = Some c ∧
    NoDup (map (λ i, (itemKind i, sys_id (itemSys i)))
             (dependencies (buildReferenceInformation entrySys
                              (allReferences c)))) ∧
    NoDup (map (λ r, (requestKind r, requestTarget r))
             (requests
                (dependenciesDone Date_toISOString sdk
                   (buildReferenceInformation entrySys (allReferences c))
                   scheduledTime))).
Proof.
  destruct (collect_spec references root) as (c & Hcollect & _ & HInv & _).
  exists c. split; [done|].
  set (information := buildReferenceInformation entrySys (allReferences c)).
  pose proof (NoDup_pending asset_id asset_sys _
                (inv_assets_nodup _ _ _ HInv)) as Hassets.
  pose proof (NoDup_pending entry_id entry_sys _
                (inv_entries_nodup _ _ _ HInv)) as Hentries.
  change (List.filter _ (assets (allReferences c)) ++
          List.filter _ (assets (allReferences c)))
    with (draftAssets information ++ updatedAssets information) in Hassets.
  change (List.filter _ (entries (allReferences c)) ++
          List.filter _ (entries (allReferences c)))
    with (draftEntries information ++ updatedEntries information) in Hentries.
  split.
  - unfold dependencies. rewrite map_app, !map_map. cbn [itemKind itemSys].
    apply NoDup_app. split; [|split].
    + rewrite <- (map_map asset_id (λ i, (Asset, i))).
      apply NoDup_fmap_2; [by intros ? ? [=]|done].
    + intros [kind i] (a & [= -> ->] & _)%list_elem_of_fmap
                       (e & [=] & _)%list_elem_of_fmap.
    + rewrite <- (map_map entry_id (λ i, (Entry, i))).
      apply NoDup_fmap_2; [by intros ? ? [=]|done].
  - destruct (dependenciesDone_extends Date_toISOString sdk information
                scheduledTime) as (ra & re & Hreq & Hfa & Hfe & _).
    simpl in Hreq. rewrite Hreq.
    assert (∀ kind (items : list EntityMetaSysProps) rs,
              Forall2 (λ sys r, requestFor scheduledTime kind (sys_id sys) r)
                items rs →
              map (λ r, (requestKind r, requestTarget r)) rs =
              map (λ sys, (Some kind, Some (sys_id sys))) items) as Htargets.
    { intros kind items rs Hall.
      induction Hall as [|sys r items rs (Hk & Ht & _) _ IH]; [done|].
      simpl. by rewrite Hk, Ht, IH. }
    rewrite map_app. apply NoDup_app.
    destruct (sendsRequests Date_toISOString scheduledTime).
    + rewrite (Htargets _ _ _ Hfa), (Htargets _ _ _ Hfe), !map_map.
      split; [|split].
      * rewrite <- (map_map asset_id (λ i, (Some Asset, Some i))).
        apply NoDup_fmap_2; [by intros ? ? [=]|done].
      * intros [kind i] (a & [= -> ->] & _)%list_elem_of_fmap
                         (e & [=] & _)%list_elem_of_fmap.
      * rewrite <- (map_map entry_id (λ i, (Some Entry, Some i))).
        apply NoDup_fmap_2; [by intros ? ? [=]|done].
    + inversion Hfa; inversion Hfe; subst. simpl.
      split; [constructor|]. split; [by intros ? ?%elem_of_nil|constructor].
Qed.

(** ** The earlier revision and the later one *)

Ltac earlier_fields :=
  cbn [Earlier.pub_published Earlier.pub_errors Earlier.pub_errored
       Earlier.requests Earlier.statuses Earlier.settle
       Earlier.initialPublisher Earlier.status_total Earlier.status_published
       Earlier.status_errors Earlier.status_errored laterStatus] in *.

Section EarlierAndLater.

Variable Date_toISOString : string → Completion string.
Variable sdk : PublishSDK.
Variable information : IReferenceInformation.

Lemma initial_agrees :
  agrees information Earlier.initialPublisher
    (initialPublisher information None).
Proof. by split. Qed.

Lemma publishAsset_agrees (earlier : Earlier.Publisher) (later : Publisher)
    (asset : AssetProps) :
  agrees information earlier later →
  agrees information (Earlier.publishAsset sdk information earlier asset)
    (publishAsset Date_toISOString sdk information None later asset).
Proof.
  intros [Hp He Hl Hr Hs Ha].
  unfold Earlier.publishAsset, publishAsset, publishItem, publishImmediately.
  cbn [isScheduled truthy_string]. rewrite Hr.
  change (sys_id (asset_sys asset)) with (asset_id asset).
  destruct (cma_asset_publish sdk (requests later) (asset_id asset)
              (AssetEntity asset)) as [[]|e];
    split; earlier_fields; run_fields;
    rewrite ?Hp, ?He, ?Hl, ?Hr, ?Hs, ?Ha, ?map_app; try done.
Qed.

Lemma publishEntry_agrees (earlier : Earlier.Publisher) (later : Publisher)
    (entry : EntryProps) :
  agrees information earlier later →
  agrees information (Earlier.publishEntry sdk information earlier entry)
    (publishEntry Date_toISOString sdk information None later entry).
Proof.
  intros [Hp He Hl Hr Hs Ha].
  unfold Earlier.publishEntry, publishEntry, publishItem, publishImmediately.
  cbn [isScheduled truthy_string]. rewrite Hr.
  change (sys_id (entry_sys entry)) with (entry_id entry).
  destruct (cma_entry_publish sdk (requests later) (entry_id entry)
              (EntryEntity entry)) as [[]|e];
    split; earlier_fields; run_fields;
    rewrite ?Hp, ?He, ?Hl, ?Hr, ?Hs, ?Ha, ?map_app; try done.
Qed.

Lemma dependenciesDone_agrees :
  agrees information (Earlier.dependenciesDone sdk information)
    (dependenciesDone Date_toISOString sdk information None).
Proof.
  unfold Earlier.dependenciesDone, dependenciesDone, publishEntries,
    publishAssets.
  assert (∀ l earlier later,
            agrees information earlier later →
            agrees information
              (foldl (Earlier.publishAsset sdk information) earlier l)
              (foldl (publishAsset Date_toISOString sdk information None)
                 later l)) as Hassets.
  { induction l as [|a l IH]; intros earlier later H; simpl; [done|].
    by apply IH, publishAsset_agrees. }
  assert (∀ l earlier later,
            agrees information earlier later →
            agrees information
              (foldl (Earlier.publishEntry sdk information) earlier l)
              (foldl (publishEntry Date_toISOString sdk information None)
                 later l)) as Hentries.
  { induction l as [|a l IH]; intros earlier later H; simpl; [done|].
    by apply IH, publishEntry_agrees. }
  apply Hentries, Hassets, initial_agrees.
Qed.

(** X23. The later [doPublish], run without a scheduled time, goes the
    way of the earlier one: it sends the same requests, counts and lists
    the same items, passes on the same statuses after one more at the
    start, and returns what the earlier one returns. They part where the
    publication of the current entry is rejected: the earlier [doPublish]
    is rejected with that error, the later one counts it and returns
    false. *)
Theorem later_run_repeats_the_earlier_one :
  let earlier := Earlier.doPublish sdk information in
  let later := doPublish_run Date_toISOString sdk information None in
  Earlier.requests earlier.1 = requests later ∧
  Earlier.pub_published earlier.1 = pub_published later ∧
  Earlier.pub_errored earlier.1 = pub_errored later ∧
  statuses later =
    statusOf information None (initialPublisher information None) ::
    map laterStatus (Earlier.statuses earlier.1) ∧
  match earlier.2 with
  | Returned result =>
      doPublish Date_toISOString sdk information None = result ∧
      Earlier.pub_errors earlier.1 = pub_errors later
  | Thrown e =>
      doPublish Date_toISOString sdk information None = false ∧
      Earlier.pub_errors earlier.1 = 0 ∧
      pub_errors later = 1 ∧
      last (requests later) = Some (CurrentEntryPublish (Rejected e))
  end.
Proof.
  destruct dependenciesDone_agrees as [Hp He Hl Hr Hs Ha].
  unfold Earlier.doPublish, doPublish, doPublish_run. rewrite He.
  destruct (Nat.eqb_spec
              (pub_errors (dependenciesDone Date_toISOString sdk information
                             None)) 0) as [Hzero|Hpos].
  - unfold publishMain. cbn [isScheduled truthy_string andb]. rewrite Hr.
    destruct (entry_publish sdk
                (requests (dependenciesDone Date_toISOString sdk information
                             None))) as [[]|e];
      earlier_fields; run_fields; cbn [fst snd];
      rewrite ?Hp, ?He, ?Hl, ?Hr, ?Hs, ?Hzero; splits; try done.
    by rewrite last_snoc.
  - cbn [fst snd]. splits; try done. by apply Nat.eqb_neq.
Qed.

End EarlierAndLater.

(** The publication of the current entry is rejected: the earlier
    [doPublish] is rejected, the later one returns false. *)
Example rejected_current_entry :
  (Earlier.doPublish lockedRoot pendingInformation).2 =
    Thrown "ValidationFailed" ∧
  doPublish toISOString lockedRoot pendingInformation None = false.
Proof. split; reflexivity. Qed.

Lemma earlier_pending_count_iff (l : list EntryProps) (k : list AssetProps) :
  (0 <? length (List.filter (λ e, isDraft (entry_sys e)) l) +
        length (List.filter (λ e, isUpdated (entry_sys e)) l) +
        length (List.filter (λ a, isDraft (asset_sys a)) k) +
        length (List.filter (λ a, isUpdated (asset_sys a)) k))%nat = true ↔
  ∃ dep, dep ∈ map asset_sys k ++ map entry_sys l ∧
         lifecycleState dep ≠ Published.
Proof.
  assert (∀ a b c d : nat,
            (0 <? a + b + c + d)%nat = true ↔
            ((0 <? c)%nat = true ∨ (0 <? d)%nat = true) ∨
            ((0 <? a)%nat = true ∨ (0 <? b)%nat = true)) as ->.
  { intros a b c d. rewrite !Nat.ltb_lt. lia. }
  rewrite !filter_nonempty_iff. split.
  - intros [[(a & Ha & Hf)|(a & Ha & Hf)]|[(e & He & Hf)|(e & He & Hf)]].
    + exists (asset_sys a). split.
      * apply elem_of_app. left. by apply list_elem_of_fmap_2.
      * apply pending_iff. by rewrite Hf.
    + exists (asset_sys a). split.
      * apply elem_of_app. left. by apply list_elem_of_fmap_2.
      * apply pending_iff. by rewrite Hf, orb_true_r.
    + exists (entry_sys e). split.
      * apply elem_of_app. right. by apply list_elem_of_fmap_2.
      * apply pending_iff. by rewrite Hf.
    + exists (entry_sys e). split.
      * apply elem_of_app. right. by apply list_elem_of_fmap_2.
      * apply pending_iff. by rewrite Hf, orb_true_r.
  - intros (dep & Hdep & Hpending%pending_iff).
    apply orb_true_iff in Hpending.
    apply elem_of_app in Hdep as [Hdep|Hdep];
      apply list_elem_of_fmap in Hdep as (x & -> & Hx);
      destruct Hpending; eauto 6.
Qed.

(** X24. The classifier of the earlier revision reads the state of the
    entry asked for off the first item of the response, and reports it as
    published as soon as it has a published version, with or without
    changes since: whenever the later classifier reports an entry as
    published, the earlier one does. So the earlier component offers to
    publish exactly when the response lists no error and the entry is a
    draft or a snapshot among the includes is draft or updated, and it
    overlooks an entry that has changes of its own only. A response
    without items makes the classifier throw. *)
Theorem earlier_classifier_overlooks_changes
    (response : Earlier.EntryReferences) (item : EntryProps)
    (rest : list EntryProps) :
  Earlier.items response = item :: rest →
  ∃ information,
    Earlier.buildReferenceInformation response = Returned information ∧
    (published information = true ↔ lifecycleState (entry_sys item) ≠ Draft) ∧
    (∀ u, published (buildReferenceInformation (entry_sys item) u) = true →
          published information = true) ∧
    (publishNeeded information = true ↔
     default [] (references_errors (Earlier.references response)) = [] ∧
     (lifecycleState (entry_sys item) = Draft ∨
      ∃ dep,
        dep ∈ map asset_sys (includedAssets (Earlier.references response)) ++
              map entry_sys (includedEntries (Earlier.references response)) ∧
        lifecycleState dep ≠ Published)).
Proof.
  intros Hitems. unfold Earlier.buildReferenceInformation. rewrite Hitems.
  eexists. split; [done|].
  assert (isPublished (entry_sys item) = true ↔
          lifecycleState (entry_sys item) ≠ Draft) as Hpublished.
  { rewrite <- isDraft_iff. unfold isDraft, isPublished.
    destruct (truthy_number _); simpl; split; congruence. }
  split; [done|]. split.
  - intros u. simpl. by intros [[? _]%andb_true_iff _]%andb_true_iff.
  - unfold publishNeeded, publishNeedCount.
    cbn [errorCount published draftEntryCount updatedEntryCount
         draftAssetCount updatedAssetCount].
    rewrite andb_true_iff, orb_true_iff, andb_true_iff,
      earlier_pending_count_iff, Nat.eqb_eq, length_zero_iff_nil,
      negb_true_iff, <- not_true_iff_false, Hpublished.
    assert (¬ lifecycleState (entry_sys item) ≠ Draft ↔
            lifecycleState (entry_sys item) = Draft) as ->.
    { split; [|by intros -> H].
      intros H. destruct (lifecycleState (entry_sys item)); try done;
        by destruct H. }
    tauto.
Qed.

(** The entry asked for has changes of its own, and the includes are
    empty: the earlier component does not offer to publish, the later
    classifier reports the entry as not published. *)
Lemma earlier_classifier_overlooks_changes_witness :
  ∃ information,
    Earlier.buildReferenceInformation
      {| Earlier.items :=
           [ {| entry_sys := sysOf "root" Entry 5 (Some 2) (Some "100");
                entry_contentType := "page";
                entry_fields := [] |} ];
         Earlier.references :=
           {| references_errors := None; references_includes := None |} |} =
      Returned information ∧
    published information = true ∧
    publishNeeded information = false ∧
    published
      (buildReferenceInformation
         (sysOf "root" Entry 5 (Some 2) (Some "100"))
         {| entries := []; assets := []; errors := [];
            processedEntryIds := ∅ |}) = false.
Proof.
  destruct (earlier_classifier_overlooks_changes
              {| Earlier.items :=
                   [ {| entry_sys := sysOf "root" Entry 5 (Some 2) (Some "100");
                        entry_contentType := "page";
                        entry_fields := [] |} ];
                 Earlier.references :=
                   {| references_errors := None;
                      references_includes := None |} |}
              {| entry_sys := sysOf "root" Entry 5 (Some 2) (Some "100");
                 entry_contentType := "page";
                 entry_fields := [] |} [] eq_refl)
    as (information & Hbuilt & Hpublished & _ & Hneeded).
  exists information. split; [exact Hbuilt|].
  split; [by apply Hpublished|].
  split; [|reflexivity].
  apply not_true_is_false. intros [_ [H|(dep & Hdep & _)]]%Hneeded.
  - discriminate H.
  - by apply elem_of_nil in Hdep.
Defined.
